(** * xpropagator: satellite registry, DLL gate and ephemeris pipeline

    A shallow embedding of the core of the propagation service:
    - [Strings], [Strconv]: the two Go library functions the catalog-number
      parser relies on ([strings.TrimSpace], [strconv.Atoi]);
    - [GC]: package [gc] (the reference-counted LRU+TTL satellite registry);
    - [CoreHelpers]: package [core_helpers] (the DLL gate, [WithDllCall]);
    - [Dllcore]: the Go side of the native adapter ([Sgp4GenEphems]);
    - [Core]: package [core] (request validation and the Ephem chunk loop);
    - [Notions], [Samples]: what the properties are stated with, and the
      inputs they are tried on.

    Go [int], [int64] are modelled as [Z] with the wrap-around written out
    where the code does arithmetic on them, Go strings as their byte
    sequences, [float64] as binary64 primitive floats, maps as [gmap]. *)

From Stdlib Require Import ZArith List String Ascii Lia Bool.
From Stdlib Require Import Floats.
From Stdlib Require Import Sorting.Permutation Sorting.Sorted.
From stdpp Require Import gmap list.

Local Open Scope Z_scope.

(** ** Machine integers *)

Module GoInt.

Definition minInt64 : Z := - 2 ^ 63.
Definition maxInt64 : Z := 2 ^ 63 - 1.

(** Two's-complement wrap-around of a mathematical integer to [w] bits. *)
Definition wrap (w : Z) (z : Z) : Z :=
  (z + 2 ^ (w - 1)) mod 2 ^ w - 2 ^ (w - 1).

Definition int64 (z : Z) : Z := wrap 64 z.
Definition int32 (z : Z) : Z := wrap 32 z.

Definition inInt64 (z : Z) : bool := (minInt64 <=? z) && (z <=? maxInt64).

End GoInt.

(** ** Go strings as byte sequences *)

Module Strings.

(** The bytes of a string; a Go [string] is its byte sequence. *)
Definition bytes (s : string) : list Z :=
  List.map (fun c => Z.of_N (N_of_ascii c)) (list_ascii_of_string s).

(** [asciiSpace] of package [strings]: tab, newline, vertical tab, form
    feed, carriage return and space. *)
Definition asciiSpace (b : Z) : bool :=
  (b =? 9) || (b =? 10) || (b =? 11) || (b =? 12) || (b =? 13) || (b =? 32).

(** The two-byte UTF-8 encodings of [unicode.IsSpace] runes:
    U+0085 and U+00A0. *)
Definition space2 (b0 b1 : Z) : bool :=
  (b0 =? 194) && ((b1 =? 133) || (b1 =? 160)).

(** The three-byte encodings: U+1680, U+2000..U+200A, U+2028, U+2029,
    U+202F, U+205F and U+3000. *)
Definition space3 (b0 b1 b2 : Z) : bool :=
  ((b0 =? 225) && (b1 =? 154) && (b2 =? 128))
  || ((b0 =? 226) && (b1 =? 128)
      && (((128 <=? b2) && (b2 <=? 138)) || (b2 =? 168) || (b2 =? 169)
          || (b2 =? 175)))
  || ((b0 =? 226) && (b1 =? 129) && (b2 =? 159))
  || ((b0 =? 227) && (b1 =? 128) && (b2 =? 128)).

(** Width in bytes of the white-space rune a byte sequence starts with,
    0 when it starts with none. An invalid encoding decodes to
    [utf8.RuneError], which is no space. *)
Definition leadingSpace (s : list Z) : nat :=
  match s with
  | b0 :: t0 =>
      if asciiSpace b0 then 1%nat
      else match t0 with
           | b1 :: t1 =>
               if space2 b0 b1 then 2%nat
               else match t1 with
                    | b2 :: _ => if space3 b0 b1 b2 then 3%nat else 0%nat
                    | [] => 0%nat
                    end
           | [] => 0%nat
           end
  | [] => 0%nat
  end.

(** The same for the rune a sequence ends with, read on the reversed
    sequence (last byte first). *)
Definition trailingSpace (r : list Z) : nat :=
  match r with
  | b0 :: t0 =>
      if asciiSpace b0 then 1%nat
      else match t0 with
           | b1 :: t1 =>
               if space2 b1 b0 then 2%nat
               else match t1 with
                    | b2 :: _ => if space3 b2 b1 b0 then 3%nat else 0%nat
                    | [] => 0%nat
                    end
           | [] => 0%nat
           end
  | [] => 0%nat
  end.

Fixpoint trimWith (width : list Z -> nat) (fuel : nat) (s : list Z) : list Z :=
  match fuel with
  | O => s
  | S fuel' =>
      match width s with
      | O => s
      | w => trimWith width fuel' (drop w s)
      end
  end.

Definition TrimLeftSpace (s : list Z) : list Z :=
  trimWith leadingSpace (length s) s.

Definition TrimRightSpace (s : list Z) : list Z :=
  rev (trimWith trailingSpace (length s) (rev s)).

(** [strings.TrimSpace]: all leading and trailing white space removed. *)
Definition TrimSpace (s : list Z) : list Z :=
  TrimRightSpace (TrimLeftSpace s).

End Strings.

Module Strconv.

Definition isDigit (b : Z) : bool := (48 <=? b) && (b <=? 57).

(** The digit loop of [strconv.Atoi]: [n = n*10 + int(ch - '0')], a
    syntax error at the first byte that is no decimal digit. *)
Fixpoint digitsVal (acc : Z) (s : list Z) : option Z :=
  match s with
  | [] => Some acc
  | ch :: t =>
      if isDigit ch then digitsVal (acc * 10 + (ch - 48)) t else None
  end.

(** [strconv.Atoi]: an optional sign, then at least one decimal digit;
    [None] stands for its syntax and range errors. *)
Definition Atoi (s : list Z) : option Z :=
  match s with
  | [] => None
  | c :: t =>
      let body := if (c =? 45) || (c =? 43) then t else s in
      match body with
      | [] => None
      | _ =>
          match digitsVal 0 body with
          | None => None
          | Some n =>
              let v := if c =? 45 then - n else n in
              if GoInt.inInt64 v then Some v else None
          end
      end
  end.

End Strconv.

(** ** Package gc: the satellite registry *)

Module GC.

(** The three [fmt.Errorf] results of [parseSatNum]. *)
Inductive ParseError : Type :=
| ErrLineLength                     (* "invalid TLE first line length" *)
| ErrSatnumLength (s : list Z)      (* "invalid satnum length: %s" *)
| ErrInvalidFormat (s : list Z).    (* "parse satNum: invalid format %q" *)

Definition isAlpha5Letter (letter : Z) : bool :=
  (65 <=? letter) && (letter <=? 90)
  && negb (letter =? 73) && negb (letter =? 79).

(** [parseSatNum]: the catalog number in columns 3-7 of TLE line 1. *)
Definition parseSatNum (l1 : string) : ParseError + Z :=
  let b := Strings.bytes l1 in
  if (Z.of_nat (length b) <? 7) then inl ErrLineLength
  else
    let s := Strings.TrimSpace (take 5 (drop 2 b)) in
    if negb (Z.of_nat (length s) =? 5) then inl (ErrSatnumLength s)
    else
      let legacy :=
        match Strconv.Atoi s with
        | Some n => if (1 <=? n) && (n <=? 99999) then Some (GoInt.int32 n) else None
        | None => None
        end in
      match legacy with
      | Some n => inr n
      | None =>
          let alpha5 :=
            match s with
            | letter :: digits =>
                if isAlpha5Letter letter then
                  match Strconv.Atoi digits with
                  | Some num =>
                      if (0 <=? num) && (num <=? 9999) then
                        let prefix := ((letter - 65 + 10) mod 256) * 10000 in
                        let satnum := prefix + num in
                        if (100000 <=? satnum) && (satnum <=? 359999)
                        then Some (GoInt.int32 satnum) else None
                      else None
                  | None => None
                  end
                else None
            | [] => None
            end in
          match alpha5 with
          | Some n => inr n
          | None => inl (ErrInvalidFormat s)
          end
      end.

(** *** The registry *)

(** [SatEntry]; [lastUsed] is an instant in nanoseconds, [refs] a Go [int]. *)
Record SatEntry : Type := mkSatEntry {
  key : Z;
  satNum : Z;
  lastUsed : Z;
  refs : Z
}.

(** [GC] without its mutex, stop channel and wait group; durations in
    nanoseconds. *)
Record GC : Type := mkGC {
  loaded : gmap Z SatEntry;
  maxLoaded : Z;
  idleTTL : Z;
  sweepInterval : Z
}.

Definition withLoaded (g : GC) (m : gmap Z SatEntry) : GC :=
  {| loaded := m; maxLoaded := maxLoaded g; idleTTL := idleTTL g;
     sweepInterval := sweepInterval g |}.

(** Package [values]. *)
Definition DefaultMaxLoadedSatsGc : Z := 500.
Definition DefaultIdleTTLGcMin : Z := 10 * 60 * 1000000000.
Definition DefaultSweepIntervalGcMin : Z := 5 * 60 * 1000000000.

Definition NewGC (maxLoaded idleTTL sweepInterval : Z) : GC :=
  {| loaded := ∅;
     maxLoaded := if maxLoaded <? 1 then DefaultMaxLoadedSatsGc else maxLoaded;
     idleTTL := if idleTTL <=? 0 then DefaultIdleTTLGcMin else idleTTL;
     sweepInterval :=
       if sweepInterval <=? 0 then DefaultSweepIntervalGcMin else sweepInterval |}.

(** The registry update both paths of [Acquire] end with: a fresh entry
    with [refs = 1], or [e.refs++] and a bumped [lastUsed]. *)
Definition retain (k sn now : Z) (g : GC) : GC :=
  match loaded g !! k with
  | None =>
      withLoaded g
        (<[k := {| key := k; satNum := sn; lastUsed := now; refs := 1 |}]>
           (loaded g))
  | Some e =>
      withLoaded g
        (<[k := {| key := key e; satNum := satNum e; lastUsed := now;
                   refs := GoInt.int64 (refs e + 1) |}]> (loaded g))
  end.

(** The critical section, under [g.mu], of the closure [makeReleaser]
    returns: the decrement is guarded by [e != nil && e.refs > 0]. The
    closure goes on to call [runlock]; the whole of it is [makeReleaser]
    below. *)
Definition release (k now : Z) (g : GC) : GC :=
  match loaded g !! k with
  | Some e =>
      if 0 <? refs e then
        withLoaded g
          (<[k := {| key := key e; satNum := satNum e; lastUsed := now;
                     refs := GoInt.int64 (refs e - 1) |}]> (loaded g))
      else g
  | None => g
  end.

(** [pair] of [evictLRUIfNeeded]: a map key and the entry's [lastUsed]. *)
Definition pair : Type := (Z * Z)%type.
Definition pkey (p : pair) : Z := fst p.
Definition pts (p : pair) : Z := snd p.

(** The candidates: the entries with [refs == 0], in the order the map
    is ranged over. *)
Definition candidates (g : GC) : list pair :=
  List.map (fun ke => (fst ke, lastUsed (snd ke)))
    (List.filter (fun ke => refs (snd ke) =? 0) (map_to_list (loaded g))).

(** [len(g.loaded) + need - g.maxLoaded] in Go [int] arithmetic. *)
Definition excessOf (need : Z) (g : GC) : Z :=
  GoInt.int64
    (GoInt.int64 (Z.of_nat (size (loaded g)) + need) - maxLoaded g).

(** [evictLRUIfNeeded]. Go ranges over a map in an unspecified order and
    [sort.Slice] is not stable, so the sorted candidate slice is
    [sortSlice] applied to the candidates, for a sorting function the
    caller of the model supplies. *)
Definition evictLRUIfNeeded (sortSlice : list pair -> list pair)
    (need : Z) (g : GC) : list Z :=
  let excess := excessOf need g in
  if excess <=? 0 then []
  else
    let cands := candidates g in
    if Z.of_nat (length cands) =? 0 then []
    else
      let sorted := sortSlice cands in
      let excess :=
        if Z.of_nat (length sorted) <? excess
        then Z.of_nat (length sorted) else excess in
      List.map pkey (take (Z.to_nat excess) sorted).

(** What [sort.Slice] with [less = ts.Before] guarantees of its result:
    a permutation of the slice in which no element is before an earlier
    one. *)
Definition byLastUsed (a b : pair) : Prop := pts a <= pts b.

Definition sorts (sortSlice : list pair -> list pair) : Prop :=
  forall l, Permutation (sortSlice l) l
            /\ StronglySorted byLastUsed (sortSlice l).

(** One such function: insertion sort. *)
Fixpoint insertPair (p : pair) (l : list pair) : list pair :=
  match l with
  | [] => [p]
  | q :: rest => if pts p <=? pts q then p :: l else q :: insertPair p rest
  end.

Fixpoint insertionSort (l : list pair) : list pair :=
  match l with
  | [] => []
  | p :: rest => insertPair p (insertionSort rest)
  end.

(** [time.Time.Sub]: the difference, saturated to the [Duration] range. *)
Definition timeSub (t u : Z) : Z :=
  Z.max GoInt.minInt64 (Z.min GoInt.maxInt64 (t - u)).

(** The victims one tick of [sweeper] gathers at time [now]. *)
Definition sweepVictims (now : Z) (g : GC) : list Z :=
  List.map fst
    (List.filter
       (fun ke => (refs (snd ke) =? 0)
                  && (idleTTL g <? timeSub now (lastUsed (snd ke))))
       (map_to_list (loaded g))).

(** What [removeVictims] does, in order, for the lock discipline to be
    read off. *)
Inductive Step : Type :=
| RwLock (k : Z)            (* core_helpers.RwFor(key).Lock() *)
| RwUnlock (k : Z)
| CatalogLock               (* catalogMu.Lock() *)
| CatalogUnlock
| Recheck (k : Z) (ok : bool)   (* e != nil && e.refs == 0, under g.mu *)
| Sgp4RemoveSat (k : Z)
| TleRemoveSat (k : Z)
| Delete (k : Z).           (* delete(g.loaded, key), under g.mu *)

Definition shouldRemove (k : Z) (g : GC) : bool :=
  match loaded g !! k with
  | Some e => refs e =? 0
  | None => false
  end.

(** One iteration of the loop of [removeVictims]. The results of the two
    native removals are discarded by the code. *)
Definition removeVictim (k : Z) (g : GC) : GC * list Step :=
  if shouldRemove k g then
    (withLoaded g (delete k (loaded g)),
     [RwLock k; CatalogLock; Recheck k true; Sgp4RemoveSat k;
      TleRemoveSat k; Delete k; CatalogUnlock; RwUnlock k])
  else
    (g, [RwLock k; CatalogLock; Recheck k false; CatalogUnlock; RwUnlock k]).

Fixpoint removeVictims (victims : list Z) (g : GC) : GC * list Step :=
  match victims with
  | [] => (g, [])
  | k :: rest =>
      let '(g1, t1) := removeVictim k g in
      let '(g2, t2) := removeVictims rest g1 in
      (g2, t1 ++ t2)
  end.

(** One tick of [sweeper]. *)
Definition sweep (now : Z) (g : GC) : GC * list Step :=
  removeVictims (sweepVictims now g) g.

(** The LRU path of [Acquire]: [evictLRUIfNeeded(1)], then
    [removeVictims]. *)
Definition evictLRU (sortSlice : list pair -> list pair) (need : Z)
    (g : GC) : GC * list Step :=
  removeVictims (evictLRUIfNeeded sortSlice need g) g.

(** *** The lock discipline of a removal

    A checker for the steps of [removeVictims]: which per-key write lock
    is held, whether [catalogMu] is held, and the key the last re-check
    under both locks found unused. *)
Record Held : Type := mkHeld {
  rwHeld : option Z;
  catalogHeld : bool;
  checked : option Z
}.

Definition idle : Held :=
  {| rwHeld := None; catalogHeld := false; checked := None |}.

Definition isKey (o : option Z) (k : Z) : bool :=
  match o with
  | Some k' => k' =? k
  | None => false
  end.

Definition isNone {A} (o : option A) : bool :=
  match o with Some _ => false | None => true end.

(** A step is allowed when the locks it needs are held; a native removal
    or a [Delete] needs a successful re-check of its key since both
    locks were taken. *)
Definition lockStep (h : Held) (s : Step) : option Held :=
  match s with
  | RwLock k =>
      if isNone (rwHeld h) && negb (catalogHeld h)
      then Some {| rwHeld := Some k; catalogHeld := false; checked := None |}
      else None
  | CatalogLock =>
      if negb (catalogHeld h)
      then Some {| rwHeld := rwHeld h; catalogHeld := true; checked := None |}
      else None
  | Recheck k ok =>
      if isKey (rwHeld h) k && catalogHeld h
      then Some {| rwHeld := rwHeld h; catalogHeld := true;
                   checked := if ok then Some k else None |}
      else None
  | Sgp4RemoveSat k | TleRemoveSat k | Delete k =>
      if isKey (checked h) k && isKey (rwHeld h) k && catalogHeld h
      then Some h else None
  | CatalogUnlock =>
      if catalogHeld h
      then Some {| rwHeld := rwHeld h; catalogHeld := false; checked := None |}
      else None
  | RwUnlock k =>
      if isKey (rwHeld h) k && negb (catalogHeld h)
      then Some idle else None
  end.

Fixpoint lockRun (h : Held) (steps : list Step) : option Held :=
  match steps with
  | [] => Some h
  | s :: rest =>
      match lockStep h s with
      | Some h' => lockRun h' rest
      | None => None
      end
  end.

(** The steps respect the discipline and leave no lock held. *)
Definition disciplined (steps : list Step) : bool :=
  match lockRun idle steps with
  | Some h => isNone (rwHeld h) && negb (catalogHeld h)
  | None => false
  end.

(** What the native catalog answers during one [Acquire]: whether the
    gated lookup fails (a cancelled context), the key [TleGetSatKey]
    returns, and the result of [addOrInitSat] on the miss path. *)
Record Native : Type := mkNative {
  lookupFails : bool;
  existing : Z;
  addOrInitSat : option Z
}.

Inductive AcquireError : Type :=
| ErrParse (e : ParseError)
| ErrNative.

(** [Acquire] on the registry; the returned key stands for the pair of
    the key and its release closure. *)
Definition Acquire (sortSlice : list pair -> list pair)
    (l1 : string) (now : Z) (n : Native) (g : GC) : GC * (AcquireError + Z) :=
  match parseSatNum l1 with
  | inl e => (g, inl (ErrParse e))
  | inr sn =>
      if lookupFails n then (g, inl ErrNative)
      else if existing n =? -1 then
        let g1 := fst (evictLRU sortSlice 1 g) in
        match addOrInitSat n with
        | None => (g1, inl ErrNative)
        | Some k => (retain k sn now g1, inr k)
        end
      else (retain (existing n) sn now g, inr (existing n))
  end.

(** *** The per-key read locks and the release closure *)

(** The mutexes [core_helpers.RwFor(key)], as the number of read locks
    held on each. The write lock of [removeVictims] and [addOrInitSat] is
    taken and given back within one call and is taken to be granted. *)
Definition Locks : Type := gmap Z Z.

Definition readers (k : Z) (l : Locks) : Z := default 0 ((l : gmap Z Z) !! k).

Definition RLock (k : Z) (l : Locks) : Locks :=
  <[k := readers k l + 1]> (l : gmap Z Z).

(** [RUnlock]: [None] is the fatal error [sync: RUnlock of unlocked
    RWMutex] of a mutex no reader holds. *)
Definition RUnlock (k : Z) (l : Locks) : option Locks :=
  if readers k l <=? 0 then None
  else Some (<[k := readers k l - 1]> (l : gmap Z Z)).

(** How a call of the closure ends: it returns, or the process dies in
    [runlock], with the registry as the critical section left it. *)
Inductive ReleaseEnd : Type :=
| Released (g : GC) (l : Locks)
| FatalRUnlock (g : GC).

(** [makeReleaser(key, runlock)]: the closure, called at time [now].
    [runlock] is [None] for [nil], which only the tests pass. *)
Definition makeReleaser (key : Z) (runlock : option (Locks -> option Locks))
    (now : Z) (g : GC) (l : Locks) : ReleaseEnd :=
  let g' := release key now g in
  match runlock with
  | None => Released g' l
  | Some unlock =>
      match unlock l with
      | Some l' => Released g' l'
      | None => FatalRUnlock g'
      end
  end.

(** The closure both paths of [Acquire] return for the key:
    [g.makeReleaser(key, mu.RUnlock)] with [mu = RwFor(key)]. *)
Definition releaser (key : Z) : Z -> GC -> Locks -> ReleaseEnd :=
  makeReleaser key (Some (RUnlock key)).

(** [Acquire] together with the read lock [mu.RLock()] it takes on the
    key before it returns it. *)
Definition AcquireLocked (sortSlice : list pair -> list pair)
    (l1 : string) (now : Z) (n : Native) (g : GC) (l : Locks)
    : GC * Locks * (AcquireError + Z) :=
  let '(g', r) := Acquire sortSlice l1 now n g in
  (g', match r with inr k => RLock k l | inl _ => l end, r).

(** The events that touch the registry: an [Acquire], a call of a closure
    [Acquire] returned for the key, a tick of the sweeper. *)
Inductive Event : Type :=
| EvAcquire (l1 : string) (now : Z) (n : Native)
| EvRelease (k : Z) (now : Z)
| EvSweep (now : Z).

Definition step (sortSlice : list pair -> list pair) (ev : Event)
    (g : GC) (l : Locks) : ReleaseEnd :=
  match ev with
  | EvAcquire l1 now n =>
      let '(g', l', _) := AcquireLocked sortSlice l1 now n g l in
      Released g' l'
  | EvRelease k now => releaser k now g l
  | EvSweep now => Released (fst (sweep now g)) l
  end.

(** A run stops at the event that kills the process. *)
Fixpoint run (sortSlice : list pair -> list pair) (evs : list Event)
    (g : GC) (l : Locks) : ReleaseEnd :=
  match evs with
  | [] => Released g l
  | ev :: rest =>
      match step sortSlice ev g l with
      | Released g' l' => run sortSlice rest g' l'
      | FatalRUnlock g' => FatalRUnlock g'
      end
  end.

(** The registry a run ends with. *)
Definition registryOf (r : ReleaseEnd) : GC :=
  match r with
  | Released g _ => g
  | FatalRUnlock g => g
  end.

End GC.

(** ** Package core_helpers: the DLL gate *)

Module CoreHelpers.

(** The two errors [ctx.Err()] returns once [ctx.Done()] is closed. *)
Inductive CtxErr : Type := Canceled | DeadlineExceeded.

(** [gate]: the buffered channel [ch], as its capacity and the number of
    permits sitting in its buffer. *)
Record gate : Type := mkGate { capacity : Z; held : Z }.

Definition SetDllGate (n : Z) : gate :=
  {| capacity := if n <? 1 then 1 else n; held := 0 |}.

(** [ensureGate] on the contents of [curGate]. *)
Definition ensureGate (cur : option gate) : gate :=
  match cur with
  | Some g => g
  | None => SetDllGate 1
  end.

(** What [call()] does: it returns a code or panics. *)
Inductive CallResult : Type :=
| Returns (rc : Z)
| Panics.

Inductive Error : Type :=
| CtxError (e : CtxErr)               (* ctx.Err() *)
| RcError (rc : Z) (msg : string).    (* fmt.Errorf("rc=%d: %s", rc, msg) *)

(** How a call of [WithDllCall] ends: it blocks in the [select], returns
    [err], or unwinds with the panic of [call]. *)
Inductive Outcome : Type :=
| Blocked
| Returned (err : option Error)
| Panicked.

Inductive Op : Type :=
| PermitSend        (* g.ch <- struct{}{} *)
| Call              (* call() *)
| PermitRecv        (* <-g.ch *)
| ErrMuLock
| GetLastErrMsg
| ErrMuUnlock.

Section WithNative.

(** The state of the native library and its last-error slot. *)
Variable N : Type.
Variable lastErrMsg : N -> string.

Record World : Type := mkWorld { curGate : option gate; native : N }.

(** [WithDllCall]. [ctx] is [Some e] when [ctx.Done()] is closed;
    [pick] is the case the [select] takes when both are ready. *)
Definition WithDllCall (ctx : option CtxErr) (pick : bool)
    (call : N -> CallResult * N) (w : World) : Outcome * World * list Op :=
  let g := ensureGate (curGate w) in
  let w0 := {| curGate := Some g; native := native w |} in
  let canSend := held g <? capacity g in
  let proceed :=
    let g1 := {| capacity := capacity g; held := held g + 1 |} in
    let '(res, n1) := call (native w) in
    match res with
    | Panics =>
        (Panicked, {| curGate := Some g1; native := n1 |}, [PermitSend; Call])
    | Returns rc =>
        let g2 := {| capacity := capacity g1; held := held g1 - 1 |} in
        let w2 := {| curGate := Some g2; native := n1 |} in
        if negb (rc =? 0) then
          (Returned (Some (RcError rc (lastErrMsg n1))), w2,
           [PermitSend; Call; PermitRecv; ErrMuLock; GetLastErrMsg; ErrMuUnlock])
        else (Returned None, w2, [PermitSend; Call; PermitRecv])
    end in
  match ctx with
  | None => if canSend then proceed else (Blocked, w0, [])
  | Some e =>
      if canSend && pick then proceed
      else (Returned (Some (CtxError e)), w0, [])
  end.

End WithNative.

(** The permits in use. *)
Definition permits {N} (w : World N) : Z := held (ensureGate (curGate N w)).

Arguments mkWorld {N}.
Arguments curGate {N}.
Arguments native {N}.
Arguments WithDllCall {N}.

End CoreHelpers.

(** ** Package dllcore: the Go side of the native adapter *)

Module Dllcore.

Definition EciEphemType : Z := 1.
Definition J2KEphemType : Z := 2.

(** What the C side answers to one call of [Sgp4GenEphems]: [malloc]
    returns [NULL], or the shim returns [rc] with [got] points written;
    [buf i] is the double at [buf + i] after the call. [got] is read
    from a C [int], hence taken to 32 bits. *)
Inductive Answer : Type :=
| MallocFails
| Shim (rc : Z) (got : Z) (buf : nat -> float).

(** The arguments one call of [Sgp4GenEphems_shim] receives. *)
Record ShimCall : Type := mkShimCall {
  satKey : Z;
  startTime : float;
  endTime : float;
  stepSize : float;
  sgp4Ephem : Z;
  arrSize : Z
}.

(** The five results of [Sgp4GenEphems]. *)
Record Chunk : Type := mkChunk {
  ephemFlatArr : list float;
  n : Z;
  nextStart : float;
  done : bool;
  errCode : Z
}.

(** [const eps = 1e-9 / 86400.0], an exact constant expression rounded
    once to binary64. *)
Definition eps : float := 0x1.a0fffdbd23e52p-47%float.

(** [timeStep == -1] selects the engine's own step, the C macro
    [DYN_SS_BASIC] of the native headers. *)
Definition shimStep (DYN_SS_BASIC timeStep : float) : float :=
  if PrimFloat.eqb timeStep (-1)%float then DYN_SS_BASIC else timeStep.

(** [Sgp4GenEphems]: the result, [None] when [unsafe.Slice] panics on a
    negative length, and the shim call it made, if any. *)
Definition Sgp4GenEphems (DYN_SS_BASIC : float)
    (key : Z) (start end_ timeStep : float) (sgp4EphemType : Z)
    (chunkSize : Z) (a : Answer) : option Chunk * option ShimCall :=
  match a with
  | MallocFails =>
      (Some {| ephemFlatArr := []; n := 0; nextStart := 0%float;
               done := false; errCode := -10 |}, None)
  | Shim rc got buf =>
      let call :=
        {| satKey := key; startTime := start; endTime := end_;
           stepSize := shimStep DYN_SS_BASIC timeStep;
           sgp4Ephem := sgp4EphemType; arrSize := chunkSize |} in
      let n := GoInt.int32 got in
      if negb (rc =? 0) && (n =? 0) then
        (Some {| ephemFlatArr := []; n := 0; nextStart := 0%float;
                 done := false; errCode := rc |}, Some call)
      else if n <? 0 then (None, Some call)
      else
        let flat := List.map buf (seq 0 (Z.to_nat (n * 7))) in
        if n =? 0 then
          (Some {| ephemFlatArr := flat; n := 0; nextStart := start;
                   done := true; errCode := 0 |}, Some call)
        else
          let lastT := buf (Z.to_nat ((n - 1) * 7 + 0)) in
          let next := (lastT + eps)%float in
          (Some {| ephemFlatArr := flat; n := n; nextStart := next;
                   done := (n <? chunkSize) || PrimFloat.leb end_ next;
                   errCode := 0 |}, Some call)
  end.

End Dllcore.

(** ** Package core: validation and the Ephem pipeline *)

Module Core.

Import CoreHelpers.

(** *** Messages *)

(** [timestamppb.Timestamp]: seconds and nanoseconds since the Unix
    epoch. *)
Record Timestamp : Type := mkTimestamp { seconds : Z; nanos : Z }.

(** Modelled from the spec: the [oneof] [TimeStepType] of the generated
    [apiv1.EphemTimeGrid] is not in the sources; its three variants as
    spec 3 (TimeGrid) lists them, and the unset [oneof]. *)
Inductive TimeStepType : Type :=
| StepUnset
| DynamicTimeStep (b : bool)
| KnownTimeStepPeriod (p : string)
| KnownTimeStepDs50 (d : float).

(** Modelled from the spec: the generated [apiv1.EphemTimeGrid] is not in
    the sources; a span in UTC or DS50 and a step policy. *)
Record EphemTimeGrid : Type := mkGrid {
  TimeStartUtc : option Timestamp;
  TimeStartDs50 : float;
  TimeEndUtc : option Timestamp;
  TimeEndDs50 : float;
  StepType : TimeStepType
}.

(** Modelled from the spec: the generated [apiv1.Satellite] is not in the
    sources; the two TLE lines and metadata. *)
Record Satellite : Type := mkSatellite {
  NoradId : Z;
  Name : string;
  TleLn1 : string;
  TleLn2 : string
}.

(** Modelled from the spec: the generated [apiv1.EphemTask] is not in the
    sources; task id, optional per-task grid, satellite. *)
Record EphemTask : Type := mkTask {
  TaskId : Z;
  TimeGrid : option EphemTimeGrid;
  Sat : option Satellite
}.

(** Modelled from the spec: the generated [apiv1.EphemRequest] is not in
    the sources; request id, frame, optional common grid, tasks. *)
Record EphemRequest : Type := mkRequest {
  ReqId : Z;
  EphemType : Z;
  CommonTimeGrid : option EphemTimeGrid;
  Tasks : list EphemTask
}.

(** Modelled from the spec: the generated [apiv1.EphemerisData] is not in
    the sources; the seven-tuple of an ephemeris point, and the MSE time
    only [Prop] fills in. *)
Record EphemerisData : Type := mkEphemerisData {
  Ds50Time : float;
  MseTime : float;
  X : float;
  Y : float;
  Z_ : float;
  Vx : float;
  Vy : float;
  Vz : float
}.

(** Modelled from the spec: the generated [apiv1.EphemOut] is not in the
    sources; task id, points and their declared count. *)
Record EphemOut : Type := mkEphemOut {
  OutTaskId : Z;
  EphemData : list EphemerisData;
  EphemPointsCount : Z
}.

(** Modelled from the spec: the generated [apiv1.EphemResponse] is not in
    the sources; one streamed chunk. *)
Record EphemResponse : Type := mkResponse {
  RespReqId : Z;
  StreamId : Z;
  StreamChunkId : Z;
  Result : EphemOut
}.

(** The getters of the generated code: the zero value when the [oneof]
    holds another variant. *)
Definition GetKnownTimeStepPeriod (grid : EphemTimeGrid) : string :=
  match StepType grid with
  | KnownTimeStepPeriod p => p
  | _ => EmptyString
  end.

Definition GetKnownTimeStepDs50 (grid : EphemTimeGrid) : float :=
  match StepType grid with
  | KnownTimeStepDs50 d => d
  | _ => 0%float
  end.

(** *** Time *)

(** [float64(x)] of a Go integer: rounded to nearest even. *)
Definition floatOfZ (z : Z) : float :=
  SF2Prim (binary_normalize prec emax z 0 false).

(** 1950-01-01 12:00:00 UTC in Unix seconds. *)
Definition ds50Epoch : Z := -631108800.

(** A [time.Time] without monotonic reading: the seconds since January
    1 of year 1, an [int64], and the nanoseconds within the second. *)
Record Time : Type := mkTime { ext : Z; nsec : Z }.

(** Seconds from January 1 of year 1 to the Unix epoch. *)
Definition unixToInternal : Z := 62135596800.

(** [time.Unix]: a nanosecond count outside [0, 1e9) is carried into the
    seconds, and the seconds are moved to the internal epoch in [int64]
    arithmetic, which wraps. *)
Definition Unix (sec nsec : Z) : Time :=
  let '(sec, nsec) :=
    if (nsec <? 0) || (1000000000 <=? nsec) then
      let n := Z.quot nsec 1000000000 in
      let sec := GoInt.int64 (sec + n) in
      let nsec := GoInt.int64 (nsec - n * 1000000000) in
      if nsec <? 0 then (GoInt.int64 (sec - 1), nsec + 1000000000)
      else (sec, nsec)
    else (sec, nsec) in
  {| ext := GoInt.int64 (sec + unixToInternal); nsec := GoInt.int32 nsec |}.

(** [Timestamp.AsTime]: [time.Unix(int64(seconds), int64(nanos)).UTC()],
    the seconds an [int64] and the nanoseconds an [int32]. *)
Definition AsTime (t : Timestamp) : Time :=
  Unix (GoInt.int64 (seconds t)) (GoInt.int32 (nanos t)).

(** [Time.addSec]: the sum saturates. *)
Definition addSec (e d : Z) : Z :=
  let sum := GoInt.int64 (e + d) in
  if Bool.eqb (e <? sum) (0 <? d) then sum
  else if 0 <? d then GoInt.maxInt64
  else - GoInt.maxInt64.

(** [Time.Add] of a duration in nanoseconds. *)
Definition Add (t : Time) (d : Z) : Time :=
  let dsec := Z.quot d 1000000000 in
  let ns := GoInt.int32 (nsec t + GoInt.int32 (Z.rem d 1000000000)) in
  let '(dsec, ns) :=
    if 1000000000 <=? ns then (GoInt.int64 (dsec + 1), GoInt.int32 (ns - 1000000000))
    else if ns <? 0 then (GoInt.int64 (dsec - 1), GoInt.int32 (ns + 1000000000))
    else (dsec, ns) in
  {| ext := addSec (ext t) dsec; nsec := ns |}.

Definition Equal (t u : Time) : bool :=
  (ext t =? ext u) && (nsec t =? nsec u).

Definition Before (t u : Time) : bool :=
  (ext t <? ext u) || ((ext t =? ext u) && (nsec t <? nsec u)).

(** [Time.Sub]: the difference in [int64] nanoseconds when adding it back
    gives the time again, else the least or the greatest [Duration]. *)
Definition Sub (t u : Time) : Z :=
  let d :=
    GoInt.int64
      (GoInt.int64 (GoInt.int64 (ext t - ext u) * 1000000000)
       + GoInt.int32 (nsec t - nsec u)) in
  if Equal (Add u d) t then d
  else if Before t u then GoInt.minInt64
  else GoInt.maxInt64.

(** [time.Date(1950, 1, 1, 12, 0, 0, 0, time.UTC)]. *)
Definition ds50Ref : Time :=
  {| ext := ds50Epoch + unixToInternal; nsec := 0 |}.

(** [UtcToDS50] of [AsTime()]: [t.Sub(ref).Seconds() / 86400.0];
    [Seconds] adds the whole and the fractional part as floats. *)
Definition UtcToDS50 (t : Timestamp) : float :=
  let d := Sub (AsTime t) ds50Ref in
  let sec := Z.quot d 1000000000 in
  let ns := Z.rem d 1000000000 in
  ((floatOfZ sec + floatOfZ ns / 1e9) / 86400)%float.

(** *** Flat arrays *)

Inductive FlatError : Type :=
| ErrTooShort        (* "... must have at least 7 elements" *)
| ErrNotMultiple.    (* "... length must be a multiple of 7" *)

Definition at_ (flat : list float) (i : nat) : float := nth i flat 0%float.

(** [flatEphemsToEphemDataArr]; every index the loop reads is in range. *)
Definition flatEphemsToEphemDataArr (flatEphems : list float)
    : FlatError + list EphemerisData :=
  let len := Z.of_nat (length flatEphems) in
  if len <? 7 then inl ErrTooShort
  else if negb (Z.rem len 7 =? 0) then inl ErrNotMultiple
  else
    let count := Z.to_nat (Z.quot len 7) in
    inr (List.map
           (fun i : nat =>
              let base := (i * 7)%nat in
              {| Ds50Time := at_ flatEphems base;
                 MseTime := 0%float;
                 X := at_ flatEphems (base + 1);
                 Y := at_ flatEphems (base + 2);
                 Z_ := at_ flatEphems (base + 3);
                 Vx := at_ flatEphems (base + 4);
                 Vy := at_ flatEphems (base + 5);
                 Vz := at_ flatEphems (base + 6) |})
           (seq 0 count)).

(** The seven values of a point, in the order of the flat array. *)
Definition fields (p : EphemerisData) : list float :=
  [Ds50Time p; X p; Y p; Z_ p; Vx p; Vy p; Vz p].

(** *** Validation *)

Inductive SatError : Type :=
| ErrNoSatellite | ErrNoLine1 | ErrNoLine2.

Inductive GridError : Type :=
| ErrStartConflict | ErrEndConflict | ErrStepConflict.

Inductive ValidationError : Type :=
| ErrNoTasks
| ErrEphemType (t : Z)
| ErrCommonGrid (e : GridError)
| ErrTaskSat (i : nat) (e : SatError)
| ErrTaskNoGrid (i : nat)
| ErrTaskGrid (i : nat) (e : GridError).

Definition validateSatellite (sat : option Satellite) : option SatError :=
  match sat with
  | None => Some ErrNoSatellite
  | Some s =>
      if String.eqb (TleLn1 s) "" then Some ErrNoLine1
      else if String.eqb (TleLn2 s) "" then Some ErrNoLine2
      else None
  end.

Definition isSome {A} (o : option A) : bool :=
  match o with Some _ => true | None => false end.

Definition fne (a b : float) : bool := negb (PrimFloat.eqb a b).

(** The closure [validateGrid] of [validateAnalytEphemRequest]. *)
Definition validateGrid (grid : EphemTimeGrid) : option GridError :=
  if isSome (TimeStartUtc grid) && fne (TimeStartDs50 grid) 0 then
    Some ErrStartConflict
  else if isSome (TimeEndUtc grid) && fne (TimeEndDs50 grid) 0 then
    Some ErrEndConflict
  else if negb (String.eqb (GetKnownTimeStepPeriod grid) "")
          && fne (GetKnownTimeStepDs50 grid) 0 then
    Some ErrStepConflict
  else None.

(** The loop over the tasks of [validateAnalytEphemRequest]. *)
Fixpoint validateTasks (common : option EphemTimeGrid) (i : nat)
    (tasks : list EphemTask) : option ValidationError :=
  match tasks with
  | [] => None
  | task :: rest =>
      match validateSatellite (Sat task) with
      | Some e => Some (ErrTaskSat i e)
      | None =>
          if negb (isSome common) && negb (isSome (TimeGrid task)) then
            Some (ErrTaskNoGrid i)
          else
            match
              match TimeGrid task with
              | Some g => validateGrid g
              | None => None
              end
            with
            | Some e => Some (ErrTaskGrid i e)
            | None => validateTasks common (S i) rest
            end
      end
  end.

Definition validateAnalytEphemRequest (req : EphemRequest)
    : option ValidationError :=
  if Z.of_nat (length (Tasks req)) =? 0 then Some ErrNoTasks
  else if negb (EphemType req =? Dllcore.EciEphemType)
          && negb (EphemType req =? Dllcore.J2KEphemType) then
    Some (ErrEphemType (EphemType req))
  else
    match
      match CommonTimeGrid req with
      | Some g => validateGrid g
      | None => None
      end
    with
    | Some e => Some (ErrCommonGrid e)
    | None => validateTasks (CommonTimeGrid req) 0 (Tasks req)
    end.

(** *** Time grid and step *)

Definition resolveTimeGrid (task : EphemTask) (req : EphemRequest)
    : option EphemTimeGrid :=
  match TimeGrid task with
  | Some g => Some g
  | None => CommonTimeGrid req
  end.

Definition isDynamicTimeStep (grid : EphemTimeGrid) : bool :=
  match StepType grid with
  | DynamicTimeStep b => b
  | _ => false
  end.

(** *** The chunk loop *)

(** How the [select] that queues a chunk ends: the chunk is queued, the
    context is done first, or neither ever happens. *)
Inductive SendChoice : Type :=
| Queued
| CtxDone (e : CtxErr)
| SendBlocks.

(** What the environment answers during one iteration of the chunk
    loop: the C side, [getDllLastError()] and the [select]. *)
Record Iter : Type := mkIter {
  answer : Dllcore.Answer;
  lastError : string;
  send : SendChoice
}.

(** The errors [runAnalytGenEphems] returns. *)
Inductive TaskError : Type :=
| ErrAlloc                     (* "... failed to allocate result buffer" *)
| ErrNative (msg : string)     (* "failed to generate ephemeris data: %s" *)
| ErrFlat (e : FlatError)
| ErrCtx (e : CtxErr).

(** How a task ends: it returns, panics, or is still in its loop when
    the answers run out. *)
Inductive TaskEnd : Type :=
| Finished (err : option TaskError)
| TaskPanic
| TaskPending.

Definition buildEphemResponse (req : EphemRequest) (task : EphemTask)
    (taskIdx : Z) (flat : list float) (count : Z) (chunkID : Z)
    : FlatError + EphemResponse :=
  match flatEphemsToEphemDataArr flat with
  | inl e => inl e
  | inr ephemDataArr =>
      inr {| RespReqId := ReqId req;
             StreamId := GoInt.int64 taskIdx;
             StreamChunkId := GoInt.int64 chunkID;
             Result := {| OutTaskId := TaskId task;
                          EphemData := ephemDataArr;
                          EphemPointsCount := GoInt.int64 count |} |}
  end.

Definition optList {A} (o : option A) : list A :=
  match o with Some a => [a] | None => [] end.

Section Pipeline.

(** Package [github.com/sosodev/duration]: [duration.Parse], [None]
    for its error, and [ToTimeDuration().Minutes()]. *)
Variable Duration : Type.
Variable durationParse : string -> option Duration.
Variable minutes : Duration -> float.

(** The C macro [DYN_SS_BASIC]. *)
Variable DYN_SS_BASIC : float.

(** [getKnownTimeStep]; [None] is its [panic(err)]. *)
Definition getKnownTimeStep (grid : EphemTimeGrid) : option float :=
  match StepType grid with
  | KnownTimeStepPeriod p =>
      match durationParse p with
      | None => None
      | Some dur => Some (minutes dur)
      end
  | KnownTimeStepDs50 d => Some (d * 1440)%float
  | _ => Some 0%float
  end.

(** The [for] loop of [runAnalytGenEphems]: how it ends, the chunks it
    queued on [resultsCh] and the shim calls it made, in order. *)
Fixpoint chunkLoop (req : EphemRequest) (task : EphemTask) (taskIdx : Z)
    (satKey : Z) (timeEnd timeStep : float) (chunkSize : Z)
    (chunkID : Z) (timeStart : float) (iters : list Iter)
    : TaskEnd * list EphemResponse * list Dllcore.ShimCall :=
  match iters with
  | [] => (TaskPending, [], [])
  | it :: rest =>
      let '(res, call) :=
        Dllcore.Sgp4GenEphems DYN_SS_BASIC satKey timeStart timeEnd timeStep
          (EphemType req) (GoInt.int32 chunkSize) (answer it) in
      let calls := optList call in
      match res with
      | None => (TaskPanic, [], calls)
      | Some c =>
          if Dllcore.errCode c =? -10 then
            (Finished (Some ErrAlloc), [], calls)
          else if negb (Dllcore.errCode c =? 0) && (Dllcore.n c =? 0)
                  && negb (String.eqb (lastError it) "") then
            (Finished (Some (ErrNative (lastError it))), [], calls)
          else
            let continue (chunkID' : Z) (sent : list EphemResponse) :=
              if Dllcore.done c then (Finished None, sent, calls)
              else
                let '(e, q, cs) :=
                  chunkLoop req task taskIdx satKey timeEnd timeStep
                    chunkSize chunkID' (Dllcore.nextStart c) rest in
                (e, sent ++ q, calls ++ cs) in
            if 0 <? Dllcore.n c then
              match buildEphemResponse req task taskIdx
                      (Dllcore.ephemFlatArr c) (Dllcore.n c) chunkID with
              | inl e => (Finished (Some (ErrFlat e)), [], calls)
              | inr ephemResp =>
                  match send it with
                  | Queued =>
                      continue (GoInt.int64 (chunkID + 1)) [ephemResp]
                  | CtxDone e => (Finished (Some (ErrCtx e)), [], calls)
                  | SendBlocks => (TaskPending, [], calls)
                  end
              end
            else continue chunkID []
      end
  end.

(** [runAnalytGenEphems]. A request without a grid for the task makes
    it dereference [nil]. *)
Definition runAnalytGenEphems (req : EphemRequest) (task : EphemTask)
    (taskIdx : Z) (satKey : Z) (chunkSize : Z) (iters : list Iter)
    : TaskEnd * list EphemResponse * list Dllcore.ShimCall :=
  match resolveTimeGrid task req with
  | None => (TaskPanic, [], [])
  | Some timeGrid =>
      let startDs50 :=
        match TimeStartUtc timeGrid with
        | Some t => UtcToDS50 t
        | None => TimeStartDs50 timeGrid
        end in
      let endDs50 :=
        match TimeEndUtc timeGrid with
        | Some t => UtcToDS50 t
        | None => TimeEndDs50 timeGrid
        end in
      match
        (if isDynamicTimeStep timeGrid then Some (-1)%float
         else getKnownTimeStep timeGrid)
      with
      | None => (TaskPanic, [], [])
      | Some timeStep =>
          chunkLoop req task taskIdx satKey endDs50 timeStep chunkSize
            0 startDs50 iters
      end
  end.

(** *** The handler *)

(** What the environment answers for one task: whether the context is
    done when the task starts, the key [gc.Acquire] returns ([None]
    for its error), and the answers to the chunk loop. *)
Record TaskEnv : Type := mkTaskEnv {
  ctxDone : option CtxErr;
  acquired : option Z;
  iters : list Iter
}.

Inductive TasksEnd : Type :=
| AllDone
| StopCtx (e : CtxErr)
| StopAcquire
| StopTask (err : TaskError)
| StopPanic
| StopPending.

(** The loop over the tasks of [Ephem]. *)
Fixpoint ephemTasks (req : EphemRequest) (chunkSize : Z) (taskIdx : nat)
    (tasks : list EphemTask) (envs : list TaskEnv)
    : TasksEnd * list EphemResponse * list Dllcore.ShimCall :=
  match tasks with
  | [] => (AllDone, [], [])
  | task :: rest =>
      match envs with
      | [] => (StopPending, [], [])
      | env :: envs' =>
          match ctxDone env with
          | Some e => (StopCtx e, [], [])
          | None =>
              match acquired env with
              | None => (StopAcquire, [], [])
              | Some satKey =>
                  let '(te, q, cs) :=
                    runAnalytGenEphems req task (Z.of_nat taskIdx) satKey
                      chunkSize (iters env) in
                  match te with
                  | Finished None =>
                      let '(e2, q2, cs2) :=
                        ephemTasks req chunkSize (S taskIdx) rest envs' in
                      (e2, q ++ q2, cs ++ cs2)
                  | Finished (Some err) => (StopTask err, q, cs)
                  | TaskPanic => (StopPanic, q, cs)
                  | TaskPending => (StopPending, q, cs)
                  end
              end
          end
      end
  end.

(** The goroutine of [startResultSender]: it forwards the queued chunks
    in order and stops at the first [srv.Send] that fails, latching
    the error. [sendFails i] tells whether the [i]-th [Send] fails. *)
Fixpoint sender (sendFails : nat -> bool) (i : nat)
    (queued : list EphemResponse) : list EphemResponse * bool :=
  match queued with
  | [] => ([], false)
  | res :: rest =>
      if sendFails i then ([], true)
      else
        let '(d, failed) := sender sendFails (S i) rest in
        (res :: d, failed)
  end.

(** How [Ephem] ends. *)
Inductive EphemEnd : Type :=
| EphOk
| EphInvalidArgument (e : ValidationError)   (* codes.InvalidArgument *)
| EphInternal                                (* codes.Internal *)
| EphCtx (e : CtxErr)
| EphSend                                    (* the latched send error *)
| EphTask (err : TaskError)
| EphPanic
| EphPending.

(** The runtime's limit on the bytes of a channel buffer,
    [maxAlloc - hchanSize], which depends on the platform and on the
    version of Go. *)
Variable maxChanBytes : Z.

(** [make(chan *apiv1.EphemResponse, bufSize)] of [startResultSender]
    panics ([makechan: size out of range]) when the size is negative,
    when the bytes of the buffer, 8 for each pointer, overflow [uintptr],
    and when they exceed the limit. *)
Definition makechanPanics (bufSize : Z) : bool :=
  (bufSize <? 0) || (2 ^ 64 <=? 8 * bufSize) || (maxChanBytes <? 8 * bufSize).

(** [Ephem]: how it ends, the chunks delivered to the stream and the
    shim calls made. [chunkSize] is [cfg.StreamChunkSize], the buffer size
    of the results channel and the chunk size of the tasks. *)
Definition Ephem (req : EphemRequest) (chunkSize : Z)
    (envs : list TaskEnv) (sendFails : nat -> bool)
    : EphemEnd * list EphemResponse * list Dllcore.ShimCall :=
  match validateAnalytEphemRequest req with
  | Some e => (EphInvalidArgument e, [], [])
  | None =>
      if makechanPanics chunkSize then (EphPanic, [], [])
      else
        let '(te, queued, calls) :=
          ephemTasks req chunkSize 0 (Tasks req) envs in
        let '(delivered, failed) := sender sendFails 0 queued in
        let e :=
          match te with
          | AllDone => if failed then EphSend else EphOk
          | StopCtx e => EphCtx e
          | StopAcquire => EphInternal
          | StopTask err => if failed then EphSend else EphTask err
          | StopPanic => EphPanic
          | StopPending => EphPending
          end in
        (e, delivered, calls)
  end.

End Pipeline.

Arguments getKnownTimeStep {Duration}.
Arguments runAnalytGenEphems {Duration}.
Arguments ephemTasks {Duration}.
Arguments Ephem {Duration}.

(** *** Requests without a step *)

Definition withStep (st : TimeStepType) (grid : EphemTimeGrid) : EphemTimeGrid :=
  {| TimeStartUtc := TimeStartUtc grid;
     TimeStartDs50 := TimeStartDs50 grid;
     TimeEndUtc := TimeEndUtc grid;
     TimeEndDs50 := TimeEndDs50 grid;
     StepType := st |}.

(** The request with the step variant of every grid set to [st]. *)
Definition setSteps (st : TimeStepType) (req : EphemRequest) : EphemRequest :=
  {| ReqId := ReqId req;
     EphemType := EphemType req;
     CommonTimeGrid := option_map (withStep st) (CommonTimeGrid req);
     Tasks :=
       List.map
         (fun task =>
            {| TaskId := TaskId task;
               TimeGrid := option_map (withStep st) (TimeGrid task);
               Sat := Sat task |})
         (Tasks req) |}.

End Core.

(** ** Notions the properties are stated with *)

Module Notions.

Import GC Core.

(** The characters of a digit sequence and the number it denotes. *)
Definition digitChars (ds : list Z) : list Z := List.map (Z.add 48) ds.
Definition decimal (ds : list Z) : Z :=
  fold_left (fun a d => a * 10 + d) ds 0.
Definition isDigitVal (d : Z) : Prop := 0 <= d <= 9.

(** A printable, non-blank ASCII byte. *)
Definition plain (b : Z) : Prop := 33 <= b <= 126.

(** Every entry's [refs] lies between 0 and [b]. *)
Definition bounded (b : Z) (g : GC) : Prop :=
  forall k e, loaded g !! k = Some e -> 0 <= refs e <= b.

(** The point the loop of [flatEphemsToEphemDataArr] builds at index [i]. *)
Definition pointAt (flat : list float) (i : nat) : EphemerisData :=
  {| Ds50Time := at_ flat (i * 7);
     MseTime := 0%float;
     X := at_ flat (i * 7 + 1);
     Y := at_ flat (i * 7 + 2);
     Z_ := at_ flat (i * 7 + 3);
     Vx := at_ flat (i * 7 + 4);
     Vy := at_ flat (i * 7 + 5);
     Vz := at_ flat (i * 7 + 6) |}.

(** The chunk a response declares is the number of points it carries. *)
Definition countOk (r : EphemResponse) : Prop :=
  EphemPointsCount (Result r) = Z.of_nat (length (EphemData (Result r))).

(** Chunk ids [from], [from + 1], ... in order. *)
Definition idsFrom (from : Z) (q : list EphemResponse) : Prop :=
  List.map StreamChunkId q
  = List.map (fun i => from + Z.of_nat i) (seq 0 (length q)).

(** The chunks of one stream. *)
Definition ofStream (streamId : Z) (r : EphemResponse) : bool :=
  StreamId r =? streamId.

End Notions.

(** ** Sample inputs *)

Module Samples.

Import GC CoreHelpers Core.

Definition issLine1 : string :=
  "1 25544U 98067A   21275.52543210  .00016717  00000-0  10270-3 0  9042".
Definition issLine2 : string :=
  "2 25544  51.6442 208.5453 0003439  47.4501  63.9527 15.48881544315506".

Definition iss : Satellite :=
  {| NoradId := 25544; Name := "ISS"; TleLn1 := issLine1; TleLn2 := issLine2 |}.

(** A grid in DS50 with the given step policy. *)
Definition gridWith (st : TimeStepType) : EphemTimeGrid :=
  {| TimeStartUtc := None; TimeStartDs50 := 27744%float;
     TimeEndUtc := None; TimeEndDs50 := 27754%float;
     StepType := st |}.

(** One task for the ISS on the common grid. *)
Definition issTask : EphemTask :=
  {| TaskId := 7; TimeGrid := None; Sat := Some iss |}.

Definition requestWith (st : TimeStepType) : EphemRequest :=
  {| ReqId := 1; EphemType := Dllcore.EciEphemType;
     CommonTimeGrid := Some (gridWith st);
     Tasks := [issTask] |}.

(** A buffer holding the points at times 27744, 27744.5, 27745, ... *)
Definition bufHalfDays (i : nat) : float :=
  if (i mod 7 =? 0)%nat
  then (27744 + 0.5 * Core.floatOfZ (Z.of_nat (i / 7)))%float
  else 1%float.

(** The limit on the bytes of a channel buffer on linux/amd64,
    [maxAlloc - hchanSize] with [maxAlloc = 2^48]. *)
Definition chanBytesAmd64 : Z := 2 ^ 48 - 96.

(** A parser that knows one duration, [PT10M]. *)
Definition parseOnlyPT10M (p : string) : option float :=
  if String.eqb p "PT10M" then Some 10%float else None.

Definition taskEnv (its : list Iter) : TaskEnv :=
  {| ctxDone := None; acquired := Some 101; iters := its |}.

(** A registry of three entries: 1 unused since 10, 2 in use, 3 unused
    since 5. *)
Definition registry3 : GC :=
  {| loaded :=
       <[1 := {| key := 1; satNum := 10001; lastUsed := 10; refs := 0 |}]>
         (<[2 := {| key := 2; satNum := 10002; lastUsed := 1; refs := 1 |}]>
            (<[3 := {| key := 3; satNum := 10003; lastUsed := 5; refs := 0 |}]> ∅));
     maxLoaded := 2;
     idleTTL := DefaultIdleTTLGcMin;
     sweepInterval := DefaultSweepIntervalGcMin |}.

(** Acquire on a miss, its release, a second call of the closure, a
    sweep. *)
Definition sampleEvents : list Event :=
  [ EvAcquire issLine1 10 {| lookupFails := false; existing := -1;
                             addOrInitSat := Some 101 |};
    EvRelease 101 20;
    EvRelease 101 30;
    EvSweep 40 ].

(** The entry of [registry3] that is in use. *)
Definition inUse : SatEntry :=
  {| key := 2; satNum := 10002; lastUsed := 1; refs := 1 |}.

(** Two chunks, of two points and of one. *)
Definition twoChunks : list Iter :=
  [ {| answer := Dllcore.Shim 0 2 bufHalfDays; lastError := ""; send := Queued |};
    {| answer := Dllcore.Shim 0 1 bufHalfDays; lastError := ""; send := Queued |} ].

Definition sampleStream :=
  Ephem parseOnlyPT10M (fun m => m) (-1)%float chanBytesAmd64
    (requestWith (KnownTimeStepPeriod "PT10M")) 2 [taskEnv twoChunks]
    (fun _ => false).

End Samples.

(** ** Package gc: draining the registry *)

Module GCDrain.

Import GC CoreHelpers.

(** The body of the ticker case of [WaitAllReleased]: no entry has
    [refs > 0]. *)
Definition allZero (g : GC) : bool :=
  forallb (fun ke => negb (0 <? refs (snd ke))) (map_to_list (loaded g)).

(** What the [select] of [WaitAllReleased] receives, one entry per
    iteration: the context is done, or the ticker fires and the registry
    is as given at that time. *)
Inductive Tick : Type :=
| CtxFires (e : CtxErr)
| TickerFires (g : GC).

(** [WaitAllReleased]: [Some err] is its result, [None] stands for a loop
    that is still polling when the ticks run out. *)
Fixpoint WaitAllReleased (ticks : list Tick) : option (option CtxErr) :=
  match ticks with
  | [] => None
  | CtxFires e :: _ => Some (Some e)
  | TickerFires g :: rest =>
      if allZero g then Some None else WaitAllReleased rest
  end.

(** How [RemoveAll] ends: still waiting, returned, or unwound by a
    panic of a gated call. *)
Inductive DrainEnd : Type :=
| DrainPending
| DrainReturned (err : option Error)
| DrainPanicked.

Section WithNative.

Variable N : Type.
Variable lastErrMsg : N -> string.

(** The two C entry points, each returning a code. *)
Variable Sgp4RemoveAllSats : N -> Z * N.
Variable TleRemoveAllSats : N -> Z * N.

Definition gated (f : N -> Z * N) (n : N) : CallResult * N :=
  let '(rc, n') := f n in (Returns rc, n').

(** [RemoveAll]: how it ends, the gate and native state, the registry and
    the gate operations, in order. [ctx1], [pick1] and [ctx2], [pick2]
    are the context and the choice of the [select] at the two gated
    calls. *)
Definition RemoveAll (ticks : list Tick)
    (ctx1 : option CtxErr) (pick1 : bool) (ctx2 : option CtxErr) (pick2 : bool)
    (w : World N) (g : GC) : DrainEnd * World N * GC * list Op :=
  match WaitAllReleased ticks with
  | None => (DrainPending, w, g, [])
  | Some (Some e) => (DrainReturned (Some (CtxError e)), w, g, [])
  | Some None =>
      match WithDllCall lastErrMsg ctx1 pick1 (gated Sgp4RemoveAllSats) w with
      | (Blocked, w1, ops1) => (DrainPending, w1, g, ops1)
      | (Panicked, w1, ops1) => (DrainPanicked, w1, g, ops1)
      | (Returned (Some err), w1, ops1) => (DrainReturned (Some err), w1, g, ops1)
      | (Returned None, w1, ops1) =>
          match WithDllCall lastErrMsg ctx2 pick2 (gated TleRemoveAllSats) w1 with
          | (Blocked, w2, ops2) => (DrainPending, w2, g, ops1 ++ ops2)
          | (Panicked, w2, ops2) => (DrainPanicked, w2, g, ops1 ++ ops2)
          | (Returned (Some err), w2, ops2) =>
              (DrainReturned (Some err), w2, g, ops1 ++ ops2)
          | (Returned None, w2, ops2) =>
              (DrainReturned None, w2, withLoaded g ∅, ops1 ++ ops2)
          end
      end
  end.

End WithNative.

Arguments gated {N}.
Arguments RemoveAll {N}.

End GCDrain.

(** ** Package dllcore: strings and single-point propagation *)

Module Cgo.

(** [goStrToCCharBuf]: the [[512]C.char] a Go string is copied into, as
    byte patterns; the array starts zeroed. *)
Definition goStrToCCharBuf (input : string) : list Z :=
  let b := Strings.bytes input in
  List.map
    (fun i : nat =>
       if (Z.of_nat i <? Z.of_nat (length b)) && (Z.of_nat i <? 512)
       then nth i b 0 else 0)
    (seq 0 512).

(** [Sgp4PropAll]: [propOut] is the 64 doubles the C function leaves in
    the buffer; [nil] comes back with a code other than 0. *)
Definition Sgp4PropAll (rc : Z) (propOut : nat -> float)
    : option (list float) * Z :=
  if negb (GoInt.int32 rc =? 0) then (None, GoInt.int32 rc)
  else (Some (List.map propOut (seq 0 64)), 0).

End Cgo.

(** ** Package core: single-point propagation *)

Module PropHandler.

Import GC CoreHelpers Core.

(** Modelled from the spec: the generated [apiv1.PropTask] is not in the
    sources; satellite, time (DS50 or MSE) and optional UTC timestamp. *)
Record PropTask : Type := mkPropTask {
  PSat : option Satellite;
  PTime : float;
  PTimeUtc : option Timestamp
}.

(** Modelled from the spec: the generated [apiv1.PropRequest] is not in
    the sources; request id, time type and task. *)
Record PropRequest : Type := mkPropRequest {
  PReqId : Z;
  PTimeType : Z;
  PTask : option PropTask
}.

(** Modelled from the spec: the generated [apiv1.PropResponse] is not in
    the sources; the request id and the propagated point. *)
Record PropResponse : Type := mkPropResponse {
  RReqId : Z;
  RResult : EphemerisData
}.

Inductive PropValidationError : Type :=
| ErrTaskRequired                 (* "task is required" *)
| ErrSat (e : SatError)
| ErrTimeType (t : Z)             (* "invalid time type: ..." *)
| ErrTimeConflict (t : float)     (* "time cannot be given in DS50 or MSE ..." *)
| ErrTimeMissing.                 (* "time must be specified DS50/MSE or UTC" *)

Inductive PropError : Type :=
| PInvalidArgument (e : PropValidationError)   (* codes.InvalidArgument *)
| PAcquire (e : AcquireError)
| PGate (e : Error).

(** How [Prop] ends: it waits for a permit for ever, returns, or unwinds
    with a panic of the gated closure. *)
Inductive PropEnd : Type :=
| PropPending
| PropReturned (r : PropError + PropResponse)
| PropPanicked.

(** The arguments the C function [Sgp4PropAll] receives. *)
Record PropCall : Type := mkPropCall {
  callKey : Z;
  callTimeType : Z;
  callTime : float
}.

(** The zero value of [apiv1.EphemerisData]. *)
Definition emptyData : EphemerisData :=
  {| Ds50Time := 0; MseTime := 0; X := 0; Y := 0; Z_ := 0;
     Vx := 0; Vy := 0; Vz := 0 |}%float.

Section Handler.

(** The enum values [apiv1.TimeType_TimeMse] and [apiv1.TimeType_TimeDs50]
    of the generated code. *)
Variable TimeMse : Z.
Variable TimeDs50 : Z.

Definition validatePropRequest (req : PropRequest) : option PropValidationError :=
  match PTask req with
  | None => Some ErrTaskRequired
  | Some task =>
      match validateSatellite (PSat task) with
      | Some e => Some (ErrSat e)
      | None =>
          if negb (PTimeType req =? TimeMse) && negb (PTimeType req =? TimeDs50)
          then Some (ErrTimeType (PTimeType req))
          else if isSome (PTimeUtc task) && PrimFloat.ltb 0 (PTime task)
          then Some (ErrTimeConflict (PTime task))
          else if negb (isSome (PTimeUtc task))
                  && negb (PTimeType req =? TimeMse)
                  && negb (PTimeType req =? TimeDs50)
          then Some ErrTimeMissing
          else None
      end
  end.

(** The state of the native library, its last-error slot and the C
    function [Sgp4PropAll]: the code and the output buffer for a key, a
    time type and a time. *)
Variable N : Type.
Variable lastErrMsg : N -> string.
Variable propAll : Z -> Z -> float -> N -> Z * (nat -> float) * N.

Variable sortSlice : list pair -> list pair.

(** What the closure handed to [WithDllCall] leaves in [res]. *)
Definition propResult (c : PropCall) (n : N) : EphemerisData :=
  let '(rc, out, _) := propAll (callKey c) (callTimeType c) (callTime c) n in
  match Cgo.Sgp4PropAll rc out with
  | (Some flatArr, rc') =>
      if negb (rc' =? 0) || (Z.of_nat (length flatArr) <? 8) then emptyData
      else
        {| Ds50Time := at_ flatArr 0; MseTime := at_ flatArr 1;
           X := at_ flatArr 2; Y := at_ flatArr 3; Z_ := at_ flatArr 4;
           Vx := at_ flatArr 5; Vy := at_ flatArr 6; Vz := at_ flatArr 7 |}
  | (None, _) => emptyData
  end.

(** The code the closure returns. *)
Definition propCode (c : PropCall) (n : N) : CallResult * N :=
  let '(rc, out, n') := propAll (callKey c) (callTimeType c) (callTime c) n in
  (Returns (snd (Cgo.Sgp4PropAll rc out)), n').

(** [Prop] (a reserved word here, hence the underscore): how it ends, the
    registry, the gate and native state, and the call of the C function
    it made, if any. [acquireAt] and [releaseAt]
    are the readings of the clock in [Acquire] and in the release
    closure, [catalog] the answers of the native catalog to [Acquire] and
    [load] what the gated calls of [Acquire] do to the native state. The
    read lock [Acquire] takes on the key is held until the deferred
    closure gives it back, once; the locks are not part of the state
    here, and [release] is the closure's update of the registry. *)
Definition Prop_ (ctx : option CtxErr) (pick : bool)
    (acquireAt releaseAt : Z) (catalog : Native) (load : N -> N)
    (req : PropRequest) (g : GC) (w0 : World N)
    : PropEnd * GC * World N * option PropCall :=
  match validatePropRequest req with
  | Some e => (PropReturned (inl (PInvalidArgument e)), g, w0, None)
  | None =>
      match PTask req with
      | None => (PropReturned (inl (PInvalidArgument ErrTaskRequired)), g, w0, None)
      | Some task =>
          let l1 := match PSat task with Some s => TleLn1 s | None => EmptyString end in
          let w := {| curGate := curGate w0; native := load (native w0) |} in
          match Acquire sortSlice l1 acquireAt catalog g with
          | (g1, inl e) => (PropReturned (inl (PAcquire e)), g1, w, None)
          | (g1, inr satKey) =>
              let c :=
                match PTimeUtc task with
                | Some t =>
                    {| callKey := satKey; callTimeType := TimeDs50;
                       callTime := UtcToDS50 t |}
                | None =>
                    {| callKey := satKey; callTimeType := PTimeType req;
                       callTime := PTime task |}
                end in
              match WithDllCall lastErrMsg ctx pick (propCode c) w with
              | (Blocked, w1, _) => (PropPending, g1, w1, None)
              | (Panicked, w1, _) =>
                  (PropPanicked, release satKey releaseAt g1, w1, Some c)
              | (Returned (Some err), w1, ops) =>
                  (PropReturned (inl (PGate err)), release satKey releaseAt g1, w1,
                   match ops with [] => None | _ => Some c end)
              | (Returned None, w1, _) =>
                  (PropReturned
                     (inr {| RReqId := PReqId req;
                             RResult := propResult c (native w) |}),
                   release satKey releaseAt g1, w1, Some c)
              end
          end
      end
  end.

End Handler.

End PropHandler.

(** ** Further notions *)

Module MoreNotions.

Import GC Core.

(** An entry with its [lastUsed] set to [t]. *)
Definition touched (t : Z) (e : SatEntry) : SatEntry :=
  {| key := key e; satNum := satNum e; lastUsed := t; refs := refs e |}.

(** The entry [Acquire] creates. *)
Definition fresh (k sn t : Z) : SatEntry :=
  {| key := k; satNum := sn; lastUsed := t; refs := 1 |}.

(** Unused and idle for longer than the TTL at time [now]. *)
Definition expired (now : Z) (g : GC) (e : SatEntry) : bool :=
  (refs e =? 0) && (idleTTL g <? timeSub now (lastUsed e)).

Definition among (k : Z) (ks : list Z) : bool := existsb (Z.eqb k) ks.

(** Every key has as many readers as its entry has references, and none
    when it has no entry. *)
Definition counted (g : GC) (l : Locks) : Prop :=
  forall k,
    readers k l = match loaded g !! k with Some e => refs e | None => 0 end.

(** The span [runAnalytGenEphems] propagates over: the UTC bounds of the
    grid, converted, where it has them. *)
Definition gridStart (grid : EphemTimeGrid) : float :=
  match TimeStartUtc grid with
  | Some t => UtcToDS50 t
  | None => TimeStartDs50 grid
  end.

Definition gridEnd (grid : EphemTimeGrid) : float :=
  match TimeEndUtc grid with
  | Some t => UtcToDS50 t
  | None => TimeEndDs50 grid
  end.

(** A chunk of the task at position [i] of the request. *)
Definition chunkOf (req : EphemRequest) (r : EphemResponse) : Prop :=
  RespReqId r = ReqId req
  /\ EphemData (Result r) <> []
  /\ exists i task,
       nth_error (Tasks req) i = Some task
       /\ StreamId r = GoInt.int64 (Z.of_nat i)
       /\ OutTaskId (Result r) = TaskId task.

(** The parameters a shim call of one task carries. *)
Definition paramsOf (key : Z) (tEnd step : float) (ty cs : Z)
    (c : Dllcore.ShimCall) : Prop :=
  Dllcore.satKey c = key /\ Dllcore.endTime c = tEnd
  /\ Dllcore.stepSize c = step /\ Dllcore.sgp4Ephem c = ty
  /\ Dllcore.arrSize c = cs.

(** A chunk of the task [task] at stream [taskIdx]. *)
Definition chunkAt (req : EphemRequest) (task : EphemTask) (taskIdx : Z)
    (r : EphemResponse) : Prop :=
  RespReqId r = ReqId req /\ StreamId r = GoInt.int64 taskIdx
  /\ OutTaskId (Result r) = TaskId task /\ EphemData (Result r) <> [].

End MoreNotions.

(** ** Packages values and config *)

Module Values.

Definition DefaultStreamChunkSize : Z := 100.
Definition DefaultGracefulStopTimeoutSec : string := "10s".
Definition DefaultMaxLoadedSatsGc : Z := 500.
Definition DefaultIdleTTLGcMin : string := "10m".
Definition DefaultSweepIntervalGcMin : string := "5m".
Definition DefaultTLSCertFilePath : string := "certs/server.crt".
Definition DefaultTLSKeyFilePath : string := "certs/server.key".
Definition DefaultTLSCaFilePath : string := "certs/ca.crt".

Definition EnableTLSEnvKey : string := "SERVICE_ENABLE_TLS".
Definition TLSCertFilePathEnvKey : string := "SERVICE_TLS_CERT_FILE_PATH".
Definition TLSKeyFilePathEnvKey : string := "SERVICE_TLS_KEY_FILE_PATH".
Definition TLSCaFilePathEnvKey : string := "SERVICE_TLS_CA_FILE_PATH".
Definition ReflectionEnvKey : string := "SERVICE_REFLECTION".
Definition StreamChunkSizeEnvKey : string := "SERVICE_STREAM_CHUNK_SIZE".
Definition GracefulStopTimeoutSecEnvKey : string :=
  "SERVICE_GRACEFUL_STOP_TIMEOUT_SEC".
Definition MaxLoadedSatsGcEnvKey : string := "SERVICE_MAX_LOADED_SATS_GC".
Definition IdleTTLGcMinEnvKey : string := "SERVICE_IDLE_TTL_GC_MIN".
Definition SweepIntervalGcMinEnvKey : string := "SERVICE_SWEEP_INTERVAL_GC_MIN".

End Values.

Module Config.

Record TLSConfig : Type := mkTLSConfig {
  Enabled : bool;
  CertFile : string;
  KeyFile : string;
  CAFile : string
}.

(** Durations in nanoseconds, as [time.Duration]. *)
Record GCConfig : Type := mkGCConfig {
  MaxLoadedSatsGc : Z;
  IdleTTLGcMin : Z;
  SweepIntervalGcMin : Z
}.

(** [Config]; the fields [GC] and [TLS] are pointers, [None] is [nil].
    The field [GC] is written [GC_]. *)
Record Config : Type := mkConfig {
  Reflection : bool;
  StreamChunkSize : Z;
  GracefulStopTimeoutSec : Z;
  GC_ : option GCConfig;
  TLS : option TLSConfig
}.

(** [strconv.ParseBool]. *)
Definition ParseBool (v : string) : option bool :=
  if existsb (String.eqb v) ["1"; "t"; "T"; "TRUE"; "true"; "True"]%string
  then Some true
  else if existsb (String.eqb v) ["0"; "f"; "F"; "FALSE"; "false"; "False"]%string
  then Some false
  else None.

(** What [os.Open] and the YAML decoder make of the configuration file:
    it does not exist, cannot be opened, cannot be decoded, or is decoded
    onto the defaults. *)
Inductive ConfigFile : Type :=
| NotExist
| OpenFails
| DecodeFails
| Decoded (decode : Config -> Config).

Inductive BuildError : Type :=
| ErrParseConfigFile      (* "parse config file: %w" *)
| ErrOpenConfigFile.      (* "open config file: %w" *)

Section Build.

(** [os.LookupEnv] and [time.ParseDuration], [None] for its error. *)
Variable LookupEnv : string -> option string.
Variable ParseDuration : string -> option Z.

(** [d, _ = time.ParseDuration(s)]: 0 comes back with an error. *)
Definition durationOrZero (s : string) : Z :=
  match ParseDuration s with Some d => d | None => 0 end.

Definition envBool (key : string) (cur : bool) : bool :=
  match LookupEnv key with
  | Some v => match ParseBool v with Some b => b | None => cur end
  | None => cur
  end.

Definition envInt (key : string) (cur : Z) : Z :=
  match LookupEnv key with
  | Some v =>
      match Strconv.Atoi (Strings.bytes v) with Some n => n | None => cur end
  | None => cur
  end.

Definition envDuration (key : string) (cur : Z) : Z :=
  match LookupEnv key with
  | Some v => match ParseDuration v with Some d => d | None => cur end
  | None => cur
  end.

Definition envPath (key : string) (cur : string) : string :=
  match LookupEnv key with
  | Some v => if String.eqb v "" then cur else v
  | None => cur
  end.

(** Whether an override writes through the pointer [cfg.TLS]. *)
Definition writesTLS : bool :=
  match LookupEnv Values.EnableTLSEnvKey with
  | Some v => match ParseBool v with Some _ => true | None => false end
  | None => false
  end
  || existsb
       (fun key =>
          match LookupEnv key with
          | Some v => negb (String.eqb v "")
          | None => false
          end)
       [Values.TLSCertFilePathEnvKey; Values.TLSKeyFilePathEnvKey;
        Values.TLSCaFilePathEnvKey].

Definition defaults : Config :=
  {| Reflection := false;
     StreamChunkSize := Values.DefaultStreamChunkSize;
     GracefulStopTimeoutSec :=
       durationOrZero Values.DefaultGracefulStopTimeoutSec;
     GC_ := Some {| MaxLoadedSatsGc := Values.DefaultMaxLoadedSatsGc;
                    IdleTTLGcMin := durationOrZero Values.DefaultIdleTTLGcMin;
                    SweepIntervalGcMin :=
                      durationOrZero Values.DefaultSweepIntervalGcMin |};
     TLS := Some {| Enabled := false;
                    CertFile := Values.DefaultTLSCertFilePath;
                    KeyFile := Values.DefaultTLSKeyFilePath;
                    CAFile := Values.DefaultTLSCaFilePath |} |}.

(** The overrides from the environment and the defaults of [buildConfig];
    [None] is the panic of a [nil] dereference. *)
Definition overrides (cfg : Config) : option Config :=
  let reflection := envBool Values.ReflectionEnvKey (Reflection cfg) in
  let chunk := envInt Values.StreamChunkSizeEnvKey (StreamChunkSize cfg) in
  let chunk := if chunk <=? 0 then Values.DefaultStreamChunkSize else chunk in
  let stop :=
    envDuration Values.GracefulStopTimeoutSecEnvKey (GracefulStopTimeoutSec cfg) in
  let stop :=
    if stop <=? 0 then durationOrZero Values.DefaultGracefulStopTimeoutSec
    else stop in
  match GC_ cfg with
  | None => None
  | Some gc =>
      let maxLoaded := envInt Values.MaxLoadedSatsGcEnvKey (MaxLoadedSatsGc gc) in
      let maxLoaded :=
        if maxLoaded <=? 0 then Values.DefaultMaxLoadedSatsGc else maxLoaded in
      let idle := envDuration Values.IdleTTLGcMinEnvKey (IdleTTLGcMin gc) in
      let idle :=
        if idle <=? 0 then durationOrZero Values.DefaultIdleTTLGcMin else idle in
      let sweep :=
        envDuration Values.SweepIntervalGcMinEnvKey (SweepIntervalGcMin gc) in
      let idle :=
        if sweep <=? 0 then durationOrZero Values.DefaultSweepIntervalGcMin
        else idle in
      let gc' := {| MaxLoadedSatsGc := maxLoaded; IdleTTLGcMin := idle;
                    SweepIntervalGcMin := sweep |} in
      match TLS cfg with
      | None =>
          if writesTLS then None
          else Some {| Reflection := reflection; StreamChunkSize := chunk;
                       GracefulStopTimeoutSec := stop; GC_ := Some gc';
                       TLS := None |}
      | Some tls =>
          Some {| Reflection := reflection; StreamChunkSize := chunk;
                  GracefulStopTimeoutSec := stop; GC_ := Some gc';
                  TLS :=
                    Some {| Enabled := envBool Values.EnableTLSEnvKey (Enabled tls);
                            CertFile :=
                              envPath Values.TLSCertFilePathEnvKey (CertFile tls);
                            KeyFile :=
                              envPath Values.TLSKeyFilePathEnvKey (KeyFile tls);
                            CAFile :=
                              envPath Values.TLSCaFilePathEnvKey (CAFile tls) |} |}
      end
  end.

(** [buildConfig]: an error, a configuration, or [None] for a panic. *)
Definition buildConfig (file : ConfigFile) : option (BuildError + Config) :=
  match file with
  | OpenFails => Some (inl ErrOpenConfigFile)
  | DecodeFails => Some (inl ErrParseConfigFile)
  | NotExist => option_map inr (overrides defaults)
  | Decoded decode => option_map inr (overrides (decode defaults))
  end.

End Build.

(** [NewGCFromConfig], on the registry: [None] when [cfg.GC] is [nil]. *)
Definition NewGCFromConfig (cfg : Config) : option GC.GC :=
  match GC_ cfg with
  | None => None
  | Some gc =>
      Some (GC.NewGC (MaxLoadedSatsGc gc) (IdleTTLGcMin gc)
              (SweepIntervalGcMin gc))
  end.

End Config.

(** ** More sample inputs *)

Module MoreSamples.

Import GC CoreHelpers Core Samples PropHandler.

(** A first line with the Alpha-5 number T0001. *)
Definition alpha5Line1 : string :=
  "1 T0001U 20001A   21275.52543210  .00016717  00000-0  10270-3 0  9042".

(** A first line whose number is padded with a blank. *)
Definition paddedLine1 : string :=
  "1  5544U 98067A   21275.52543210  .00016717  00000-0  10270-3 0  9042".

(** A full registry of one entry, in use. *)
Definition busy : GC :=
  {| loaded := <[2 := inUse]> ∅;
     maxLoaded := 1;
     idleTTL := DefaultIdleTTLGcMin;
     sweepInterval := DefaultSweepIntervalGcMin |}.

(** The answers of the native catalog: the satellite is new and gets key
    101, it is loaded under key 2, it is new and cannot be added. *)
Definition miss101 : Native :=
  {| lookupFails := false; existing := -1; addOrInitSat := Some 101 |}.
Definition hit2 : Native :=
  {| lookupFails := false; existing := 2; addOrInitSat := None |}.
Definition addDown : Native :=
  {| lookupFails := false; existing := -1; addOrInitSat := None |}.

(** A native propagator that succeeds and writes the time asked for, then
    ones. *)
Definition propAllOnes (key ty : Z) (t : float) (n : unit)
    : Z * (nat -> float) * unit :=
  (0, fun i => if (i =? 0)%nat then t else 1%float, tt).

(** A request for the ISS at a DS50 time, the time types being numbered 0
    (MSE) and 1 (DS50). *)
Definition propRequest : PropRequest :=
  {| PReqId := 9; PTimeType := 1;
     PTask := Some {| PSat := Some iss; PTime := 27744.5%float;
                      PTimeUtc := None |} |}.

Definition sampleProp :=
  Prop_ 0 1 unit (fun _ => EmptyString) propAllOnes insertionSort
    None true 10 20 hit2 (fun n => n) propRequest registry3
    (mkWorld None tt).

(** A parser of the durations used here, and an environment that sets
    the idle TTL to 30 minutes and the sweep interval to 0. *)
Definition parseSomeDurations (v : string) : option Z :=
  if String.eqb v "10s" then Some 10000000000
  else if String.eqb v "10m" then Some 600000000000
  else if String.eqb v "5m" then Some 300000000000
  else if String.eqb v "30m" then Some 1800000000000
  else if String.eqb v "0s" then Some 0
  else None.

Definition sweepOffEnv (key : string) : option string :=
  if String.eqb key Values.SweepIntervalGcMinEnvKey then Some "0s"%string
  else if String.eqb key Values.IdleTTLGcMinEnvKey then Some "30m"%string
  else None.

Definition sweepOffConfig : Config.Config :=
  {| Config.Reflection := false;
     Config.StreamChunkSize := 100;
     Config.GracefulStopTimeoutSec := 10000000000;
     Config.GC_ := Some {| Config.MaxLoadedSatsGc := 500;
                           Config.IdleTTLGcMin := 300000000000;
                           Config.SweepIntervalGcMin := 0 |};
     Config.TLS := Some {| Config.Enabled := false;
                           Config.CertFile := Values.DefaultTLSCertFilePath;
                           Config.KeyFile := Values.DefaultTLSKeyFilePath;
                           Config.CAFile := Values.DefaultTLSCaFilePath |} |}.

(** A stream of two chunks whose second [Send] fails. *)
Definition brokenStream :=
  Ephem parseOnlyPT10M (fun m => m) (-1)%float chanBytesAmd64
    (requestWith (KnownTimeStepPeriod "PT10M")) 2 [taskEnv twoChunks]
    (fun i => (i =? 1)%nat).

End MoreSamples.

(** * Properties *)

(** ** Catalog-number parsing *)

Module ParseFacts.

Import Strings Strconv GC Notions.

Ltac zbool :=
  repeat match goal with
    | |- context [?a =? ?b] =>
        first [ rewrite (proj2 (Z.eqb_neq a b)) by lia
              | rewrite (proj2 (Z.eqb_eq a b)) by lia ]
    | |- context [?a <=? ?b] =>
        first [ rewrite (proj2 (Z.leb_le a b)) by lia
              | rewrite (proj2 (Z.leb_gt a b)) by lia ]
    | |- context [?a <? ?b] =>
        first [ rewrite (proj2 (Z.ltb_lt a b)) by lia
              | rewrite (proj2 (Z.ltb_ge a b)) by lia ]
    end.

Lemma asciiSpace_plain b : plain b -> asciiSpace b = false.
Proof. unfold plain, asciiSpace. intros H. zbool. reflexivity. Qed.

Lemma leadingSpace_plain b t : plain b -> leadingSpace (b :: t) = 0%nat.
Proof.
  intros H. unfold leadingSpace. rewrite asciiSpace_plain by exact H.
  unfold plain in H. destruct t as [|b1 [|b2 t2]]; try reflexivity;
    unfold space2, space3; zbool; reflexivity.
Qed.

Lemma trailingSpace_plain b t : plain b -> trailingSpace (b :: t) = 0%nat.
Proof.
  intros H. unfold trailingSpace. rewrite asciiSpace_plain by exact H.
  unfold plain in H. destruct t as [|b1 [|b2 t2]]; try reflexivity;
    unfold space2, space3; zbool; rewrite ?andb_false_r; reflexivity.
Qed.

(** [TrimSpace] leaves five bytes alone when the first and the last are
    printable non-blank ASCII. *)
Lemma TrimSpace_plain5 a b c d e :
  plain a -> plain e -> TrimSpace [a; b; c; d; e] = [a; b; c; d; e].
Proof.
  intros Ha He. unfold TrimSpace, TrimLeftSpace, TrimRightSpace.
  cbn [length trimWith]. rewrite leadingSpace_plain by exact Ha.
  cbn [length rev app trimWith]. rewrite trailingSpace_plain by exact He.
  reflexivity.
Qed.

Lemma digitsVal_digitChars ds : forall acc,
  Forall isDigitVal ds ->
  digitsVal acc (digitChars ds) = Some (fold_left (fun a d => a * 10 + d) ds acc).
Proof.
  induction ds as [|d ds IH]; intros acc Hds; [reflexivity|].
  inversion Hds as [|? ? Hd Hrest]; subst. unfold isDigitVal in Hd.
  cbn [digitChars List.map digitsVal fold_left]. unfold isDigit. zbool.
  cbn [andb]. fold (digitChars ds). rewrite IH by exact Hrest.
  f_equal. f_equal. lia.
Qed.

Lemma decimal_bounds ds acc :
  Forall isDigitVal ds -> 0 <= acc ->
  acc * 10 ^ Z.of_nat (length ds)
    <= fold_left (fun a d => a * 10 + d) ds acc
    < (acc + 1) * 10 ^ Z.of_nat (length ds).
Proof.
  revert acc. induction ds as [|d ds IH]; intros acc Hds Hacc.
  - cbn. lia.
  - inversion Hds as [|? ? Hd Hrest]; subst. unfold isDigitVal in Hd.
    cbn [fold_left length]. specialize (IH (acc * 10 + d) Hrest ltac:(lia)).
    rewrite Nat2Z.inj_succ, Z.pow_succ_r by lia.
    assert (0 < 10 ^ Z.of_nat (length ds)) by (apply Z.pow_pos_nonneg; lia).
    nia.
Qed.

Lemma int32_id z : - 2 ^ 31 <= z < 2 ^ 31 -> GoInt.int32 z = z.
Proof.
  intros H. unfold GoInt.int32, GoInt.wrap.
  rewrite Z.mod_small; change (2 ^ (32 - 1)) with (2 ^ 31);
    change (2 ^ 32) with (2 * 2 ^ 31); lia.
Qed.

Lemma int64_id z : - 2 ^ 63 <= z < 2 ^ 63 -> GoInt.int64 z = z.
Proof.
  intros H. unfold GoInt.int64, GoInt.wrap.
  rewrite Z.mod_small; change (2 ^ (64 - 1)) with (2 ^ 63);
    change (2 ^ 64) with (2 * 2 ^ 63); lia.
Qed.

Lemma Atoi_digitChars d ds :
  Forall isDigitVal (d :: ds) -> (length ds < 18)%nat ->
  Atoi (digitChars (d :: ds)) = Some (decimal (d :: ds)).
Proof.
  intros Hds Hlen. pose proof (digitsVal_digitChars (d :: ds) 0 Hds) as Hv.
  pose proof (decimal_bounds (d :: ds) 0 Hds ltac:(lia)) as Hb.
  inversion Hds as [|? ? Hd _]; subst. unfold isDigitVal in Hd.
  unfold Atoi. cbn [digitChars List.map] in *. zbool. cbn [orb].
  rewrite Hv. fold (decimal (d :: ds)) in *.
  assert (10 ^ Z.of_nat (length (d :: ds)) <= 10 ^ 18) as Hp
    by (apply Z.pow_le_mono_r; cbn [length]; lia).
  unfold GoInt.inInt64, GoInt.minInt64, GoInt.maxInt64.
  assert (10 ^ 18 < 2 ^ 63) by (vm_compute; reflexivity).
  zbool. reflexivity.
Qed.

(** X1: Every legacy five-digit catalog number from 1 to 99999 parses to its
    value. *)
Lemma parseSatNum_legacy l1 p0 p1 ds rest :
  bytes l1 = p0 :: p1 :: digitChars ds ++ rest ->
  length ds = 5%nat -> Forall isDigitVal ds -> 1 <= decimal ds ->
  parseSatNum l1 = inr (decimal ds).
Proof.
  intros Hb Hlen Hds Hpos.
  destruct ds as [|d1 [|d2 [|d3 [|d4 [|d5 [|]]]]]]; try discriminate Hlen.
  pose proof (decimal_bounds _ 0 Hds ltac:(lia)) as Hbound.
  fold (decimal [d1; d2; d3; d4; d5]) in Hbound.
  change (10 ^ Z.of_nat (length [d1; d2; d3; d4; d5])) with 100000 in Hbound.
  pose proof (Atoi_digitChars d1 [d2; d3; d4; d5] Hds ltac:(cbn; lia)) as Ha.
  assert (plain (48 + d1) /\ plain (48 + d5)) as [P1 P5].
  { repeat match goal with
             | H : Forall _ (_ :: _) |- _ => inversion H; clear H; subst
           end.
    unfold isDigitVal, plain in *. lia. }
  unfold parseSatNum. rewrite Hb.
  cbn [digitChars List.map app length drop take] in *.
  rewrite TrimSpace_plain5 by assumption.
  cbn [length]. rewrite Ha.
  replace (Z.of_nat (S (S (S (S (S (S (S (length rest)))))))) <? 7) with false
    by (symmetry; apply Z.ltb_ge; lia).
  cbn [negb Z.of_nat]. zbool. cbn [andb negb].
  rewrite int32_id by lia. reflexivity.
Qed.

(** X2: Every Alpha-5 catalog number, a letter other than I and O followed
    by four digits, parses to [(letter - 'A' + 10) * 10000 + digits],
    a value from 100000 to 359999. *)
Lemma parseSatNum_alpha5 l1 p0 p1 letter ds rest :
  bytes l1 = p0 :: p1 :: letter :: digitChars ds ++ rest ->
  isAlpha5Letter letter = true ->
  length ds = 4%nat -> Forall isDigitVal ds ->
  parseSatNum l1 = inr ((letter - 65 + 10) * 10000 + decimal ds)
  /\ 100000 <= (letter - 65 + 10) * 10000 + decimal ds <= 359999.
Proof.
  intros Hb Hl Hlen Hds.
  destruct ds as [|d1 [|d2 [|d3 [|d4 [|]]]]]; try discriminate Hlen.
  pose proof (decimal_bounds _ 0 Hds ltac:(lia)) as Hbound.
  fold (decimal [d1; d2; d3; d4]) in Hbound.
  change (10 ^ Z.of_nat (length [d1; d2; d3; d4])) with 10000 in Hbound.
  pose proof (Atoi_digitChars d1 [d2; d3; d4] Hds ltac:(cbn; lia)) as Ha.
  assert (65 <= letter <= 90) as Hrange.
  { unfold isAlpha5Letter in Hl. rewrite !andb_true_iff in Hl.
    destruct Hl as [[[H1 H2] _] _].
    apply Z.leb_le in H1. apply Z.leb_le in H2. lia. }
  assert (plain letter /\ plain (48 + d4)) as [P1 P5].
  { repeat match goal with
             | H : Forall _ (_ :: _) |- _ => inversion H; clear H; subst
           end.
    unfold isDigitVal, plain in *. lia. }
  split; [|lia].
  unfold parseSatNum. rewrite Hb.
  cbn [digitChars List.map app length drop take] in *.
  rewrite TrimSpace_plain5 by assumption.
  cbn [length]. rewrite Hl, Ha.
  replace (Z.of_nat (S (S (S (S (S (S (S (length rest)))))))) <? 7) with false
    by (symmetry; apply Z.ltb_ge; lia).
  assert (Atoi [letter; 48 + d1; 48 + d2; 48 + d3; 48 + d4] = None) as Hn.
  { unfold Atoi. zbool. cbn [orb digitsVal]. unfold isDigit. zbool.
    rewrite andb_false_r. reflexivity. }
  rewrite Hn. cbn [negb Z.of_nat].
  rewrite (Z.mod_small (letter - 65 + 10) 256) by lia.
  zbool. cbn [andb negb].
  rewrite int32_id by lia. reflexivity.
Qed.

(** C4: the parser takes a signed number for a legacy catalog number:
    with [+1234] in columns 3-7 it returns 1234, no parse error. *)
Theorem parseSatNum_accepts_sign :
  parseSatNum "1 +1234U 98067A   21275.52543210  .00016717  00000-0  10270-3 0  9042"
  = inr 1234.
Proof. vm_compute. reflexivity. Qed.

(** The same slip in the Alpha-5 branch: a sign among the four digits. *)
Lemma parseSatNum_alpha5_accepts_sign :
  parseSatNum "1 A+123U" = inr 100123 /\ parseSatNum "1 A-000U" = inr 100000.
Proof. split; vm_compute; reflexivity. Qed.

Lemma parseSatNum_examples :
  parseSatNum "1 25544U 98067A   21275.52543210  .00016717  00000-0  10270-3 0  9042"
    = inr 25544
  /\ parseSatNum "1 A0001U" = inr 100001
  /\ parseSatNum "1 I1234U" = inl (ErrInvalidFormat (bytes "I1234"))
  /\ parseSatNum "1 ABCDE 98067A" = inl (ErrInvalidFormat (bytes "ABCDE"))
  /\ parseSatNum "1 254" = inl ErrLineLength
  /\ parseSatNum "1 00000U" = inl (ErrInvalidFormat (bytes "00000")).
Proof. repeat split; vm_compute; reflexivity. Qed.

End ParseFacts.

(** ** The registry: reference counts *)

Module RefFacts.

Import GC Notions.

Lemma bounded_mono b b' g : b <= b' -> bounded b g -> bounded b' g.
Proof. intros Hle Hb k e Hk. specialize (Hb k e Hk). lia. Qed.

Lemma bounded_NewGC mx ttl sw : bounded 0 (NewGC mx ttl sw).
Proof. intros k e Hk. cbn in Hk. rewrite lookup_empty in Hk. discriminate. Qed.

Lemma retain_bounded b k sn now g :
  0 <= b < GoInt.maxInt64 -> bounded b g -> bounded (b + 1) (retain k sn now g).
Proof.
  intros Hb Hg k' e' Hk'. unfold retain in Hk'. unfold GoInt.maxInt64 in Hb.
  destruct (loaded g !! k) as [e|] eqn:Hk; cbn in Hk';
    destruct (decide (k = k')) as [->|Hne].
  - rewrite lookup_insert_eq in Hk'. injection Hk' as <-. cbn.
    specialize (Hg k' e Hk). rewrite ParseFacts.int64_id by lia. lia.
  - rewrite lookup_insert_ne in Hk' by exact Hne.
    specialize (Hg k' e' Hk'). lia.
  - rewrite lookup_insert_eq in Hk'. injection Hk' as <-. cbn. lia.
  - rewrite lookup_insert_ne in Hk' by exact Hne.
    specialize (Hg k' e' Hk'). lia.
Qed.

Lemma release_bounded b k now g :
  b <= GoInt.maxInt64 -> bounded b g -> bounded b (release k now g).
Proof.
  intros Hb Hg k' e' Hk'. unfold release in Hk'. unfold GoInt.maxInt64 in Hb.
  destruct (loaded g !! k) as [e|] eqn:Hk; [|exact (Hg k' e' Hk')].
  destruct (0 <? refs e) eqn:Hpos; [|exact (Hg k' e' Hk')].
  apply Z.ltb_lt in Hpos. cbn in Hk'. specialize (Hg k e Hk) as He.
  destruct (decide (k = k')) as [->|Hne].
  - rewrite lookup_insert_eq in Hk'. injection Hk' as <-. cbn.
    rewrite ParseFacts.int64_id by lia. lia.
  - rewrite lookup_insert_ne in Hk' by exact Hne. exact (Hg k' e' Hk').
Qed.

(** A release at [refs = 0], or of a key without entry, changes nothing. *)
Lemma release_at_zero k now g e :
  loaded g !! k = Some e -> refs e = 0 -> release k now g = g.
Proof. intros Hk H0. unfold release. rewrite Hk, H0. reflexivity. Qed.

(** [removeVictims] only deletes: what it leaves was there before. *)
Lemma removeVictim_lookup v g k e :
  loaded (fst (removeVictim v g)) !! k = Some e -> loaded g !! k = Some e.
Proof.
  unfold removeVictim. destruct (shouldRemove v g); cbn; [|tauto].
  intros H. apply lookup_delete_Some in H. tauto.
Qed.

Lemma removeVictims_lookup vs : forall g k e,
  loaded (fst (removeVictims vs g)) !! k = Some e -> loaded g !! k = Some e.
Proof.
  induction vs as [|v vs IH]; intros g k e; cbn; [tauto|].
  destruct (removeVictim v g) as [g1 t1] eqn:H1.
  destruct (removeVictims vs g1) as [g2 t2] eqn:H2. cbn. intros H.
  apply (removeVictim_lookup v). rewrite H1. cbn.
  apply IH. rewrite H2. exact H.
Qed.

Lemma removeVictims_bounded b vs g :
  bounded b g -> bounded b (fst (removeVictims vs g)).
Proof. intros Hg k e Hk. exact (Hg k e (removeVictims_lookup vs g k e Hk)). Qed.

Section Run.

Variable sortSlice : list pair -> list pair.

Lemma Acquire_bounded b l1 now n g :
  0 <= b < GoInt.maxInt64 -> bounded b g ->
  bounded (b + 1) (fst (Acquire sortSlice l1 now n g)).
Proof.
  intros Hb Hg. unfold Acquire.
  destruct (parseSatNum l1) as [err|sn]; cbn [fst].
  { apply (bounded_mono b); [lia|exact Hg]. }
  destruct (lookupFails n); cbn [fst].
  { apply (bounded_mono b); [lia|exact Hg]. }
  destruct (existing n =? -1).
  - assert (bounded b (fst (evictLRU sortSlice 1 g))) as Hg1
      by (apply removeVictims_bounded; exact Hg).
    destruct (addOrInitSat n) as [k|]; cbn [fst].
    + apply retain_bounded; assumption.
    + apply (bounded_mono b); [lia|exact Hg1].
  - cbn [fst]. apply retain_bounded; assumption.
Qed.

Lemma registryOf_makeReleaser k runlock now g l :
  registryOf (makeReleaser k runlock now g l) = release k now g.
Proof.
  unfold makeReleaser. destruct runlock as [unlock|]; [|reflexivity].
  destruct (unlock l); reflexivity.
Qed.

Lemma step_bounded b ev g l :
  0 <= b < GoInt.maxInt64 -> bounded b g ->
  bounded (b + 1) (registryOf (step sortSlice ev g l)).
Proof.
  intros Hb Hg. destruct ev as [l1 now n|k now|now]; cbn [step].
  - unfold AcquireLocked.
    pose proof (Acquire_bounded b l1 now n g Hb Hg) as Ha.
    destruct (Acquire sortSlice l1 now n g) as [g' r]. exact Ha.
  - unfold releaser. rewrite registryOf_makeReleaser.
    apply (bounded_mono b); [lia|]. apply release_bounded; [lia|exact Hg].
  - apply (bounded_mono b); [lia|]. apply removeVictims_bounded. exact Hg.
Qed.

Lemma run_bounded evs : forall b g l,
  0 <= b -> b + Z.of_nat (length evs) <= GoInt.maxInt64 ->
  bounded b g ->
  bounded (b + Z.of_nat (length evs)) (registryOf (run sortSlice evs g l)).
Proof.
  induction evs as [|ev evs IH]; intros b g l Hb Hlen Hg.
  - cbn. rewrite Z.add_0_r. exact Hg.
  - cbn [run length] in *. rewrite Nat2Z.inj_succ in *.
    pose proof (step_bounded b ev g l ltac:(lia) Hg) as Hs.
    destruct (step sortSlice ev g l) as [g' l'|g']; cbn [registryOf] in *.
    + replace (b + Z.succ (Z.of_nat (length evs)))
        with ((b + 1) + Z.of_nat (length evs)) by lia.
      apply IH; [lia|lia|exact Hs].
    + apply (bounded_mono (b + 1)); [lia|exact Hs].
Qed.

(** Along every sequence of Acquire, release and sweep events on a fresh
    registry, shorter than the range of [int], no entry's [refs] is ever
    negative, whether the run goes on or ends in the fatal error of a
    release. *)
Lemma refs_never_negative mx ttl sw evs :
  Z.of_nat (length evs) <= GoInt.maxInt64 ->
  forall k e,
    loaded (registryOf (run sortSlice evs (NewGC mx ttl sw) ∅)) !! k = Some e ->
    0 <= refs e.
Proof.
  intros Hlen k e Hk.
  pose proof (run_bounded evs 0 (NewGC mx ttl sw) ∅ ltac:(lia) ltac:(lia)
                (bounded_NewGC mx ttl sw) k e Hk) as H.
  lia.
Qed.

End Run.

End RefFacts.

(** ** The registry: eviction *)

Module EvictFacts.

Import GC.

Lemma removeVictim_keeps v g k e :
  loaded g !! k = Some e -> 0 < refs e ->
  loaded (fst (removeVictim v g)) !! k = Some e.
Proof.
  intros Hk Hpos. unfold removeVictim, shouldRemove.
  destruct (loaded g !! v) as [ev|] eqn:Hv; [|exact Hk].
  destruct (refs ev =? 0) eqn:H0; [|exact Hk].
  apply Z.eqb_eq in H0. cbn.
  destruct (decide (v = k)) as [->|Hne].
  - rewrite Hk in Hv. injection Hv as ->. lia.
  - rewrite lookup_delete_ne by exact Hne. exact Hk.
Qed.

Lemma removeVictims_keeps vs : forall g k e,
  loaded g !! k = Some e -> 0 < refs e ->
  loaded (fst (removeVictims vs g)) !! k = Some e.
Proof.
  induction vs as [|v vs IH]; intros g k e Hk Hpos; cbn; [exact Hk|].
  pose proof (removeVictim_keeps v g k e Hk Hpos) as H1.
  destruct (removeVictim v g) as [g1 t1].
  specialize (IH g1 k e H1 Hpos).
  destruct (removeVictims vs g1) as [g2 t2]. exact IH.
Qed.

(** The re-check fails on an entry in use: nothing is removed, no native
    call is made. *)
Lemma removeVictim_skips k g e :
  loaded g !! k = Some e -> 0 < refs e ->
  removeVictim k g
  = (g, [RwLock k; CatalogLock; Recheck k false; CatalogUnlock; RwUnlock k]).
Proof.
  intros Hk Hpos. unfold removeVictim, shouldRemove. rewrite Hk.
  rewrite (proj2 (Z.eqb_neq (refs e) 0)) by lia. reflexivity.
Qed.

Lemma lockRun_app t1 : forall h t2,
  lockRun h (t1 ++ t2)
  = match lockRun h t1 with Some h' => lockRun h' t2 | None => None end.
Proof.
  induction t1 as [|s t1 IH]; intros h t2; cbn; [reflexivity|].
  destruct (lockStep h s); [apply IH|reflexivity].
Qed.

Lemma removeVictim_locks v g : lockRun idle (snd (removeVictim v g)) = Some idle.
Proof.
  unfold removeVictim. destruct (shouldRemove v g); cbn;
    repeat (rewrite Z.eqb_refl; cbn); reflexivity.
Qed.

Lemma removeVictims_locks vs : forall g,
  lockRun idle (snd (removeVictims vs g)) = Some idle.
Proof.
  induction vs as [|v vs IH]; intros g; cbn; [reflexivity|].
  pose proof (removeVictim_locks v g) as H1.
  destruct (removeVictim v g) as [g1 t1].
  specialize (IH g1). destruct (removeVictims vs g1) as [g2 t2].
  cbn in *. rewrite lockRun_app, H1. exact IH.
Qed.

(** The sweeper gathers unused entries only. *)
Lemma sweepVictims_unused now g k :
  In k (sweepVictims now g) ->
  exists e, loaded g !! k = Some e /\ refs e = 0.
Proof.
  unfold sweepVictims. rewrite in_map_iff. intros [[k' e] [Hk Hin]].
  cbn in Hk. subst k'. apply filter_In in Hin as [Hin Hb]. cbn in Hb.
  apply andb_true_iff in Hb as [H0 _]. apply Z.eqb_eq in H0.
  apply list_elem_of_In, elem_of_map_to_list in Hin. exists e. auto.
Qed.

(** C2: an entry with [refs > 0] survives [removeVictims] whatever the
    victims are, hence the LRU path and every tick of the sweeper; the
    removal re-checks [refs == 0] with the per-key write lock and the
    catalog lock held, and on an entry in use it only locks, re-checks
    and unlocks. *)
Theorem in_use_never_evicted (sortSlice : list pair -> list pair) g k e :
  loaded g !! k = Some e -> 0 < refs e ->
  (forall victims,
      loaded (fst (removeVictims victims g)) !! k = Some e
      /\ disciplined (snd (removeVictims victims g)) = true)
  /\ (forall need, loaded (fst (evictLRU sortSlice need g)) !! k = Some e)
  /\ (forall now, loaded (fst (sweep now g)) !! k = Some e)
  /\ removeVictim k g
     = (g, [RwLock k; CatalogLock; Recheck k false; CatalogUnlock; RwUnlock k]).
Proof.
  intros Hk Hpos. repeat split.
  - apply removeVictims_keeps; assumption.
  - unfold disciplined. rewrite removeVictims_locks. reflexivity.
  - intros need. apply removeVictims_keeps; assumption.
  - intros now. apply removeVictims_keeps; assumption.
  - apply (removeVictim_skips k g e); assumption.
Qed.

End EvictFacts.

(** ** The registry: LRU victim selection *)

Module LruFacts.

Import GC.

Lemma list_fmap_map {A B} (f : A -> B) (l : list A) : f <$> l = List.map f l.
Proof. induction l as [|a l IH]; cbn; [reflexivity|]. rewrite <- IH. reflexivity. Qed.

Lemma candidates_spec g k t :
  In (k, t) (candidates g)
  <-> exists e, loaded g !! k = Some e /\ refs e = 0 /\ lastUsed e = t.
Proof.
  unfold candidates. rewrite in_map_iff. split.
  - intros [[k' e] [Heq Hin]]. cbn in Heq. injection Heq as -> <-.
    apply filter_In in Hin as [Hin H0]. cbn in H0.
    apply list_elem_of_In, elem_of_map_to_list in Hin.
    exists e. apply Z.eqb_eq in H0. auto.
  - intros [e (Hk & H0 & Ht)]. exists (k, e). split; [cbn; congruence|].
    apply filter_In. split; [|cbn; apply Z.eqb_eq; exact H0].
    apply list_elem_of_In, elem_of_map_to_list. exact Hk.
Qed.

Lemma NoDup_map_filter {A B} (f : A -> B) (p : A -> bool) (l : list A) :
  NoDup (List.map f l) -> NoDup (List.map f (List.filter p l)).
Proof.
  induction l as [|a l IH]; cbn; intros H; [constructor|].
  apply NoDup_cons in H as [Hnin Hnd]. destruct (p a); cbn; [|auto].
  apply NoDup_cons. split; [|auto].
  rewrite list_elem_of_In, in_map_iff in *. intros [x [Hx Hin]].
  apply Hnin. exists x. split; [exact Hx|].
  apply filter_In in Hin. tauto.
Qed.

Lemma candidates_NoDup g : NoDup (List.map pkey (candidates g)).
Proof.
  unfold candidates. rewrite map_map. cbn.
  apply (NoDup_map_filter fst). rewrite <- list_fmap_map.
  apply NoDup_fst_map_to_list.
Qed.

Lemma sorted_app_cross (l1 : list pair) : forall l2 x y,
  StronglySorted byLastUsed (l1 ++ l2) -> In x l1 -> In y l2 -> byLastUsed x y.
Proof.
  induction l1 as [|a l1 IH]; intros l2 x y Hs Hx Hy; [destruct Hx|].
  cbn in Hs. apply StronglySorted_inv in Hs as [Hs Hall].
  destruct Hx as [->|Hx]; [|eauto].
  rewrite Forall_forall in Hall. apply Hall.
  apply list_elem_of_In, in_or_app. right. exact Hy.
Qed.

Lemma insertPair_perm p l : Permutation (insertPair p l) (p :: l).
Proof.
  induction l as [|q l IH]; cbn; [reflexivity|].
  destruct (pts p <=? pts q); [reflexivity|].
  rewrite IH. apply perm_swap.
Qed.

Lemma insertPair_sorted p l :
  StronglySorted byLastUsed l -> StronglySorted byLastUsed (insertPair p l).
Proof.
  induction l as [|q l IH]; cbn; intros Hs.
  - constructor; [constructor|constructor].
  - apply StronglySorted_inv in Hs as [Hs Hall].
    destruct (pts p <=? pts q) eqn:Hle.
    + apply Z.leb_le in Hle. constructor; [constructor; assumption|].
      constructor; [exact Hle|].
      eapply Forall_impl; [exact Hall|]. unfold byLastUsed. intros x Hx. lia.
    + apply Z.leb_gt in Hle. constructor; [auto|].
      rewrite Forall_forall in *. intros x Hx.
      apply list_elem_of_In in Hx.
      apply (Permutation_in _ (insertPair_perm p l)) in Hx.
      destruct Hx as [<-|Hx]; [unfold byLastUsed; lia|].
      apply Hall, list_elem_of_In. exact Hx.
Qed.

(** Insertion sort is a [sort.Slice]. *)
Lemma insertionSort_sorts : sorts insertionSort.
Proof.
  intros l. induction l as [|p l [IHp IHs]]; cbn.
  - split; [reflexivity|constructor].
  - split; [|apply insertPair_sorted; exact IHs].
    rewrite insertPair_perm. constructor. exact IHp.
Qed.

Lemma int64_sub a c : GoInt.int64 (GoInt.int64 a - c) = GoInt.int64 (a - c).
Proof.
  unfold GoInt.int64, GoInt.wrap. f_equal.
  replace ((a + 2 ^ (64 - 1)) mod 2 ^ 64 - 2 ^ (64 - 1) - c + 2 ^ (64 - 1))
    with ((a + 2 ^ (64 - 1)) mod 2 ^ 64 - c) by lia.
  rewrite Zminus_mod_idemp_l. f_equal. lia.
Qed.

Lemma excessOf_exact need g :
  GoInt.minInt64 <= Z.of_nat (size (loaded g)) + need - maxLoaded g
    <= GoInt.maxInt64 ->
  excessOf need g = Z.of_nat (size (loaded g)) + need - maxLoaded g.
Proof.
  intros H. unfold excessOf. rewrite int64_sub.
  unfold GoInt.minInt64, GoInt.maxInt64 in H.
  apply ParseFacts.int64_id. lia.
Qed.

Lemma In_take {A} (x : A) n (l : list A) : In x (take n l) -> In x l.
Proof.
  intros H. rewrite <- (take_drop n l). apply in_or_app. left. exact H.
Qed.

Section Lru.

Variable sortSlice : list pair -> list pair.
Hypothesis sortSlice_sorts : sorts sortSlice.

(** The victims are the keys of a prefix of the sorted candidates. *)
Lemma evictLRUIfNeeded_prefix need g :
  0 < excessOf need g ->
  evictLRUIfNeeded sortSlice need g
  = List.map pkey
      (take (Z.to_nat (Z.min (excessOf need g)
                             (Z.of_nat (length (candidates g)))))
            (sortSlice (candidates g))).
Proof.
  intros Hpos. unfold evictLRUIfNeeded.
  rewrite (proj2 (Z.leb_gt _ _)) by exact Hpos.
  destruct (sortSlice_sorts (candidates g)) as [Hperm _].
  pose proof (Permutation_length Hperm) as Hlen.
  destruct (Z.of_nat (length (candidates g)) =? 0) eqn:HK.
  - apply Z.eqb_eq in HK. rewrite HK, Z.min_r by lia. reflexivity.
  - rewrite Hlen.
    destruct (Z.of_nat (length (candidates g)) <? excessOf need g) eqn:Hlt.
    + apply Z.ltb_lt in Hlt. rewrite Z.min_r by lia. reflexivity.
    + apply Z.ltb_ge in Hlt. rewrite Z.min_l by lia. reflexivity.
Qed.

(** C3: with [excess = size + need - maxLoaded], no victim is selected
    when [excess <= 0]; otherwise the victims are the keys of the first
    [min excess K] candidates in ascending [lastUsed] order, [K] being
    the number of entries with [refs == 0]: that many distinct keys,
    each of an entry with [refs == 0], and none used later than an
    unused entry that was not selected. *)
Theorem lru_victim_selection need g :
  let excess := Z.of_nat (size (loaded g)) + need - maxLoaded g in
  let K := Z.of_nat (length (candidates g)) in
  let victims := evictLRUIfNeeded sortSlice need g in
  GoInt.minInt64 <= excess <= GoInt.maxInt64 ->
  (excess <= 0 -> victims = [])
  /\ (0 < excess ->
      victims
      = List.map pkey
          (take (Z.to_nat (Z.min excess K)) (sortSlice (candidates g)))
      /\ Z.of_nat (length victims) = Z.min excess K
      /\ NoDup victims
      /\ (forall v, In v victims ->
            exists e, loaded g !! v = Some e /\ refs e = 0)
      /\ (forall v c ev ec,
            In v victims -> ~ In c victims ->
            loaded g !! v = Some ev ->
            loaded g !! c = Some ec -> refs ec = 0 ->
            lastUsed ev <= lastUsed ec)).
Proof.
  intros excess K victims Hrange.
  pose proof (excessOf_exact need g Hrange) as Hex. fold excess in Hex.
  split.
  - intros Hle. subst victims. unfold evictLRUIfNeeded. rewrite Hex.
    rewrite (proj2 (Z.leb_le _ _)) by exact Hle. reflexivity.
  - intros Hpos.
    assert (victims
            = List.map pkey
                (take (Z.to_nat (Z.min excess K)) (sortSlice (candidates g))))
      as Hv.
    { subst victims. rewrite evictLRUIfNeeded_prefix by lia.
      rewrite Hex. reflexivity. }
    destruct (sortSlice_sorts (candidates g)) as [Hperm Hsorted].
    set (sorted := sortSlice (candidates g)) in *.
    set (m := Z.to_nat (Z.min excess K)) in *.
    assert (forall p, In p (take m sorted) -> In p (candidates g)) as Htake.
    { intros p Hp. apply (Permutation_in _ Hperm). exact (In_take _ _ _ Hp). }
    split; [exact Hv|]. rewrite Hv. clear Hv. repeat split.
    + rewrite length_map, length_take.
      rewrite (Permutation_length Hperm). fold K. subst m K. lia.
    + pose proof (candidates_NoDup g) as Hnd.
      rewrite <- (Permutation_map pkey Hperm) in Hnd.
      rewrite <- (take_drop m sorted), map_app in Hnd.
      apply NoDup_app in Hnd. tauto.
    + intros v Hin. apply in_map_iff in Hin as [[k t] [Hk Hin]].
      cbn in Hk. subst k.
      apply Htake, candidates_spec in Hin as [e (He & H0 & _)].
      exists e. auto.
    + intros v c ev ec Hin Hnin Hv Hc H0.
      apply in_map_iff in Hin as [[k t] [Hk Hin]]. cbn in Hk. subst k.
      pose proof (Htake _ Hin) as Hcand.
      apply candidates_spec in Hcand as [e (He & _ & Ht)].
      rewrite Hv in He. injection He as <-.
      assert (In (c, lastUsed ec) sorted) as Hcs.
      { apply (Permutation_in _ (Permutation_sym Hperm)).
        apply candidates_spec. exists ec. auto. }
      rewrite <- (take_drop m sorted) in Hcs, Hsorted.
      apply in_app_or in Hcs as [Hcs|Hcs].
      { exfalso. apply Hnin. apply in_map_iff.
        exists (c, lastUsed ec). auto. }
      pose proof (sorted_app_cross _ _ _ _ Hsorted Hin Hcs) as Hle.
      unfold byLastUsed in Hle. cbn in Hle. lia.
Qed.

End Lru.

End LruFacts.

(** ** The DLL gate *)

Module GateFacts.

Import CoreHelpers.

(** C5, as the code has it: [WithDllCall] either blocks, or fails with
    the context's error without calling [call], or takes one permit and
    calls [call] once. When [call] returns, the permit is given back,
    and a code [rc <> 0] surfaces as an error carrying [rc] and the
    last-error message, read between [errMu.Lock] and [errMu.Unlock].
    When [call] panics the permit stays taken. *)
Theorem WithDllCall_contract (N : Type) (lastErrMsg : N -> string)
    (ctx : option CtxErr) (pick : bool) (call : N -> CallResult * N)
    (w : World N) :
  let g := ensureGate (curGate w) in
  match WithDllCall lastErrMsg ctx pick call w with
  | (Blocked, w', ops) =>
      ctx = None /\ capacity g <= held g /\ ops = []
      /\ w' = mkWorld (Some g) (native w)
  | (Returned (Some (CtxError e)), w', ops) =>
      ctx = Some e /\ ops = [] /\ w' = mkWorld (Some g) (native w)
  | (Returned None, w', ops) =>
      held g < capacity g
      /\ call (native w) = (Returns 0, native w')
      /\ ops = [PermitSend; Call; PermitRecv]
      /\ permits w' = held g
  | (Returned (Some (RcError rc msg)), w', ops) =>
      held g < capacity g
      /\ rc <> 0
      /\ call (native w) = (Returns rc, native w')
      /\ msg = lastErrMsg (native w')
      /\ ops = [PermitSend; Call; PermitRecv;
                ErrMuLock; GetLastErrMsg; ErrMuUnlock]
      /\ permits w' = held g
  | (Panicked, w', ops) =>
      held g < capacity g
      /\ call (native w) = (Panics, native w')
      /\ ops = [PermitSend; Call]
      /\ permits w' = held g + 1
  end.
Proof.
  intros g. unfold WithDllCall. fold g.
  destruct (held g <? capacity g) eqn:Hroom;
    [apply Z.ltb_lt in Hroom|apply Z.ltb_ge in Hroom].
  - assert (match
              (let '(res, n1) := call (native w) in
               match res with
               | Returns rc =>
                   if negb (rc =? 0)
                   then (Returned (Some (RcError rc (lastErrMsg n1))),
                         mkWorld (Some (mkGate (capacity g) (held g + 1 - 1))) n1,
                         [PermitSend; Call; PermitRecv;
                          ErrMuLock; GetLastErrMsg; ErrMuUnlock])
                   else (Returned None,
                         mkWorld (Some (mkGate (capacity g) (held g + 1 - 1))) n1,
                         [PermitSend; Call; PermitRecv])
               | Panics =>
                   (Panicked,
                    mkWorld (Some (mkGate (capacity g) (held g + 1))) n1,
                    [PermitSend; Call])
               end)
            with
            | (Blocked, _, _) => False
            | (Returned (Some (CtxError _)), _, _) => False
            | (Returned None, w', ops) =>
                call (native w) = (Returns 0, native w')
                /\ ops = [PermitSend; Call; PermitRecv]
                /\ permits w' = held g
            | (Returned (Some (RcError rc msg)), w', ops) =>
                rc <> 0
                /\ call (native w) = (Returns rc, native w')
                /\ msg = lastErrMsg (native w')
                /\ ops = [PermitSend; Call; PermitRecv;
                          ErrMuLock; GetLastErrMsg; ErrMuUnlock]
                /\ permits w' = held g
            | (Panicked, w', ops) =>
                call (native w) = (Panics, native w')
                /\ ops = [PermitSend; Call]
                /\ permits w' = held g + 1
            end) as Hproceed.
    { destruct (call (native w)) as [[rc|] n1]; cbn.
      - destruct (rc =? 0) eqn:Hrc; cbn; unfold permits; cbn.
        + apply Z.eqb_eq in Hrc. subst rc. repeat split; lia.
        + apply Z.eqb_neq in Hrc. repeat split; try assumption; lia.
      - unfold permits. cbn. repeat split. }
    destruct ctx as [e|]; [destruct pick|]; cbn [andb].
    + revert Hproceed.
      destruct (let '(res, n1) := call (native w) in _) as [[[|[[e'|rc msg]|]|] w'] ops];
        intros H; try contradiction; intuition.
    + repeat split.
    + revert Hproceed.
      destruct (let '(res, n1) := call (native w) in _) as [[[|[[e'|rc msg]|]|] w'] ops];
        intros H; try contradiction; intuition.
  - destruct ctx as [e|]; cbn [andb]; repeat split. exact Hroom.
Qed.

End GateFacts.

(** ** Flat arrays *)

Module FlatFacts.

Import Core Notions.

(** Reading [n] points back in field order gives the flat array. *)
Lemma fields_pointAt n : forall flat,
  length flat = (n * 7)%nat ->
  flat_map (fun i => fields (pointAt flat i)) (seq 0 n) = flat.
Proof.
  induction n as [|n IH]; intros flat Hlen.
  - destruct flat; [reflexivity|discriminate].
  - destruct flat as [|a0 [|a1 [|a2 [|a3 [|a4 [|a5 [|a6 flat]]]]]]];
      try discriminate Hlen.
    cbn [seq flat_map]. rewrite <- seq_shift, flat_map_concat_map, map_map.
    rewrite <- flat_map_concat_map.
    rewrite (flat_map_ext _ (fun i => fields (pointAt flat i))).
    + rewrite IH by (cbn in Hlen; lia). reflexivity.
    + intros i. reflexivity.
Qed.

Lemma conversion_ok flat :
  7 <= Z.of_nat (length flat) -> Z.of_nat (length flat) mod 7 = 0 ->
  flatEphemsToEphemDataArr flat
  = inr (List.map (pointAt flat) (seq 0 (length flat / 7))).
Proof.
  intros H7 Hmod. unfold flatEphemsToEphemDataArr.
  rewrite (proj2 (Z.ltb_ge _ _)) by lia.
  rewrite Z.rem_mod_nonneg, Hmod by lia. cbn [Z.eqb negb].
  rewrite Z.quot_div_nonneg by lia.
  replace (Z.to_nat (Z.of_nat (length flat) / 7)) with (length flat / 7)%nat
    by (rewrite <- (Nat2Z.id (length flat / 7)), Nat2Z.inj_div; reflexivity).
  reflexivity.
Qed.

(** C8, as the code has it: a flat array of at least seven doubles whose
    length [L] is a multiple of 7 becomes [L / 7] points that read back,
    in field order, as the array; every other length, 0 among them,
    is an error. *)
Theorem flat_conversion (flat : list float) :
  let L := Z.of_nat (length flat) in
  (7 <= L -> L mod 7 = 0 ->
     exists pts, flatEphemsToEphemDataArr flat = inr pts
                 /\ Z.of_nat (length pts) = L / 7
                 /\ flat_map fields pts = flat)
  /\ (L < 7 -> flatEphemsToEphemDataArr flat = inl ErrTooShort)
  /\ (7 <= L -> L mod 7 <> 0 ->
        flatEphemsToEphemDataArr flat = inl ErrNotMultiple).
Proof.
  intros L. repeat split.
  - intros H7 Hmod. exists (List.map (pointAt flat) (seq 0 (length flat / 7))).
    split; [apply conversion_ok; assumption|].
    assert (length flat = (length flat / 7 * 7)%nat) as Hlen.
    { apply Nat2Z.inj. rewrite Nat2Z.inj_mul, Nat2Z.inj_div. fold L.
      change (Z.of_nat 7) with 7.
      pose proof (Z.div_mod L 7 ltac:(lia)). lia. }
    split.
    + rewrite length_map, length_seq, Nat2Z.inj_div. reflexivity.
    + rewrite flat_map_concat_map, map_map, <- flat_map_concat_map.
      apply fields_pointAt. exact Hlen.
  - intros Hlt. unfold flatEphemsToEphemDataArr. fold L.
    rewrite (proj2 (Z.ltb_lt _ _)) by exact Hlt. reflexivity.
  - intros H7 Hmod. unfold flatEphemsToEphemDataArr. fold L.
    rewrite (proj2 (Z.ltb_ge _ _)) by lia.
    rewrite Z.rem_mod_nonneg by lia.
    rewrite (proj2 (Z.eqb_neq _ _)) by exact Hmod. reflexivity.
Qed.

(** C8 as stated fails at [L = 0]: the empty array is a multiple of 7
    and yet no list of 0 points comes back. *)
Lemma flat_conversion_empty :
  Z.of_nat (length (@nil float)) mod 7 = 0
  /\ flatEphemsToEphemDataArr [] = inl ErrTooShort
  /\ flatEphemsToEphemDataArr [] <> inr [].
Proof. repeat split. discriminate. Qed.

End FlatFacts.

(** ** The Ephem pipeline *)

Module EphemFacts.

Import Core CoreHelpers Notions.

Lemma int32_range z : - 2 ^ 31 <= GoInt.int32 z < 2 ^ 31.
Proof.
  unfold GoInt.int32, GoInt.wrap.
  pose proof (Z.mod_pos_bound (z + 2 ^ (32 - 1)) (2 ^ 32) ltac:(lia)) as H.
  change (2 ^ (32 - 1)) with (2 ^ 31) in *.
  change (2 ^ 32) with (2 * 2 ^ 31) in *. lia.
Qed.

(** What [Sgp4GenEphems] returns with [n > 0]: [7 * n] doubles. *)
Lemma Sgp4GenEphems_flat DYN key s e step ty cs a c call :
  Dllcore.Sgp4GenEphems DYN key s e step ty cs a = (Some c, call) ->
  0 < Dllcore.n c ->
  length (Dllcore.ephemFlatArr c) = Z.to_nat (Dllcore.n c * 7)
  /\ Dllcore.n c < 2 ^ 31.
Proof.
  unfold Dllcore.Sgp4GenEphems. destruct a as [|rc got buf].
  - intros H. injection H as <- <-. cbn. lia.
  - pose proof (int32_range got) as Hr.
    destruct (negb (rc =? 0) && (GoInt.int32 got =? 0)).
    { intros H. injection H as <- <-. cbn. lia. }
    destruct (GoInt.int32 got <? 0); [discriminate|].
    destruct (GoInt.int32 got =? 0).
    { intros H. injection H as <- <-. cbn. lia. }
    intros H. injection H as <- <-. cbn. intros Hpos.
    rewrite length_map, length_seq. split; [reflexivity|lia].
Qed.

(** Every shim call carries the step [Sgp4GenEphems] was given, [-1]
    replaced by [DYN_SS_BASIC]; a call is made unless [malloc] fails. *)
Lemma Sgp4GenEphems_call DYN key s e step ty cs a res call :
  Dllcore.Sgp4GenEphems DYN key s e step ty cs a = (res, call) ->
  Forall (fun c => Dllcore.stepSize c = Dllcore.shimStep DYN step) (optList call)
  /\ (a <> Dllcore.MallocFails -> call <> None).
Proof.
  unfold Dllcore.Sgp4GenEphems. destruct a as [|rc got buf].
  - intros H. injection H as <- <-. split; [constructor|congruence].
  - intros H. split.
    + repeat match type of H with
             | (if ?b then _ else _) = _ => destruct b
             end; injection H as <- <-; repeat constructor.
    + intros _.
      repeat match type of H with
             | (if ?b then _ else _) = _ => destruct b
             end; injection H as <- <-; discriminate.
Qed.

Lemma buildEphemResponse_ok req task taskIdx flat n chunkID r :
  buildEphemResponse req task taskIdx flat n chunkID = inr r ->
  length flat = Z.to_nat (n * 7) -> 0 < n < 2 ^ 31 ->
  0 <= chunkID <= GoInt.maxInt64 ->
  StreamChunkId r = chunkID
  /\ StreamId r = GoInt.int64 taskIdx
  /\ EphemPointsCount (Result r) = Z.of_nat (length (EphemData (Result r))).
Proof.
  intros H Hlen Hn Hc. unfold buildEphemResponse in H.
  assert (Z.of_nat (length flat) = n * 7) as HL by lia.
  rewrite FlatFacts.conversion_ok in H
    by (rewrite HL; [lia || (rewrite Z.mod_mul; lia)]).
  assert (Z.of_nat (length (List.map (pointAt flat)
                              (seq 0 (length flat / 7)))) = n) as Hpts.
  { rewrite length_map, length_seq, Nat2Z.inj_div, HL.
    change (Z.of_nat 7) with 7. rewrite Z.div_mul; lia. }
  remember (List.map (pointAt flat) (seq 0 (length flat / 7))) as pts.
  injection H as <-.
  cbn [StreamChunkId StreamId Result EphemPointsCount EphemData].
  unfold GoInt.maxInt64 in Hc.
  assert (2 ^ 31 < 2 ^ 63) by (vm_compute; reflexivity).
  rewrite (ParseFacts.int64_id chunkID) by lia.
  rewrite (ParseFacts.int64_id n) by lia.
  repeat split. symmetry. exact Hpts.
Qed.

Lemma idsFrom_cons from r q :
  StreamChunkId r = from -> idsFrom (from + 1) q -> idsFrom from (r :: q).
Proof.
  unfold idsFrom. intros Hr Hq. cbn [List.map length seq]. rewrite Hr, Hq.
  rewrite <- seq_shift, map_map. f_equal; [lia|].
  apply map_ext. intros i. lia.
Qed.

Section Loop.

Variable DYN_SS_BASIC : float.

(** The chunks one task queues: ids from [chunkID] without gap, the task's
    stream id, declared counts that match, and every shim call made with
    the task's step. *)
Lemma chunkLoop_queued req task taskIdx key tEnd step cs :
  forall its chunkID tStart e q calls,
    chunkLoop DYN_SS_BASIC req task taskIdx key tEnd step cs chunkID tStart its
    = (e, q, calls) ->
    0 <= chunkID -> chunkID + Z.of_nat (length its) <= GoInt.maxInt64 ->
    (length q <= length its)%nat
    /\ idsFrom chunkID q
    /\ Forall (fun r => StreamId r = GoInt.int64 taskIdx /\ countOk r) q
    /\ Forall (fun c => Dllcore.stepSize c = Dllcore.shimStep DYN_SS_BASIC step)
         calls.
Proof.
  induction its as [|it rest IH]; intros chunkID tStart e q calls H H0 Hb.
  - cbn in H. injection H as <- <- <-. cbn. repeat split; constructor.
  - cbn [chunkLoop] in H. cbn [length] in Hb. rewrite Nat2Z.inj_succ in Hb.
    destruct (Dllcore.Sgp4GenEphems _ _ _ _ _ _ _ _) as [res call] eqn:HS.
    pose proof (Sgp4GenEphems_call _ _ _ _ _ _ _ _ _ _ HS) as [Hcall _].
    assert ((length (@nil EphemResponse) <= length (it :: rest))%nat
            /\ idsFrom chunkID []
            /\ Forall (fun r => StreamId r = GoInt.int64 taskIdx /\ countOk r) []
            /\ Forall (fun c => Dllcore.stepSize c
                                = Dllcore.shimStep DYN_SS_BASIC step)
                 (optList call))
      as Hstop.
    { cbn. repeat split; [lia|constructor|exact Hcall]. }
    destruct res as [c|]; [|injection H as <- <- <-; exact Hstop].
    destruct (Dllcore.errCode c =? -10);
      [injection H as <- <- <-; exact Hstop|].
    destruct (negb (Dllcore.errCode c =? 0) && (Dllcore.n c =? 0)
              && negb (String.eqb (lastError it) ""));
      [injection H as <- <- <-; exact Hstop|].
    destruct (0 <? Dllcore.n c) eqn:Hn.
    + apply Z.ltb_lt in Hn.
      destruct (Sgp4GenEphems_flat _ _ _ _ _ _ _ _ _ _ HS Hn) as [Hlen Hn31].
      destruct (buildEphemResponse _ _ _ _ _ _) as [err|r] eqn:Hr;
        [injection H as <- <- <-; exact Hstop|].
      destruct (buildEphemResponse_ok _ _ _ _ _ _ _ Hr Hlen ltac:(lia) ltac:(lia))
        as (Hid & Hsid & Hcnt).
      destruct (send it);
        [|injection H as <- <- <-; exact Hstop
         |injection H as <- <- <-; exact Hstop].
      destruct (Dllcore.done c).
      * injection H as <- <- <-. cbn. repeat split; [lia| |auto|exact Hcall].
        apply idsFrom_cons; [exact Hid|reflexivity].
      * unfold GoInt.maxInt64 in Hb.
        rewrite ParseFacts.int64_id in H by lia.
        destruct (chunkLoop _ _ _ _ _ _ _ _ (chunkID + 1) _ rest)
          as [[e' q'] cs'] eqn:Hrec.
        injection H as <- <- <-.
        destruct (IH _ _ _ _ _ Hrec ltac:(lia) ltac:(unfold GoInt.maxInt64; lia))
          as (Hl & Hi & Hf & Hc).
        cbn [app length]. repeat split.
        -- lia.
        -- apply idsFrom_cons; assumption.
        -- constructor; [auto|exact Hf].
        -- apply Forall_app. split; assumption.
    + destruct (Dllcore.done c).
      * injection H as <- <- <-. cbn. repeat split; [lia|constructor|exact Hcall].
      * destruct (chunkLoop _ _ _ _ _ _ _ _ chunkID _ rest)
          as [[e' q'] cs'] eqn:Hrec.
        injection H as <- <- <-.
        destruct (IH _ _ _ _ _ Hrec ltac:(lia) ltac:(lia))
          as (Hl & Hi & Hf & Hc).
        cbn [app]. repeat split; [cbn; lia|assumption|assumption|].
        apply Forall_app. split; assumption.
Qed.

End Loop.

Lemma chunkLoop_calls DYN req task taskIdx key tEnd step cs :
  forall its chunkID tStart,
    Forall (fun c => Dllcore.stepSize c = Dllcore.shimStep DYN step)
      (snd (chunkLoop DYN req task taskIdx key tEnd step cs chunkID tStart its)).
Proof.
  induction its as [|it rest IH]; intros chunkID tStart; [constructor|].
  cbn [chunkLoop].
  destruct (Dllcore.Sgp4GenEphems _ _ _ _ _ _ _ _) as [res call] eqn:HS.
  pose proof (Sgp4GenEphems_call _ _ _ _ _ _ _ _ _ _ HS) as [Hcall _].
  repeat match goal with
         | |- Forall _ (snd (match ?x with _ => _ end)) =>
             lazymatch x with
             | chunkLoop _ _ _ _ _ _ _ _ ?c ?t _ =>
                 let Hr := fresh "Hrec" in
                 pose proof (IH c t) as Hr;
                 destruct x as [[? ?] ?]; cbn [snd] in Hr
             | _ => destruct x
             end
         end;
    cbn [snd]; try exact Hcall; apply Forall_app; split; assumption.
Qed.

Lemma chunkLoop_calls_nonempty DYN req task taskIdx key tEnd step cs it rest
    chunkID tStart :
  answer it <> Dllcore.MallocFails ->
  snd (chunkLoop DYN req task taskIdx key tEnd step cs chunkID tStart (it :: rest))
  <> [].
Proof.
  intros Hans. cbn [chunkLoop].
  destruct (Dllcore.Sgp4GenEphems _ _ _ _ _ _ _ _) as [res call] eqn:HS.
  pose proof (Sgp4GenEphems_call _ _ _ _ _ _ _ _ _ _ HS) as [_ Hcall].
  specialize (Hcall Hans). destruct call as [c|]; [|congruence].
  repeat match goal with
         | |- snd (match ?x with _ => _ end) <> _ =>
             lazymatch x with
             | chunkLoop _ _ _ _ _ _ _ _ _ _ _ => destruct x as [[? ?] ?]
             | _ => destruct x
             end
         end;
    cbn; discriminate.
Qed.

Lemma shimStep_zero DYN : Dllcore.shimStep DYN 0%float = 0%float.
Proof. reflexivity. Qed.

Lemma filter_all {A} (f : A -> bool) l :
  Forall (fun a => f a = true) l -> List.filter f l = l.
Proof.
  induction 1 as [|a l Ha _ IH]; cbn; [reflexivity|]. rewrite Ha, IH. reflexivity.
Qed.

Lemma filter_none {A} (f : A -> bool) l :
  Forall (fun a => f a = false) l -> List.filter f l = [].
Proof.
  induction 1 as [|a l Ha _ IH]; cbn; [reflexivity|]. rewrite Ha. exact IH.
Qed.

Lemma sender_all sendFails q : forall i d,
  sender sendFails i q = (d, false) -> d = q.
Proof.
  induction q as [|r q IH]; intros i d H; cbn in H.
  - injection H as <-. reflexivity.
  - destruct (sendFails i); [discriminate|].
    destruct (sender sendFails (S i) q) as [d' f'] eqn:Hs.
    injection H as <- ->. f_equal. exact (IH _ _ Hs).
Qed.

Section Handler.

Variable Duration : Type.
Variable durationParse : string -> option Duration.
Variable minutes : Duration -> float.
Variable DYN_SS_BASIC : float.
Variable maxChanBytes : Z.

Local Abbreviation run := (runAnalytGenEphems durationParse minutes DYN_SS_BASIC).

Lemma run_queued req task taskIdx key cs its e q calls :
  run req task taskIdx key cs its = (e, q, calls) ->
  Z.of_nat (length its) <= GoInt.maxInt64 ->
  idsFrom 0 q
  /\ Forall (fun r => StreamId r = GoInt.int64 taskIdx /\ countOk r) q.
Proof.
  unfold runAnalytGenEphems. intros H Hb.
  destruct (resolveTimeGrid task req) as [grid|];
    [|injection H as <- <- <-; split; [reflexivity|constructor]].
  destruct (if isDynamicTimeStep grid then _ else _) as [step|];
    [|injection H as <- <- <-; split; [reflexivity|constructor]].
  apply chunkLoop_queued in H; [|lia|lia].
  destruct H as (_ & Hi & Hf & _). split; assumption.
Qed.

(** The step a task's shim calls carry. *)
Lemma run_calls req task taskIdx key cs its grid :
  resolveTimeGrid task req = Some grid ->
  StepType grid = StepUnset ->
  Forall (fun c => Dllcore.stepSize c = 0%float)
    (snd (run req task taskIdx key cs its))
  /\ (forall it rest, its = it :: rest ->
        answer it <> Dllcore.MallocFails ->
        snd (run req task taskIdx key cs its) <> []).
Proof.
  intros Hg Hs. unfold runAnalytGenEphems. rewrite Hg.
  unfold isDynamicTimeStep, getKnownTimeStep. rewrite Hs. split.
  - eapply Forall_impl; [apply chunkLoop_calls|].
    intros c Hc. rewrite Hc. apply shimStep_zero.
  - intros it rest -> Hans. apply chunkLoop_calls_nonempty. exact Hans.
Qed.

Lemma ephemTasks_queued req cs : forall tasks envs idx e q calls,
  ephemTasks durationParse minutes DYN_SS_BASIC req cs idx tasks envs
  = (e, q, calls) ->
  Z.of_nat idx + Z.of_nat (length tasks) <= GoInt.maxInt64 ->
  Forall (fun env => Z.of_nat (length (iters env)) <= GoInt.maxInt64) envs ->
  Forall countOk q
  /\ Forall (fun r => Z.of_nat idx <= StreamId r) q
  /\ (forall streamId, idsFrom 0 (List.filter (ofStream streamId) q)).
Proof.
  induction tasks as [|task rest IH]; intros envs idx e q calls H Hb Henv.
  { cbn in H. injection H as <- <- <-.
    repeat split; try constructor. }
  assert (Forall countOk [] /\ Forall (fun r => Z.of_nat idx <= StreamId r) []
          /\ (forall streamId,
                 idsFrom 0 (List.filter (ofStream streamId) (@nil EphemResponse))))
    as Hnil by (repeat split; constructor).
  cbn [ephemTasks] in H. cbn [length] in Hb. rewrite Nat2Z.inj_succ in Hb.
  destruct envs as [|env envs']; [injection H as <- <- <-; exact Hnil|].
  apply Forall_cons in Henv as [Henv0 Henv'].
  destruct (ctxDone env); [injection H as <- <- <-; exact Hnil|].
  destruct (acquired env) as [key|]; [|injection H as <- <- <-; exact Hnil].
  destruct (runAnalytGenEphems _ _ _ _ _ _ _ _ _) as [[te q1] cs1] eqn:Hrun.
  apply run_queued in Hrun as [Hids Hall]; [|exact Henv0].
  unfold GoInt.maxInt64 in Hb.
  rewrite ParseFacts.int64_id in Hall by lia.
  assert (Forall countOk q1) as Hcnt1
    by (eapply Forall_impl; [exact Hall|]; cbn; tauto).
  assert (Forall (fun r => StreamId r = Z.of_nat idx) q1) as Hsid1
    by (eapply Forall_impl; [exact Hall|]; cbn; tauto).
  assert (Forall (fun r => Z.of_nat idx <= StreamId r) q1) as Hge1
    by (eapply Forall_impl; [exact Hsid1|]; cbn; intros; lia).
  assert (forall streamId, idsFrom 0 (List.filter (ofStream streamId) q1)) as Hf1.
  { intros streamId. destruct (Z.eq_dec streamId (Z.of_nat idx)) as [->|Hne].
    - rewrite filter_all; [exact Hids|].
      eapply Forall_impl; [exact Hsid1|]. cbn. intros r Hr.
      unfold ofStream. apply Z.eqb_eq. exact Hr.
    - rewrite filter_none; [reflexivity|].
      eapply Forall_impl; [exact Hsid1|]. cbn. intros r Hr.
      unfold ofStream. apply Z.eqb_neq. lia. }
  destruct te as [[err|]| |];
    try (injection H as <- <- <-; repeat split; assumption).
  destruct (ephemTasks _ _ _ _ _ _ _ _) as [[e2 q2] cs2] eqn:Hrec.
  injection H as <- <- <-.
  apply IH in Hrec as (Hcnt2 & Hge2 & Hf2);
    [|rewrite Nat2Z.inj_succ; unfold GoInt.maxInt64; lia|exact Henv'].
  rewrite Nat2Z.inj_succ in Hge2. repeat split.
  - apply Forall_app. split; assumption.
  - apply Forall_app. split; [exact Hge1|].
    eapply Forall_impl; [exact Hge2|]. cbn. intros; lia.
  - intros streamId. rewrite List.filter_app.
    destruct (Z.eq_dec streamId (Z.of_nat idx)) as [->|Hne].
    + rewrite (filter_none _ q2), app_nil_r; [apply Hf1|].
      eapply Forall_impl; [exact Hge2|]. cbn. intros r Hr.
      unfold ofStream. apply Z.eqb_neq. lia.
    + rewrite (filter_none _ q1); [apply Hf2|].
      eapply Forall_impl; [exact Hsid1|]. cbn. intros r Hr.
      unfold ofStream. apply Z.eqb_neq. lia.
Qed.

(** C9: when [Ephem] completes successfully, the chunks delivered for each
    stream id carry the chunk ids 0, 1, ..., K-1 in this order, and every
    delivered chunk declares as many points as it carries. The numbers of
    tasks and of loop iterations are within the range of [int]. *)
Theorem stream_chunks_contiguous req chunkSize envs sendFails delivered calls :
  Ephem durationParse minutes DYN_SS_BASIC maxChanBytes req chunkSize envs sendFails
  = (EphOk, delivered, calls) ->
  Z.of_nat (length (Tasks req)) <= GoInt.maxInt64 ->
  Forall (fun env => Z.of_nat (length (iters env)) <= GoInt.maxInt64) envs ->
  (forall streamId,
      let chunks := List.filter (fun r => StreamId r =? streamId) delivered in
      List.map StreamChunkId chunks
      = List.map Z.of_nat (seq 0 (length chunks)))
  /\ Forall (fun r => EphemPointsCount (Result r)
                      = Z.of_nat (length (EphemData (Result r)))) delivered.
Proof.
  unfold Ephem. intros H Hb Henv.
  destruct (validateAnalytEphemRequest req); [discriminate|].
  destruct (makechanPanics maxChanBytes chunkSize); [discriminate|].
  destruct (ephemTasks _ _ _ _ _ _ _ _) as [[te queued] cs] eqn:Ht.
  destruct (sender sendFails 0 queued) as [d failed] eqn:Hs.
  injection H as He <- <-.
  assert (failed = false) as ->
    by (destruct te, failed; try discriminate; reflexivity).
  apply sender_all in Hs as ->.
  apply ephemTasks_queued in Ht as (Hcnt & _ & Hids); [|cbn; lia|exact Henv].
  split; [|exact Hcnt].
  intros streamId. specialize (Hids streamId).
  unfold idsFrom, ofStream in Hids. cbv zeta. rewrite Hids.
  apply map_ext. intros i. lia.
Qed.

(** *** Validation and the step *)

Lemma validateGrid_blind st grid :
  validateGrid (withStep st grid) = validateGrid grid.
Proof.
  unfold validateGrid, GetKnownTimeStepPeriod, GetKnownTimeStepDs50.
  cbn [withStep TimeStartUtc TimeStartDs50 TimeEndUtc TimeEndDs50 StepType].
  destruct (isSome (TimeStartUtc grid) && fne (TimeStartDs50 grid) 0);
    [reflexivity|].
  destruct (isSome (TimeEndUtc grid) && fne (TimeEndDs50 grid) 0);
    [reflexivity|].
  assert (forall s, match s with
                    | KnownTimeStepPeriod p =>
                        negb (String.eqb p "")
                        && fne match s with KnownTimeStepDs50 d => d | _ => 0%float end 0
                    | _ =>
                        negb (String.eqb "" "")
                        && fne match s with KnownTimeStepDs50 d => d | _ => 0%float end 0
                    end = false) as Hoff.
  { intros [|b|p|d]; try reflexivity. apply andb_false_r. }
  pose proof (Hoff st) as H1. pose proof (Hoff (StepType grid)) as H2.
  destruct st, (StepType grid); cbn in *; rewrite ?H1, ?H2; reflexivity.
Qed.

Lemma validateTasks_blind st common : forall tasks i,
  validateTasks (option_map (withStep st) common) i
    (List.map (fun task =>
                 {| TaskId := TaskId task;
                    TimeGrid := option_map (withStep st) (TimeGrid task);
                    Sat := Sat task |}) tasks)
  = validateTasks common i tasks.
Proof.
  induction tasks as [|task rest IH]; intros i; [reflexivity|].
  cbn [List.map validateTasks Sat TimeGrid].
  destruct (validateSatellite (Sat task)); [reflexivity|].
  replace (isSome (option_map (withStep st) common)) with (isSome common)
    by (destruct common; reflexivity).
  replace (isSome (option_map (withStep st) (TimeGrid task)))
    with (isSome (TimeGrid task)) by (destruct (TimeGrid task); reflexivity).
  destruct (negb (isSome common) && negb (isSome (TimeGrid task)));
    [reflexivity|].
  destruct (TimeGrid task) as [g|]; cbn [option_map];
    [rewrite validateGrid_blind|]; rewrite IH; reflexivity.
Qed.

(** The verdict of validation does not depend on the step variants. *)
Lemma validate_blind st req :
  validateAnalytEphemRequest (setSteps st req) = validateAnalytEphemRequest req.
Proof.
  unfold validateAnalytEphemRequest, setSteps.
  cbn [Tasks EphemType CommonTimeGrid]. rewrite length_map.
  destruct (Z.of_nat (length (Tasks req)) =? 0); [reflexivity|].
  destruct (negb (EphemType req =? Dllcore.EciEphemType)
            && negb (EphemType req =? Dllcore.J2KEphemType)); [reflexivity|].
  rewrite validateTasks_blind.
  destruct (CommonTimeGrid req) as [g|]; cbn [option_map];
    [rewrite validateGrid_blind|]; reflexivity.
Qed.

(** C10: for a task whose resolved grid has no step variant, validation
    gives the verdict it gives with any step in its place, and every call
    of the native generator for the task carries step 0; one is made as
    soon as the buffer is allocated. *)
Theorem unset_step_runs_with_zero req task grid :
  In task (Tasks req) ->
  resolveTimeGrid task req = Some grid ->
  StepType grid = StepUnset ->
  (forall st,
      validateAnalytEphemRequest (setSteps st req)
      = validateAnalytEphemRequest req)
  /\ (forall taskIdx satKey chunkSize its,
        Forall (fun c => Dllcore.stepSize c = 0%float)
          (snd (run req task taskIdx satKey chunkSize its))
        /\ (forall it rest, its = it :: rest ->
              answer it <> Dllcore.MallocFails ->
              snd (run req task taskIdx satKey chunkSize its) <> [])).
Proof.
  intros _ Hg Hs. split.
  - intros st. apply validate_blind.
  - intros taskIdx satKey chunkSize its. exact (run_calls _ _ _ _ _ _ _ Hg Hs).
Qed.

(** *** Unparseable durations *)

(** [Ephem] answers [InvalidArgument] exactly when validation fails. *)
Lemma Ephem_InvalidArgument req chunkSize envs sendFails e :
  fst (fst (Ephem durationParse minutes DYN_SS_BASIC maxChanBytes req chunkSize envs sendFails))
  = EphInvalidArgument e
  <-> validateAnalytEphemRequest req = Some e.
Proof.
  unfold Ephem. destruct (validateAnalytEphemRequest req) as [e'|].
  - cbn. split; congruence.
  - destruct (makechanPanics maxChanBytes chunkSize);
      [cbn; split; discriminate|].
    destruct (ephemTasks _ _ _ _ _ _ _ _) as [[te queued] cs].
    destruct (sender sendFails 0 queued) as [d failed]. cbn.
    split; [|discriminate]. destruct te, failed; discriminate.
Qed.

(** C7: a request that passes validation, whose first task has a known
    period [duration.Parse] rejects, makes [Ephem] panic as soon as the
    satellite is acquired: no [InvalidArgument], no chunk. *)
Theorem unparseable_period_panics req task rest grid p env envs'
    satKey chunkSize sendFails :
  validateAnalytEphemRequest req = None ->
  Tasks req = task :: rest ->
  resolveTimeGrid task req = Some grid ->
  StepType grid = KnownTimeStepPeriod p ->
  durationParse p = None ->
  ctxDone env = None -> acquired env = Some satKey ->
  Ephem durationParse minutes DYN_SS_BASIC maxChanBytes req chunkSize (env :: envs') sendFails
  = (EphPanic, [], []).
Proof.
  intros Hv Ht Hg Hs Hp Hc Ha. unfold Ephem. rewrite Hv, Ht.
  destruct (makechanPanics maxChanBytes chunkSize); [reflexivity|].
  cbn [ephemTasks]. rewrite Hc, Ha.
  unfold runAnalytGenEphems. rewrite Hg.
  unfold isDynamicTimeStep, getKnownTimeStep. rewrite Hs, Hp. reflexivity.
Qed.

End Handler.

(** *** Native errors in the chunk loop *)

(** X24: A native return with [rc <> 0] and no point aborts the task with the
    last-error message when there is one; with an empty message the loop
    goes on, from the start time 0 the adapter returned. *)
Lemma chunkLoop_native_error DYN req task taskIdx key tEnd step cs chunkID
    tStart it rest rc got buf :
  answer it = Dllcore.Shim rc got buf ->
  rc <> 0 -> rc <> -10 -> GoInt.int32 got = 0 ->
  let call :=
    {| Dllcore.satKey := key; Dllcore.startTime := tStart;
       Dllcore.endTime := tEnd;
       Dllcore.stepSize := Dllcore.shimStep DYN step;
       Dllcore.sgp4Ephem := EphemType req;
       Dllcore.arrSize := GoInt.int32 cs |} in
  chunkLoop DYN req task taskIdx key tEnd step cs chunkID tStart (it :: rest)
  = if String.eqb (lastError it) ""
    then
      let '(e, q, calls) :=
        chunkLoop DYN req task taskIdx key tEnd step cs chunkID 0%float rest in
      (e, q, call :: calls)
    else (Finished (Some (ErrNative (lastError it))), [], [call]).
Proof.
  intros Ha Hrc Halloc Hgot call. cbn [chunkLoop].
  unfold Dllcore.Sgp4GenEphems. rewrite Ha, Hgot.
  rewrite (proj2 (Z.eqb_neq rc 0)) by exact Hrc.
  cbn [negb andb Z.eqb Dllcore.errCode Dllcore.n Dllcore.done
       Dllcore.nextStart Dllcore.ephemFlatArr optList].
  rewrite (proj2 (Z.eqb_neq rc (-10))) by exact Halloc.
  rewrite (proj2 (Z.eqb_neq rc 0)) by exact Hrc.
  cbn [negb andb Z.ltb Z.compare].
  destruct (String.eqb (lastError it) ""); cbn [negb]; [|reflexivity].
  destruct (chunkLoop DYN req task taskIdx key tEnd step cs chunkID 0%float rest)
    as [[e q] calls]. reflexivity.
Qed.

(** C6: the native generator returns [rc = 1] with no point and the
    last-error slot is empty: the task is not aborted. The loop calls the
    generator again, from start time 0, and the task ends without error. *)
Theorem native_error_without_message_not_aborted (DYN : float) :
  runAnalytGenEphems Samples.parseOnlyPT10M (fun m => m) DYN
    (Samples.requestWith (DynamicTimeStep true)) Samples.issTask 0 101 100
    [ {| answer := Dllcore.Shim 1 0 Samples.bufHalfDays;
         lastError := ""; send := Queued |};
      {| answer := Dllcore.Shim 0 0 Samples.bufHalfDays;
         lastError := ""; send := Queued |} ]
  = (Finished None, [],
     [ {| Dllcore.satKey := 101; Dllcore.startTime := 27744%float;
          Dllcore.endTime := 27754%float; Dllcore.stepSize := DYN;
          Dllcore.sgp4Ephem := 1; Dllcore.arrSize := 100 |};
       {| Dllcore.satKey := 101; Dllcore.startTime := 0%float;
          Dllcore.endTime := 27754%float; Dllcore.stepSize := DYN;
          Dllcore.sgp4Ephem := 1; Dllcore.arrSize := 100 |} ]).
Proof. reflexivity. Qed.

(** With a message in the slot the same return aborts the task. *)
Lemma native_error_with_message_aborts (DYN : float) :
  fst (fst (runAnalytGenEphems Samples.parseOnlyPT10M (fun m => m) DYN
              (Samples.requestWith (DynamicTimeStep true)) Samples.issTask 0 101 100
              [ {| answer := Dllcore.Shim 1 0 Samples.bufHalfDays;
                   lastError := "sat not found"; send := Queued |} ]))
  = Finished (Some (ErrNative "sat not found")).
Proof. reflexivity. Qed.

End EphemFacts.

(** ** The claims at sample inputs *)

Module AtSamples.

Import GC CoreHelpers Core Samples.

(** C5 as stated fails when [call] panics: the permit taken is not given
    back, and the next call blocks. *)
Lemma WithDllCall_panic_keeps_permit :
  let w := mkWorld (Some (SetDllGate 1)) tt in
  let r := WithDllCall (fun _ => EmptyString) None true (fun n => (Panics, n)) w in
  fst (fst r) = Panicked
  /\ In Call (snd r) /\ ~ In PermitRecv (snd r)
  /\ permits w = 0 /\ permits (snd (fst r)) = 1
  /\ fst (fst (WithDllCall (fun _ => EmptyString) None true
                 (fun n => (Returns 0, n)) (snd (fst r)))) = Blocked.
Proof.
  cbn. repeat split; auto.
  intros [H|[H|[]]]; discriminate.
Qed.


(** The sample events stop at the second call of the closure, with the
    entry still at [refs = 0]. *)
Lemma sample_run_dies_at_over_release :
  exists g,
    run insertionSort sampleEvents (NewGC 2 0 0) ∅ = FatalRUnlock g
    /\ option_map refs (loaded g !! 101) = Some 0.
Proof. eexists. split; vm_compute; reflexivity. Qed.

(** C2 on the entry in use of [registry3]. *)
Lemma in_use_never_evicted_at_sample :
  (loaded registry3 !! 2 = Some inUse /\ 0 < refs inUse)
  /\ (forall victims,
         loaded (fst (removeVictims victims registry3)) !! 2 = Some inUse
         /\ disciplined (snd (removeVictims victims registry3)) = true)
  /\ (forall need,
         loaded (fst (evictLRU insertionSort need registry3)) !! 2 = Some inUse)
  /\ (forall now, loaded (fst (sweep now registry3)) !! 2 = Some inUse)
  /\ removeVictim 2 registry3
     = (registry3,
        [RwLock 2; CatalogLock; Recheck 2 false; CatalogUnlock; RwUnlock 2]).
Proof.
  assert (loaded registry3 !! 2 = Some inUse) as H1 by (vm_compute; reflexivity).
  assert (0 < refs inUse) as H2 by (vm_compute; reflexivity).
  split; [split; assumption|].
  exact (EvictFacts.in_use_never_evicted insertionSort registry3 2 inUse H1 H2).
Defined.

(** C3 on [registry3], one slot needed: the two unused entries are
    selected, the older first. *)
Lemma lru_victim_selection_at_sample :
  (GoInt.minInt64 <= Z.of_nat (size (loaded registry3)) + 1 - maxLoaded registry3
     <= GoInt.maxInt64)
  /\ evictLRUIfNeeded insertionSort 1 registry3 = [3; 1]
  /\ let excess := Z.of_nat (size (loaded registry3)) + 1 - maxLoaded registry3 in
     let K := Z.of_nat (length (candidates registry3)) in
     let victims := evictLRUIfNeeded insertionSort 1 registry3 in
     (excess <= 0 -> victims = [])
     /\ (0 < excess ->
         victims
         = List.map pkey
             (take (Z.to_nat (Z.min excess K))
                (insertionSort (candidates registry3)))
         /\ Z.of_nat (length victims) = Z.min excess K
         /\ NoDup victims
         /\ (forall v, In v victims ->
               exists e, loaded registry3 !! v = Some e /\ refs e = 0)
         /\ (forall v c ev ec,
               In v victims -> ~ In c victims ->
               loaded registry3 !! v = Some ev ->
               loaded registry3 !! c = Some ec -> refs ec = 0 ->
               lastUsed ev <= lastUsed ec)).
Proof.
  assert (GoInt.minInt64
            <= Z.of_nat (size (loaded registry3)) + 1 - maxLoaded registry3
            <= GoInt.maxInt64) as H
    by (vm_compute; split; discriminate).
  split; [exact H|]. split; [vm_compute; reflexivity|].
  exact (LruFacts.lru_victim_selection insertionSort LruFacts.insertionSort_sorts
           1 registry3 H).
Defined.

(** C9 on a stream of two chunks. *)
Lemma stream_chunks_contiguous_at_sample :
  fst (fst sampleStream) = EphOk
  /\ List.map StreamChunkId (snd (fst sampleStream)) = [0; 1]
  /\ (forall streamId,
         let chunks :=
           List.filter (fun r => StreamId r =? streamId) (snd (fst sampleStream)) in
         List.map StreamChunkId chunks
         = List.map Z.of_nat (seq 0 (length chunks)))
  /\ Forall (fun r => EphemPointsCount (Result r)
                      = Z.of_nat (length (EphemData (Result r))))
       (snd (fst sampleStream)).
Proof.
  assert (sampleStream = (EphOk, snd (fst sampleStream), snd sampleStream)) as H
    by (vm_compute; reflexivity).
  split; [vm_compute; reflexivity|]. split; [vm_compute; reflexivity|].
  apply (EphemFacts.stream_chunks_contiguous float parseOnlyPT10M (fun m => m)
           (-1)%float chanBytesAmd64 (requestWith (KnownTimeStepPeriod "PT10M")) 2
           [taskEnv twoChunks] (fun _ => false) _ _ H).
  - vm_compute. discriminate.
  - repeat constructor. vm_compute. discriminate.
Defined.

(** C10 on the sample request without a step: it is accepted and both
    shim calls carry step 0. *)
Lemma unset_step_runs_with_zero_at_sample :
  validateAnalytEphemRequest (requestWith StepUnset) = None
  /\ List.map Dllcore.stepSize
       (snd (Ephem parseOnlyPT10M (fun m => m) (-1)%float chanBytesAmd64
               (requestWith StepUnset) 2 [taskEnv twoChunks] (fun _ => false)))
     = [0%float; 0%float]
  /\ (forall st,
         validateAnalytEphemRequest (setSteps st (requestWith StepUnset))
         = validateAnalytEphemRequest (requestWith StepUnset))
  /\ (forall taskIdx satKey chunkSize its,
         Forall (fun c => Dllcore.stepSize c = 0%float)
           (snd (runAnalytGenEphems parseOnlyPT10M (fun m => m) (-1)%float
                   (requestWith StepUnset) issTask taskIdx satKey chunkSize its))
         /\ (forall it rest, its = it :: rest ->
               answer it <> Dllcore.MallocFails ->
               snd (runAnalytGenEphems parseOnlyPT10M (fun m => m) (-1)%float
                      (requestWith StepUnset) issTask taskIdx satKey chunkSize its)
               <> [])).
Proof.
  split; [vm_compute; reflexivity|]. split; [vm_compute; reflexivity|].
  apply (EphemFacts.unset_step_runs_with_zero float parseOnlyPT10M (fun m => m)
           (-1)%float (requestWith StepUnset) issTask (gridWith StepUnset)).
  - left. reflexivity.
  - reflexivity.
  - reflexivity.
Defined.

(** C7 on the sample request with the period [ten minutes]. *)
Lemma unparseable_period_panics_at_sample :
  validateAnalytEphemRequest (requestWith (KnownTimeStepPeriod "ten minutes"))
  = None
  /\ parseOnlyPT10M "ten minutes" = None
  /\ Ephem parseOnlyPT10M (fun m => m) (-1)%float chanBytesAmd64
       (requestWith (KnownTimeStepPeriod "ten minutes")) 2
       [taskEnv twoChunks] (fun _ => false)
     = (EphPanic, [], []).
Proof.
  split; [vm_compute; reflexivity|]. split; [vm_compute; reflexivity|].
  apply (EphemFacts.unparseable_period_panics float parseOnlyPT10M (fun m => m)
           (-1)%float chanBytesAmd64 (requestWith (KnownTimeStepPeriod "ten minutes"))
           issTask [] (gridWith (KnownTimeStepPeriod "ten minutes"))
           "ten minutes" (taskEnv twoChunks) [] 101 2 (fun _ => false));
    reflexivity.
Defined.

End AtSamples.

(** * Further properties *)

(** ** Catalog numbers *)

Module ParseMore.

Import Strings Strconv GC Notions.

(** X3: Whatever parses is a catalog number from 1 to 359999. *)
Theorem parseSatNum_range l1 n :
  parseSatNum l1 = inr n -> 1 <= n <= 359999.
Proof.
  unfold parseSatNum.
  destruct (Z.of_nat (length (bytes l1)) <? 7); [discriminate|].
  set (s := TrimSpace (take 5 (drop 2 (bytes l1)))).
  destruct (negb (Z.of_nat (length s) =? 5)); [discriminate|].
  destruct (Atoi s) as [v|].
  - destruct ((1 <=? v) && (v <=? 99999)) eqn:Hv.
    + apply andb_true_iff in Hv as [H1 H2].
      apply Z.leb_le in H1. apply Z.leb_le in H2.
      intros H. injection H as <-. rewrite ParseFacts.int32_id; lia.
    + destruct s as [|letter digits]; [discriminate|].
      destruct (isAlpha5Letter letter); [|discriminate].
      destruct (Atoi digits) as [num|]; [|discriminate].
      destruct ((0 <=? num) && (num <=? 9999)); [|discriminate].
      destruct ((100000 <=? _) && (_ <=? 359999)) eqn:Hr; [|discriminate].
      apply andb_true_iff in Hr as [H1 H2].
      apply Z.leb_le in H1. apply Z.leb_le in H2.
      intros H. injection H as <-. rewrite ParseFacts.int32_id; lia.
  - destruct s as [|letter digits]; [discriminate|].
    destruct (isAlpha5Letter letter); [|discriminate].
    destruct (Atoi digits) as [num|]; [|discriminate].
    destruct ((0 <=? num) && (num <=? 9999)); [|discriminate].
    destruct ((100000 <=? _) && (_ <=? 359999)) eqn:Hr; [|discriminate].
    apply andb_true_iff in Hr as [H1 H2].
    apply Z.leb_le in H1. apply Z.leb_le in H2.
    intros H. injection H as <-. rewrite ParseFacts.int32_id; lia.
Qed.

Lemma trimWith_shrinks width fuel : forall s,
  trimWith width fuel s = s
  \/ (length (trimWith width fuel s) < length s)%nat.
Proof.
  induction fuel as [|fuel IH]; intros s; cbn [trimWith]; [left; reflexivity|].
  destruct (width s) as [|w] eqn:Hw; [left; reflexivity|].
  destruct (IH (drop (S w) s)) as [Heq|Hlt].
  - rewrite Heq. destruct s as [|b t]; [left; reflexivity|].
    right. rewrite length_drop. cbn [length]. lia.
  - right. rewrite length_drop in Hlt. lia.
Qed.

Lemma trimWith_first width fuel b t :
  (0 < width (b :: t))%nat ->
  (length (trimWith width (S fuel) (b :: t)) < length (b :: t))%nat.
Proof.
  intros Hw. cbn [trimWith]. destruct (width (b :: t)) as [|w]; [lia|].
  destruct (trimWith_shrinks width fuel (drop (S w) (b :: t))) as [->|H];
    rewrite length_drop in *; cbn [length] in *; lia.
Qed.

Lemma TrimRightSpace_le s : (length (TrimRightSpace s) <= length s)%nat.
Proof.
  unfold TrimRightSpace. rewrite length_rev.
  destruct (trimWith_shrinks trailingSpace (length s) (rev s)) as [->|H];
    rewrite length_rev in *; lia.
Qed.

(** White space at either end of the bytes makes [TrimSpace] shorter. *)
Lemma TrimSpace_blank_end s :
  (exists b t, s = b :: t /\ asciiSpace b = true)
  \/ (exists t b, s = t ++ [b] /\ asciiSpace b = true) ->
  (length (TrimSpace s) < length s)%nat.
Proof.
  unfold TrimSpace. intros [(b & t & -> & Hb)|(t & b & -> & Hb)].
  - pose proof (TrimRightSpace_le (TrimLeftSpace (b :: t))).
    assert (length (TrimLeftSpace (b :: t)) < length (b :: t))%nat; [|lia].
    unfold TrimLeftSpace. cbn [length]. apply trimWith_first.
    cbn [leadingSpace]. rewrite Hb. lia.
  - unfold TrimLeftSpace.
    destruct (trimWith_shrinks leadingSpace (length (t ++ [b])) (t ++ [b]))
      as [->|H].
    + unfold TrimRightSpace. rewrite length_rev, rev_app_distr. cbn [rev app].
      rewrite length_app. cbn [length].
      replace (length t + 1)%nat with (S (length t)) by lia.
      pose proof (trimWith_first trailingSpace (length t) b (rev t)) as Hlt.
      cbn [length] in Hlt. rewrite length_rev in Hlt.
      apply Hlt. cbn [trailingSpace]. rewrite Hb. lia.
    + pose proof (TrimRightSpace_le
                    (trimWith leadingSpace (length (t ++ [b])) (t ++ [b]))).
      lia.
Qed.

(** X4: A catalog number padded with blanks, at the left or at the right of
    columns 3-7, is rejected. *)
Theorem parseSatNum_blank_padded l1 p0 p1 c1 c2 c3 c4 c5 rest :
  bytes l1 = p0 :: p1 :: c1 :: c2 :: c3 :: c4 :: c5 :: rest ->
  asciiSpace c1 = true \/ asciiSpace c5 = true ->
  exists s, parseSatNum l1 = inl (ErrSatnumLength s).
Proof.
  intros Hb Hsp. unfold parseSatNum. rewrite Hb.
  cbn [length drop take]. change (take 0 rest) with (@nil Z).
  replace (Z.of_nat (S (S (S (S (S (S (S (length rest)))))))) <? 7) with false
    by (symmetry; apply Z.ltb_ge; lia).
  assert (length (TrimSpace [c1; c2; c3; c4; c5]) < 5)%nat as Hlt.
  { change 5%nat with (length [c1; c2; c3; c4; c5]).
    apply TrimSpace_blank_end. destruct Hsp as [H|H].
    - left. exists c1, [c2; c3; c4; c5]. auto.
    - right. exists [c1; c2; c3; c4], c5. auto. }
  rewrite (proj2 (Z.eqb_neq _ 5)) by lia. cbn [negb]. eauto.
Qed.

End ParseMore.

(** ** The registry *)

Module RegistryMore.

Import GC Notions MoreNotions.

Lemma GC_eq (a b : GC) :
  loaded a = loaded b -> maxLoaded a = maxLoaded b ->
  idleTTL a = idleTTL b -> sweepInterval a = sweepInterval b -> a = b.
Proof. destruct a, b. cbn. intros -> -> -> ->. reflexivity. Qed.

Lemma removeVictims_config vs : forall g,
  maxLoaded (fst (removeVictims vs g)) = maxLoaded g
  /\ idleTTL (fst (removeVictims vs g)) = idleTTL g
  /\ sweepInterval (fst (removeVictims vs g)) = sweepInterval g.
Proof.
  induction vs as [|v vs IH]; intros g; cbn; [auto|].
  destruct (removeVictim v g) as [g1 t1] eqn:H1.
  specialize (IH g1). destruct (removeVictims vs g1) as [g2 t2]. cbn in *.
  unfold removeVictim in H1.
  destruct (shouldRemove v g); injection H1 as <- _; exact IH.
Qed.

Lemma removeVictim_shouldRemove v g k :
  shouldRemove k (fst (removeVictim v g))
  = if (k =? v) && shouldRemove v g then false else shouldRemove k g.
Proof.
  unfold removeVictim. destruct (shouldRemove v g) eqn:Hv; cbn [fst].
  - unfold shouldRemove at 1. cbn [loaded withLoaded].
    destruct (Z.eqb_spec k v) as [->|Hne]; cbn [andb].
    + rewrite lookup_delete_eq. reflexivity.
    + rewrite lookup_delete_ne by congruence. reflexivity.
  - rewrite andb_false_r. reflexivity.
Qed.

Lemma removeVictims_lookup_cases vs : forall g k,
  loaded (fst (removeVictims vs g)) !! k
  = if among k vs && shouldRemove k g then None else loaded g !! k.
Proof.
  induction vs as [|v vs IH]; intros g k; [reflexivity|].
  cbn [removeVictims].
  pose proof (removeVictim_shouldRemove v g k) as Hs.
  destruct (removeVictim v g) as [g1 t1] eqn:H1.
  specialize (IH g1 k). destruct (removeVictims vs g1) as [g2 t2].
  cbn [fst] in *. rewrite IH, Hs. clear IH Hs.
  unfold among. cbn [existsb]. fold (among k vs).
  unfold removeVictim in H1.
  destruct (Z.eqb_spec k v) as [->|Hne]; cbn [orb andb].
  - destruct (shouldRemove v g) eqn:Hv; injection H1 as <- _.
    + cbn [loaded withLoaded]. rewrite lookup_delete_eq, andb_false_r.
      reflexivity.
    + rewrite andb_false_r. reflexivity.
  - destruct (shouldRemove v g); injection H1 as <- _; [|reflexivity].
    cbn [loaded withLoaded]. rewrite lookup_delete_ne by congruence.
    reflexivity.
Qed.

(** X5: [removeVictims] removes exactly the victims whose re-check succeeds:
    the listed keys that have an entry with [refs == 0]. *)
Theorem removeVictims_exact vs : forall g k,
  loaded (fst (removeVictims vs g)) !! k
  = if among k vs && shouldRemove k g then None else loaded g !! k.
Proof. exact (removeVictims_lookup_cases vs). Qed.

Lemma among_In k ks : among k ks = true <-> In k ks.
Proof.
  unfold among. rewrite existsb_exists. split.
  - intros [x [Hin Hx]]. apply Z.eqb_eq in Hx. subst. exact Hin.
  - intros Hin. exists k. split; [exact Hin|apply Z.eqb_refl].
Qed.

Lemma among_perm k ks ks' : Permutation ks ks' -> among k ks = among k ks'.
Proof.
  intros Hp. apply eq_true_iff_eq. rewrite !among_In.
  split; apply Permutation_in; [exact Hp|symmetry; exact Hp].
Qed.

(** X6: The registry [removeVictims] leaves does not depend on the order of
    the victims (the sweeper gathers them ranging over a map). *)
Theorem removeVictims_any_order vs vs' g :
  Permutation vs vs' ->
  fst (removeVictims vs g) = fst (removeVictims vs' g).
Proof.
  intros Hp.
  destruct (removeVictims_config vs g) as (M1 & I1 & S1).
  destruct (removeVictims_config vs' g) as (M2 & I2 & S2).
  apply GC_eq; try congruence.
  apply map_eq. intros k. rewrite !removeVictims_lookup_cases.
  rewrite (among_perm k vs vs' Hp). reflexivity.
Qed.

Lemma sweepVictims_In now g k :
  In k (sweepVictims now g)
  <-> exists e, loaded g !! k = Some e /\ expired now g e = true.
Proof.
  unfold sweepVictims, expired. rewrite in_map_iff. split.
  - intros [[k' e] [Hk Hin]]. cbn in Hk. subst k'.
    apply filter_In in Hin as [Hin Hb]. cbn in Hb.
    apply list_elem_of_In, elem_of_map_to_list in Hin. eauto.
  - intros [e [Hk Hb]]. exists (k, e). split; [reflexivity|].
    apply filter_In. split; [|exact Hb].
    apply list_elem_of_In, elem_of_map_to_list. exact Hk.
Qed.

(** X7: One tick of the sweeper removes exactly the entries that are unused
    and idle for longer than the TTL; every other entry stays as it is. *)
Theorem sweep_exact now g k :
  loaded (fst (sweep now g)) !! k
  = match loaded g !! k with
    | Some e => if expired now g e then None else Some e
    | None => None
    end.
Proof.
  unfold sweep. rewrite removeVictims_lookup_cases.
  destruct (loaded g !! k) as [e|] eqn:Hk.
  - destruct (expired now g e) eqn:He.
    + assert (among k (sweepVictims now g) = true) as ->
        by (apply among_In, sweepVictims_In; eauto).
      unfold shouldRemove. rewrite Hk. unfold expired in He.
      apply andb_true_iff in He as [-> _]. reflexivity.
    + assert (among k (sweepVictims now g) = false) as ->; [|reflexivity].
      apply not_true_is_false. rewrite among_In, sweepVictims_In.
      intros [e' [Hk' He']]. congruence.
  - destruct (among k (sweepVictims now g) && shouldRemove k g); reflexivity.
Qed.

Lemma removeVictims_size vs : forall g,
  NoDup vs -> Forall (fun v => shouldRemove v g = true) vs ->
  (size (loaded (fst (removeVictims vs g))) + length vs = size (loaded g))%nat.
Proof.
  induction vs as [|v vs IH]; intros g Hnd Hall; [cbn; lia|].
  apply NoDup_cons in Hnd as [Hnin Hnd].
  apply Forall_cons in Hall as [Hv Hall].
  cbn [removeVictims].
  pose proof (fun k => removeVictim_shouldRemove v g k) as Hs.
  destruct (removeVictim v g) as [g1 t1] eqn:H1.
  assert (size (loaded g1) = pred (size (loaded g))
          /\ size (loaded g) <> 0%nat) as [Hsz Hpos].
  { unfold removeVictim in H1. rewrite Hv in H1. injection H1 as <- _.
    cbn [loaded withLoaded]. unfold shouldRemove in Hv.
    destruct (loaded g !! v) as [e|] eqn:Hk; [|discriminate].
    split; [apply map_size_delete_Some; eauto|].
    apply map_size_ne_0_lookup_2 with v. eauto. }
  specialize (IH g1 Hnd). destruct (removeVictims vs g1) as [g2 t2].
  cbn [fst length] in *.
  assert (Forall (fun v0 => shouldRemove v0 g1 = true) vs) as Hall1.
  { rewrite Forall_forall in *. intros x Hx. rewrite Hs, Hv.
    destruct (Z.eqb_spec x v) as [->|_]; [contradiction|]. cbn. auto. }
  specialize (IH Hall1). lia.
Qed.

(** X8: A registry with no unused entry is never evicted from: an [Acquire]
    that loads a new satellite adds its entry and the registry grows,
    past [maxLoaded] if it was full. *)
Theorem acquire_overshoots_when_all_in_use
    (sortSlice : list pair -> list pair) l1 now n g sn k :
  (forall k' e, loaded g !! k' = Some e -> refs e <> 0) ->
  parseSatNum l1 = inr sn ->
  lookupFails n = false -> existing n = -1 -> addOrInitSat n = Some k ->
  loaded g !! k = None ->
  Acquire sortSlice l1 now n g
  = (withLoaded g (<[k := fresh k sn now]> (loaded g)), inr k)
  /\ size (loaded (fst (Acquire sortSlice l1 now n g))) = S (size (loaded g)).
Proof.
  intros Hbusy Hp Hl He Ha Hk.
  assert (candidates g = []) as Hc.
  { unfold candidates.
    rewrite (EphemFacts.filter_none _ (map_to_list (loaded g))); [reflexivity|].
    apply Forall_forall. intros [k' e] Hin. cbn.
    apply elem_of_map_to_list in Hin. apply Z.eqb_neq. eauto. }
  assert (evictLRUIfNeeded sortSlice 1 g = []) as Hv.
  { unfold evictLRUIfNeeded. rewrite Hc.
    destruct (excessOf 1 g <=? 0); reflexivity. }
  assert (Acquire sortSlice l1 now n g
          = (withLoaded g (<[k := fresh k sn now]> (loaded g)), inr k)) as HA.
  { unfold Acquire, evictLRU. rewrite Hp, Hl, He, Ha, Hv. cbn.
    unfold retain. rewrite Hk. reflexivity. }
  split; [exact HA|]. rewrite HA. cbn.
  apply map_size_insert_None. exact Hk.
Qed.

(** X9: An [Acquire] that finds the satellite loaded, followed by the release
    of the key it returned, gives the entry its count back and leaves the
    rest of the registry alone; only [lastUsed] moves on. *)
Theorem acquire_release_restores
    (sortSlice : list pair -> list pair) l1 t1 t2 n g sn e :
  parseSatNum l1 = inr sn ->
  lookupFails n = false -> existing n <> -1 ->
  loaded g !! existing n = Some e ->
  0 <= refs e < GoInt.maxInt64 ->
  snd (Acquire sortSlice l1 t1 n g) = inr (existing n)
  /\ release (existing n) t2 (fst (Acquire sortSlice l1 t1 n g))
     = withLoaded g (<[existing n := touched t2 e]> (loaded g)).
Proof.
  intros Hp Hl He Hk Hr. unfold Acquire. rewrite Hp, Hl.
  rewrite (proj2 (Z.eqb_neq _ _) He). cbn [fst snd]. split; [reflexivity|].
  unfold retain. rewrite Hk. unfold release. cbn [loaded withLoaded].
  rewrite lookup_insert_eq. cbn [refs key satNum].
  unfold GoInt.maxInt64 in Hr.
  rewrite (ParseFacts.int64_id (refs e + 1)) by lia.
  rewrite (proj2 (Z.ltb_lt 0 (refs e + 1))) by lia.
  rewrite ParseFacts.int64_id by lia.
  apply GC_eq; try reflexivity. cbn [loaded withLoaded].
  rewrite insert_insert_eq. unfold touched. do 3 f_equal. lia.
Qed.

Lemma failed_acquire_lookup
    (sortSlice : list pair -> list pair) l1 now n g g' err :
  Acquire sortSlice l1 now n g = (g', inl err) ->
  forall k e, loaded g' !! k = Some e -> loaded g !! k = Some e.
Proof.
  unfold Acquire. intros H k e Hk.
  destruct (parseSatNum l1) as [pe|sn]; [injection H as <- _; exact Hk|].
  destruct (lookupFails n); [injection H as <- _; exact Hk|].
  destruct (existing n =? -1); [|discriminate].
  destruct (addOrInitSat n); [discriminate|]. injection H as <- _.
  exact (RefFacts.removeVictims_lookup _ _ _ _ Hk).
Qed.

(** X10: An [Acquire] that fails takes no reference: every entry it leaves was
    there before, unchanged. *)
Theorem failed_acquire_takes_no_reference
    (sortSlice : list pair -> list pair) l1 now n g g' err :
  Acquire sortSlice l1 now n g = (g', inl err) ->
  forall k e, loaded g' !! k = Some e -> loaded g !! k = Some e.
Proof. exact (failed_acquire_lookup sortSlice l1 now n g g' err). Qed.

(** X11: A successful [Acquire] leaves the key it returns in the registry with
    a count above 0 and [lastUsed] at the time of the call; every other
    entry it leaves was there before, unchanged. The counts before the call
    are within the range of [int]. *)
Theorem acquire_pins_the_key
    (sortSlice : list pair -> list pair) l1 now n g g' k :
  Acquire sortSlice l1 now n g = (g', inr k) ->
  bounded (GoInt.maxInt64 - 1) g ->
  (exists e, loaded g' !! k = Some e /\ 0 < refs e /\ lastUsed e = now)
  /\ (forall k' e', k' <> k -> loaded g' !! k' = Some e' ->
        loaded g !! k' = Some e').
Proof.
  intros H Hb.
  assert (exists gx sn,
             g' = retain k sn now gx
             /\ forall k' e, loaded gx !! k' = Some e -> loaded g !! k' = Some e)
    as (gx & sn & -> & Hsub).
  { unfold Acquire in H.
    destruct (parseSatNum l1) as [pe|sn]; [discriminate|].
    destruct (lookupFails n); [discriminate|].
    destruct (existing n =? -1).
    - destruct (addOrInitSat n) as [k0|]; [|discriminate].
      injection H as <- <-. eexists _, sn. split; [reflexivity|].
      intros k' e Hk. exact (RefFacts.removeVictims_lookup _ _ _ _ Hk).
    - injection H as <- <-. exists g, sn. split; [reflexivity|]. auto. }
  assert (GoInt.maxInt64 = 2 ^ 63 - 1) as Hmax by reflexivity.
  unfold retain. split.
  - destruct (loaded gx !! k) as [e|] eqn:Hk; cbn [loaded withLoaded];
      rewrite lookup_insert_eq; eexists; (split; [reflexivity|]);
      cbn [refs lastUsed]; [|split; [lia|reflexivity]].
    pose proof (Hb k e (Hsub k e Hk)) as Hr.
    rewrite ParseFacts.int64_id by lia. split; [lia|reflexivity].
  - intros k' e' Hne.
    destruct (loaded gx !! k) as [e|]; cbn [loaded withLoaded];
      rewrite lookup_insert_ne by congruence; apply Hsub.
Qed.

End RegistryMore.

(** ** The release closure and the read locks *)

Module ReleaseFacts.

Import GC Notions MoreNotions.

Lemma readers_insert k' k v (l : gmap Z Z) :
  readers k' (<[k := v]> l) = if decide (k' = k) then v else readers k' l.
Proof.
  unfold readers. destruct (decide (k' = k)) as [->|Hne].
  - rewrite lookup_insert_eq. reflexivity.
  - rewrite lookup_insert_ne by congruence. reflexivity.
Qed.

Lemma retain_counted b k sn now g l :
  0 <= b < GoInt.maxInt64 -> bounded b g -> counted g l ->
  counted (retain k sn now g) (RLock k l).
Proof.
  intros Hb Hg Hc k'. unfold RLock. rewrite readers_insert.
  unfold retain. unfold GoInt.maxInt64 in Hb. pose proof (Hc k) as Hk.
  destruct (loaded g !! k) as [e|] eqn:He; cbn [loaded withLoaded];
    destruct (decide (k' = k)) as [->|Hne].
  - rewrite lookup_insert_eq. cbn [refs]. pose proof (Hg k e He).
    rewrite ParseFacts.int64_id by lia. lia.
  - rewrite lookup_insert_ne by congruence. apply Hc.
  - rewrite lookup_insert_eq. cbn [refs]. lia.
  - rewrite lookup_insert_ne by congruence. apply Hc.
Qed.

Lemma removeVictims_counted vs g l :
  counted g l -> counted (fst (removeVictims vs g)) l.
Proof.
  intros Hc k. rewrite RegistryMore.removeVictims_lookup_cases.
  pose proof (Hc k) as Hk.
  destruct (among k vs && shouldRemove k g) eqn:Hr; [|exact Hk].
  apply andb_true_iff in Hr as [_ Hs]. unfold shouldRemove in Hs.
  destruct (loaded g !! k) as [e|]; [|exact Hk].
  apply Z.eqb_eq in Hs. lia.
Qed.

Lemma AcquireLocked_counted sortSlice b l1 now n g l :
  0 <= b < GoInt.maxInt64 -> bounded b g -> counted g l ->
  counted (fst (fst (AcquireLocked sortSlice l1 now n g l)))
    (snd (fst (AcquireLocked sortSlice l1 now n g l))).
Proof.
  intros Hb Hg Hc. unfold AcquireLocked, Acquire.
  destruct (parseSatNum l1) as [pe|sn]; [exact Hc|].
  destruct (lookupFails n); [exact Hc|].
  destruct (existing n =? -1).
  - destruct (addOrInitSat n) as [k|]; cbn [fst snd].
    + apply (retain_counted b); [exact Hb| |].
      * apply RefFacts.removeVictims_bounded. exact Hg.
      * apply removeVictims_counted. exact Hc.
    + apply removeVictims_counted. exact Hc.
  - cbn [fst snd]. apply (retain_counted b); assumption.
Qed.

(** What a call of a closure of [Acquire] does when the readers are
    counted: with [refs > 0] it decrements and gives the read lock back;
    otherwise it leaves the registry as it is and dies in [RUnlock]. *)
Lemma releaser_cases b k now g l :
  b <= GoInt.maxInt64 -> bounded b g -> counted g l ->
  match loaded g !! k with
  | Some e =>
      if 0 <? refs e
      then exists l', releaser k now g l = Released (release k now g) l'
                      /\ counted (release k now g) l'
      else releaser k now g l = FatalRUnlock g
  | None => releaser k now g l = FatalRUnlock g
  end.
Proof.
  intros Hb Hg Hc. unfold releaser, makeReleaser, RUnlock, release.
  pose proof (Hc k) as Hk. unfold GoInt.maxInt64 in Hb.
  destruct (loaded g !! k) as [e|] eqn:He.
  - pose proof (Hg k e He) as Hr.
    destruct (Z.ltb_spec 0 (refs e)) as [Hpos|Hz].
    + rewrite (proj2 (Z.leb_gt _ _)) by lia. eexists. split; [reflexivity|].
      intros k'. rewrite readers_insert. cbn [loaded withLoaded].
      destruct (decide (k' = k)) as [->|Hne].
      * rewrite lookup_insert_eq. cbn [refs].
        rewrite ParseFacts.int64_id by lia. lia.
      * rewrite lookup_insert_ne by congruence. apply Hc.
    + rewrite (proj2 (Z.leb_le _ _)) by lia. reflexivity.
  - rewrite (proj2 (Z.leb_le _ _)) by lia. reflexivity.
Qed.

Section Run.

Variable sortSlice : list pair -> list pair.

Lemma run_counted evs : forall b g l g' l',
  0 <= b -> b + Z.of_nat (length evs) <= GoInt.maxInt64 ->
  bounded b g -> counted g l ->
  run sortSlice evs g l = Released g' l' ->
  bounded (b + Z.of_nat (length evs)) g' /\ counted g' l'.
Proof.
  induction evs as [|ev evs IH]; intros b g l g' l' Hb Hlen Hg Hc H.
  - cbn in H. injection H as <- <-. cbn. rewrite Z.add_0_r. auto.
  - cbn [run length] in *. rewrite Nat2Z.inj_succ in *.
    pose proof (RefFacts.step_bounded sortSlice b ev g l ltac:(lia) Hg) as Hs.
    destruct (step sortSlice ev g l) as [g1 l1|g1] eqn:Hstep; [|discriminate].
    cbn [registryOf] in Hs.
    replace (b + Z.succ (Z.of_nat (length evs)))
      with ((b + 1) + Z.of_nat (length evs)) by lia.
    apply (IH (b + 1) g1 l1); [lia|lia|exact Hs| |exact H].
    destruct ev as [l1' now n|k now|now]; cbn [step] in Hstep.
    + pose proof (AcquireLocked_counted sortSlice b l1' now n g l
                    ltac:(lia) Hg Hc) as Ha.
      destruct (AcquireLocked sortSlice l1' now n g l) as [[ga la] r].
      injection Hstep as <- <-. exact Ha.
    + pose proof (releaser_cases b k now g l ltac:(lia) Hg Hc) as Hr.
      destruct (loaded g !! k) as [e|];
        [destruct (0 <? refs e)|]; try congruence.
      destruct Hr as (lx & Hx & Hcx). rewrite Hx in Hstep.
      injection Hstep as <- <-. exact Hcx.
    + injection Hstep as <- <-. apply removeVictims_counted. exact Hc.
Qed.

(** In every state a run of Acquire, release and sweep events reaches from
    a fresh registry, a further call of a closure of [Acquire] for a key
    whose entry has [refs] at 0, or has gone, leaves the registry as it
    is and ends in the fatal error of [RUnlock]. *)
Lemma over_release_always_fatal mx ttl sw evs g l k now :
  Z.of_nat (length evs) <= GoInt.maxInt64 ->
  run sortSlice evs (NewGC mx ttl sw) ∅ = Released g l ->
  (forall e, loaded g !! k = Some e -> refs e = 0) ->
  releaser k now g l = FatalRUnlock g.
Proof.
  intros Hlen Hrun Hzero.
  assert (counted (NewGC mx ttl sw) ∅) as Hc0.
  { intros k'. unfold readers. cbn. rewrite !lookup_empty. reflexivity. }
  destruct (run_counted evs 0 _ _ _ _ ltac:(lia) ltac:(lia)
              (RefFacts.bounded_NewGC mx ttl sw) Hc0 Hrun) as [Hb Hc].
  pose proof (releaser_cases (0 + Z.of_nat (length evs)) k now g l
                ltac:(lia) Hb Hc) as Hr.
  destruct (loaded g !! k) as [e|]; [|exact Hr].
  rewrite (Hzero e eq_refl) in Hr. exact Hr.
Qed.

End Run.

End ReleaseFacts.

(** ** The registry: room for new satellites *)

Module LruMore.

Import GC Notions MoreNotions.

Section Lru.

Variable sortSlice : list pair -> list pair.
Hypothesis sortSlice_sorts : sorts sortSlice.

Lemma victims_removable need g :
  0 < excessOf need g ->
  let victims := evictLRUIfNeeded sortSlice need g in
  NoDup victims
  /\ Forall (fun v => shouldRemove v g = true) victims
  /\ Z.of_nat (length victims)
     = Z.min (excessOf need g) (Z.of_nat (length (candidates g))).
Proof.
  intros Hpos victims. subst victims.
  rewrite (LruFacts.evictLRUIfNeeded_prefix sortSlice sortSlice_sorts need g Hpos).
  destruct (sortSlice_sorts (candidates g)) as [Hperm _].
  set (sorted := sortSlice (candidates g)) in *.
  set (m := Z.to_nat _). repeat split.
  - pose proof (LruFacts.candidates_NoDup g) as Hnd.
    rewrite <- (Permutation_map pkey Hperm) in Hnd.
    rewrite <- (take_drop m sorted), map_app in Hnd.
    apply NoDup_app in Hnd. tauto.
  - apply Forall_forall. intros v Hin.
    apply list_elem_of_In, in_map_iff in Hin as [[k t] [Hk Hin]].
    cbn in Hk. subst k. apply LruFacts.In_take in Hin.
    apply (Permutation_in _ Hperm), LruFacts.candidates_spec in Hin
      as [e (He & H0 & _)].
    unfold shouldRemove. rewrite He. apply Z.eqb_eq. exact H0.
  - rewrite length_map, length_take, (Permutation_length Hperm).
    subst m. lia.
Qed.

(** X12: The LRU path frees [min excess K] slots, [K] being the number of
    unused entries: with at least [excess] of them, the registry has room
    for the [need] new entries within [maxLoaded]. *)
Theorem evictLRU_makes_room need g :
  let excess := Z.of_nat (size (loaded g)) + need - maxLoaded g in
  let K := Z.of_nat (length (candidates g)) in
  let after := Z.of_nat (size (loaded (fst (evictLRU sortSlice need g)))) in
  GoInt.minInt64 <= excess <= GoInt.maxInt64 ->
  0 < excess ->
  after = Z.of_nat (size (loaded g)) - Z.min excess K
  /\ (excess <= K -> after + need = maxLoaded g).
Proof.
  intros excess K after Hrange Hpos.
  pose proof (LruFacts.excessOf_exact need g Hrange) as Hex. fold excess in Hex.
  destruct (victims_removable need g ltac:(lia)) as (Hnd & Hall & Hlen).
  rewrite Hex in Hlen. fold K in Hlen.
  pose proof (RegistryMore.removeVictims_size _ g Hnd Hall) as Hsz.
  fold (evictLRU sortSlice need g) in Hsz.
  assert (after = Z.of_nat (size (loaded g)) - Z.min excess K) as Ha
    by (subst after; lia).
  split; [exact Ha|]. intros Hle. rewrite Ha, Z.min_l by lia.
  subst excess. lia.
Qed.

End Lru.

End LruMore.

(** ** Draining the registry *)

Module DrainFacts.

Import GC CoreHelpers GCDrain.

(** X13: [RemoveAll] empties the registry only when it returns without error,
    after both native removals went through the gate, in this order, and
    with every permit given back; when it returns an error or does not
    return, the registry is as it was. *)
Theorem RemoveAll_all_or_nothing (N : Type) (lastErrMsg : N -> string)
    (sgp4 tle : N -> Z * N) ticks ctx1 pick1 ctx2 pick2 (w : World N) g :
  let r := RemoveAll lastErrMsg sgp4 tle ticks ctx1 pick1 ctx2 pick2 w g in
  let e := fst (fst (fst r)) in
  let w' := snd (fst (fst r)) in
  let g' := snd (fst r) in
  let ops := snd r in
  e <> DrainPanicked
  /\ (e = DrainReturned None ->
        WaitAllReleased ticks = Some None
        /\ g' = withLoaded g ∅
        /\ ops = [PermitSend; Call; PermitRecv; PermitSend; Call; PermitRecv]
        /\ permits w' = permits w
        /\ fst (sgp4 (native w)) = 0
        /\ fst (tle (snd (sgp4 (native w)))) = 0
        /\ native w' = snd (tle (snd (sgp4 (native w)))))
  /\ (e <> DrainReturned None -> g' = g).
Proof.
  unfold RemoveAll, WithDllCall, gated, permits.
  destruct (WaitAllReleased ticks) as [[err|]|]; cbn;
    [repeat split; try discriminate; congruence| |
     repeat split; try discriminate; congruence].
  set (g0 := ensureGate (curGate w)).
  destruct (sgp4 (native w)) as [rc1 n1] eqn:H1.
  destruct (tle n1) as [rc2 n2] eqn:H2.
  assert (held g0 + 1 - 1 = held g0) as Hh by lia.
  destruct ctx1 as [e1|], (held g0 <? capacity g0), pick1; cbn;
    try (repeat split; try discriminate; congruence);
    destruct (Z.eqb_spec rc1 0) as [->|Hrc1]; cbn;
    try (repeat split; try discriminate; congruence);
    rewrite ?Hh, ?H2; cbn;
    destruct ctx2 as [e2|], (held g0 <? capacity g0), pick2; cbn;
    try (repeat split; try discriminate; congruence);
    destruct (Z.eqb_spec rc2 0) as [->|Hrc2]; cbn;
    try (repeat split; try discriminate; congruence);
    repeat split; try discriminate; try congruence; try lia.
Qed.

Lemma forallb_false {A} (f : A -> bool) l :
  forallb f l = false -> exists x, In x l /\ f x = false.
Proof.
  induction l as [|a l IH]; cbn; [discriminate|].
  destruct (f a) eqn:Ha; cbn.
  - intros H. destruct (IH H) as (x & Hin & Hx). eauto.
  - intros _. eauto.
Qed.

Lemma allZero_spec g :
  allZero g = true <-> forall k e, loaded g !! k = Some e -> refs e <= 0.
Proof.
  unfold allZero. rewrite forallb_forall. split.
  - intros H k e Hk.
    specialize (H (k, e) (proj1 (list_elem_of_In _ _)
                            (proj2 (elem_of_map_to_list _ _ _) Hk))).
    cbn in H. apply negb_true_iff, Z.ltb_ge in H. exact H.
  - intros H [k e] Hin. cbn. apply negb_true_iff, Z.ltb_ge.
    apply (H k). apply elem_of_map_to_list, list_elem_of_In. exact Hin.
Qed.

Lemma allZero_false g :
  allZero g = false -> exists k e, loaded g !! k = Some e /\ 0 < refs e.
Proof.
  unfold allZero. intros H.
  destruct (forallb_false _ _ H) as ([k e] & Hin & Hx). cbn in Hx.
  apply negb_false_iff, Z.ltb_lt in Hx. exists k, e. split; [|exact Hx].
  apply elem_of_map_to_list, list_elem_of_In. exact Hin.
Qed.

(** X14: [WaitAllReleased] returns [nil] exactly at the first tick of its
    ticker that finds no entry with [refs > 0], provided the context was
    not done before: never without a tick, even on an empty registry. *)
Theorem WaitAllReleased_first_quiet_tick ticks :
  WaitAllReleased ticks = Some None
  <-> exists pre g rest,
        ticks = pre ++ TickerFires g :: rest
        /\ (forall k e, loaded g !! k = Some e -> refs e <= 0)
        /\ Forall (fun t => exists g' k e,
                     t = TickerFires g'
                     /\ loaded g' !! k = Some e /\ 0 < refs e) pre.
Proof.
  split.
  - induction ticks as [|[err|g] ticks IH]; cbn [WaitAllReleased];
      try discriminate.
    destruct (allZero g) eqn:Hz.
    + intros _. exists [], g, ticks. split; [reflexivity|].
      split; [apply allZero_spec; exact Hz|constructor].
    + intros H. destruct (IH H) as (pre & g0 & rest & -> & Hq & Hpre).
      exists (TickerFires g :: pre), g0, rest. split; [reflexivity|].
      split; [exact Hq|]. constructor; [|exact Hpre].
      destruct (allZero_false g Hz) as (k & e & Hk & He). eauto 6.
  - intros (pre & g & rest & -> & Hq & Hpre).
    induction Hpre as [|t pre (g' & k & e & -> & Hk & He) _ IH];
      cbn [app WaitAllReleased].
    + rewrite (proj2 (allZero_spec g) Hq). reflexivity.
    + destruct (allZero g') eqn:Hz; [|exact IH].
      pose proof (proj1 (allZero_spec g') Hz k e Hk). lia.
Qed.

End DrainFacts.

(** ** The gate *)

Module GateMore.

Import CoreHelpers.

(** X15: A gate that holds between 0 and [capacity] permits still does after
    [WithDllCall], whatever the outcome, and its capacity is the same;
    with every permit taken, [call] is not invoked. *)
Theorem gate_never_over_capacity (N : Type) (lastErrMsg : N -> string)
    (ctx : option CtxErr) (pick : bool) (call : N -> CallResult * N)
    (w : World N) :
  let g := ensureGate (curGate w) in
  let r := WithDllCall lastErrMsg ctx pick call w in
  let g' := ensureGate (curGate (snd (fst r))) in
  0 <= held g <= capacity g ->
  0 <= held g' <= capacity g'
  /\ capacity g' = capacity g
  /\ (held g = capacity g -> ~ In Call (snd r))
  /\ (In Call (snd r) -> snd r = PermitSend :: Call :: skipn 2 (snd r)).
Proof.
  intros g r g' Hinv. subst r g'. unfold WithDllCall. fold g.
  destruct (held g <? capacity g) eqn:Hroom;
    [apply Z.ltb_lt in Hroom|apply Z.ltb_ge in Hroom].
  - destruct (call (native w)) as [[rc|] n1].
    + destruct ctx as [e|], pick, (rc =? 0); cbn;
        repeat split; try lia; try tauto; intros _ [H|[H|H]]; try discriminate;
        try lia; try contradiction; intuition discriminate.
    + destruct ctx as [e|], pick; cbn;
        repeat split; try lia; try tauto; intros _ [H|[H|H]]; try discriminate;
        try lia; try contradiction.
  - destruct ctx as [e|]; cbn; repeat split; try lia; tauto.
Qed.

End GateMore.

(** ** The native adapter *)

Module AdapterFacts.

Import Dllcore.

(** X16: What [Sgp4GenEphems] returns: [7 * n] doubles for [n >= 0] points; a
    code other than 0 only with no point and [done] unset; with code 0 and
    no point, [done] and the start time handed back; [done] after a chunk
    shorter than [chunkSize]. The code of the C function is dropped when
    it wrote points. *)
Theorem Sgp4GenEphems_shape DYN key s e step ty cs a c call :
  Sgp4GenEphems DYN key s e step ty cs a = (Some c, call) ->
  0 <= n c
  /\ Z.of_nat (length (ephemFlatArr c)) = 7 * n c
  /\ (errCode c <> 0 -> n c = 0 /\ done c = false)
  /\ (errCode c = 0 -> n c = 0 -> done c = true /\ nextStart c = s)
  /\ (0 < n c -> n c < cs -> done c = true)
  /\ (forall rc got buf,
        a = Shim rc got buf -> 0 < GoInt.int32 got ->
        errCode c = 0 /\ n c = GoInt.int32 got).
Proof.
  unfold Sgp4GenEphems. destruct a as [|rc got buf].
  - intros H. injection H as <- <-. cbn.
    repeat split; try lia; try discriminate.
  - cbv zeta.
    destruct (Z.eqb_spec rc 0) as [Hrc|Hrc];
      destruct (Z.eqb_spec (GoInt.int32 got) 0) as [Hg|Hg]; cbn [negb andb];
      destruct (Z.ltb_spec (GoInt.int32 got) 0) as [Hneg|Hpos];
      try discriminate;
      intros H; injection H as <- <-; cbn [n ephemFlatArr errCode done nextStart];
      rewrite ?length_map, ?length_seq;
      (split; [lia|]); (split; [cbn [length]; lia|]);
      (split; [intros He; first [congruence | split; [lia|reflexivity]]|]);
      (split; [intros He Hn; first [congruence | lia | split; reflexivity]|]);
      (split; [intros Hn Hlt;
               first [lia | rewrite (proj2 (Z.ltb_lt _ _) Hlt); reflexivity]|]);
      intros rc' got' buf' Heq Hgot; injection Heq as <- <- <-;
      first [lia | split; reflexivity].
Qed.

Lemma nth_map_seq {A} (f : nat -> A) n i d :
  (i < n)%nat -> nth i (List.map f (seq 0 n)) d = f i.
Proof.
  intros Hi. rewrite (nth_indep _ d (f 0%nat)) by (rewrite length_map, length_seq; lia).
  rewrite (map_nth f (seq 0 n) 0%nat i), seq_nth by lia. reflexivity.
Qed.

(** X17: [goStrToCCharBuf] always fills 512 chars: a string of up to 512 bytes
    whole, padded with NULs, a longer one cut to its first 512 bytes, in
    which case no NUL ends the buffer unless the string has one. *)
Theorem goStrToCCharBuf_shape (input : string) :
  let b := Strings.bytes input in
  let buf := Cgo.goStrToCCharBuf input in
  length buf = 512%nat
  /\ ((length b <= 512)%nat -> buf = b ++ repeat 0 (512 - length b))
  /\ ((512 <= length b)%nat ->
        buf = take 512 b
        /\ (Forall (fun x => x <> 0) b -> Forall (fun x => x <> 0) buf)).
Proof.
  intros b buf.
  assert (length buf = 512%nat) as Hlen
    by (subst buf; unfold Cgo.goStrToCCharBuf; rewrite length_map, length_seq;
        reflexivity).
  assert (forall i, (i < 512)%nat ->
            nth i buf 0 = if (i <? length b)%nat then nth i b 0 else 0) as Hnth.
  { intros i Hi. subst buf. unfold Cgo.goStrToCCharBuf. fold b.
    rewrite nth_map_seq by exact Hi.
    rewrite (proj2 (Z.ltb_lt (Z.of_nat i) 512)) by lia. rewrite andb_true_r.
    destruct (Nat.ltb_spec i (length b)).
    - rewrite (proj2 (Z.ltb_lt _ _)) by lia. reflexivity.
    - rewrite (proj2 (Z.ltb_ge _ _)) by lia. reflexivity. }
  split; [exact Hlen|]. split.
  - intros Hle. apply (nth_ext _ _ 0 0).
    + rewrite Hlen, length_app, repeat_length. lia.
    + intros i Hi. rewrite Hlen in Hi. rewrite Hnth by exact Hi.
      destruct (Nat.ltb_spec i (length b)).
      * rewrite app_nth1 by lia. reflexivity.
      * rewrite app_nth2 by lia. symmetry. apply nth_repeat.
  - intros Hge.
    assert (buf = take 512 b) as Heq.
    { apply (nth_ext _ _ 0 0).
      - rewrite Hlen, length_take. lia.
      - intros i Hi. rewrite Hlen in Hi. rewrite Hnth by exact Hi.
        rewrite (proj2 (Nat.ltb_lt i (length b))) by lia.
        rewrite <- (take_drop 512 b) at 1.
        rewrite app_nth1 by (rewrite length_take; lia). reflexivity. }
    split; [exact Heq|]. intros Hall. rewrite Heq.
    apply Forall_take. exact Hall.
Qed.

End AdapterFacts.

(** ** UTC times *)

Module TimeFacts.

Import Core.

(** From the DS50 epoch to the year 2242 the difference [Sub] returns is
    exact: no wrap-around and no saturation. *)
Lemma Sub_ds50Ref_exact t :
  0 <= nanos t < 1000000000 ->
  ds50Epoch <= seconds t <= 8592263235 ->
  Sub (AsTime t) ds50Ref = (seconds t - ds50Epoch) * 1000000000 + nanos t.
Proof.
  intros Hn Hs. unfold ds50Epoch in Hs.
  assert (2 ^ 63 = 9223372036854775808) as H63 by reflexivity.
  assert (2 ^ 31 = 2147483648) as H31 by reflexivity.
  unfold AsTime, Unix.
  rewrite (ParseFacts.int64_id (seconds t)) by lia.
  rewrite (ParseFacts.int32_id (nanos t)) by lia.
  rewrite (proj2 (Z.ltb_ge (nanos t) 0)) by lia.
  rewrite (proj2 (Z.leb_gt 1000000000 (nanos t))) by lia.
  cbn [orb]. unfold unixToInternal.
  rewrite (ParseFacts.int64_id (seconds t + 62135596800)) by lia.
  rewrite (ParseFacts.int32_id (nanos t)) by lia.
  unfold Sub, ds50Ref, ds50Epoch, unixToInternal. cbn [ext nsec].
  replace (seconds t + 62135596800 - (-631108800 + 62135596800))
    with (seconds t + 631108800) by lia.
  rewrite Z.sub_0_r.
  rewrite (ParseFacts.int64_id (seconds t + 631108800)) by lia.
  rewrite (ParseFacts.int64_id ((seconds t + 631108800) * 1000000000)) by lia.
  rewrite (ParseFacts.int32_id (nanos t)) by lia.
  rewrite (ParseFacts.int64_id ((seconds t + 631108800) * 1000000000 + nanos t))
    by lia.
  set (d := (seconds t + 631108800) * 1000000000 + nanos t).
  assert (Z.quot d 1000000000 = seconds t + 631108800) as Hq.
  { subst d. rewrite Z.quot_div_nonneg by lia.
    rewrite Z.add_comm, Z.div_add by lia. rewrite Z.div_small by lia. lia. }
  assert (Z.rem d 1000000000 = nanos t) as Hr.
  { subst d. rewrite Z.rem_mod_nonneg by lia.
    rewrite Z.add_comm, Z.mod_add by lia. apply Z.mod_small. lia. }
  unfold Add, Equal. cbn [ext nsec]. rewrite Hq, Hr.
  rewrite (ParseFacts.int32_id (nanos t)) by lia. rewrite Z.add_0_l.
  rewrite (ParseFacts.int32_id (nanos t)) by lia.
  rewrite (proj2 (Z.leb_gt 1000000000 (nanos t))) by lia.
  rewrite (proj2 (Z.ltb_ge (nanos t) 0)) by lia.
  cbn [ext nsec]. unfold addSec.
  replace (-631108800 + 62135596800 + (seconds t + 631108800))
    with (seconds t + 62135596800) by lia.
  rewrite (ParseFacts.int64_id (seconds t + 62135596800)) by lia.
  replace (Bool.eqb (-631108800 + 62135596800 <? seconds t + 62135596800)
             (0 <? seconds t + 631108800)) with true.
  2:{ symmetry. apply Bool.eqb_true_iff.
      destruct (Z.ltb_spec (-631108800 + 62135596800) (seconds t + 62135596800)),
        (Z.ltb_spec 0 (seconds t + 631108800)); try reflexivity; lia. }
  rewrite !Z.eqb_refl. cbn. subst d. lia.
Qed.

(** There [UtcToDS50] is the days since the epoch, as [Seconds] rounds
    them. *)
Lemma UtcToDS50_exact t :
  0 <= nanos t < 1000000000 ->
  ds50Epoch <= seconds t <= 8592263235 ->
  UtcToDS50 t
  = ((floatOfZ (seconds t - ds50Epoch) + floatOfZ (nanos t) / 1e9) / 86400)%float.
Proof.
  intros Hn Hs. unfold UtcToDS50. rewrite (Sub_ds50Ref_exact t Hn Hs).
  unfold ds50Epoch in *.
  set (d := (seconds t - -631108800) * 1000000000 + nanos t).
  assert (Z.quot d 1000000000 = seconds t - -631108800) as ->.
  { subst d. rewrite Z.quot_div_nonneg by lia.
    rewrite Z.add_comm, Z.div_add by lia. rewrite Z.div_small by lia. lia. }
  assert (Z.rem d 1000000000 = nanos t) as ->.
  { subst d. rewrite Z.rem_mod_nonneg by lia.
    rewrite Z.add_comm, Z.mod_add by lia. apply Z.mod_small. lia. }
  reflexivity.
Qed.

(** Past the range of [time.Unix] the seconds wrap: the greatest
    timestamp is read as a time before the epoch, and [Sub] saturates. *)
Lemma UtcToDS50_wraps :
  Sub (AsTime (mkTimestamp GoInt.maxInt64 0)) ds50Ref = GoInt.minInt64
  /\ Sub (AsTime (mkTimestamp 9223371974719179007 0)) ds50Ref = GoInt.maxInt64.
Proof. split; vm_compute; reflexivity. Qed.

End TimeFacts.

(** ** Validation and the stream of [Ephem] *)

Module EphemMore.

Import Core CoreHelpers Notions MoreNotions.

Lemma validateSatellite_ok sat :
  validateSatellite sat = None ->
  exists s, sat = Some s /\ TleLn1 s <> EmptyString /\ TleLn2 s <> EmptyString.
Proof.
  unfold validateSatellite. destruct sat as [s|]; [|discriminate].
  destruct (String.eqb_spec (TleLn1 s) ""); [discriminate|].
  destruct (String.eqb_spec (TleLn2 s) ""); [discriminate|].
  intros _. exists s. repeat split; assumption.
Qed.

Lemma step_conflict_off grid :
  negb (String.eqb (GetKnownTimeStepPeriod grid) "")
  && fne (GetKnownTimeStepDs50 grid) 0 = false.
Proof.
  unfold GetKnownTimeStepPeriod, GetKnownTimeStepDs50.
  destruct (StepType grid); try reflexivity. apply andb_false_r.
Qed.

(** X18: [validateGrid] decides on the bounds alone: a UTC bound together with
    a DS50 bound other than 0. Its third check never fires, a grid holds
    one step variant at most. *)
Theorem validateGrid_verdict grid :
  validateGrid grid <> Some ErrStepConflict
  /\ (validateGrid grid = None
      <-> (TimeStartUtc grid = None \/ PrimFloat.eqb (TimeStartDs50 grid) 0 = true)
          /\ (TimeEndUtc grid = None \/ PrimFloat.eqb (TimeEndDs50 grid) 0 = true)).
Proof.
  unfold validateGrid, fne. rewrite step_conflict_off.
  destruct (TimeStartUtc grid), (TimeEndUtc grid);
    destruct (PrimFloat.eqb (TimeStartDs50 grid) 0);
    destruct (PrimFloat.eqb (TimeEndDs50 grid) 0); cbn;
    (split; [discriminate|]); split; try discriminate; try tauto;
    intros [[?|?] [?|?]]; discriminate.
Qed.

Lemma validateTasks_sound common : forall tasks i,
  validateTasks common i tasks = None ->
  forall task, In task tasks ->
    validateSatellite (Sat task) = None
    /\ (isSome common = true \/ isSome (TimeGrid task) = true)
    /\ (forall g, TimeGrid task = Some g -> validateGrid g = None).
Proof.
  induction tasks as [|t rest IH]; intros i H task Hin; [destruct Hin|].
  cbn [validateTasks] in H.
  destruct (validateSatellite (Sat t)) eqn:Hs; [discriminate|].
  destruct (negb (isSome common) && negb (isSome (TimeGrid t))) eqn:Hg;
    [discriminate|].
  destruct (match TimeGrid t with Some g => validateGrid g | None => None end)
    eqn:Hv; [discriminate|].
  destruct Hin as [<-|Hin]; [|exact (IH _ H _ Hin)].
  split; [exact Hs|]. split.
  - destruct (isSome common), (isSome (TimeGrid t)); cbn in Hg;
      try discriminate; auto.
  - intros g Hgrid. rewrite Hgrid in Hv. exact Hv.
Qed.

Lemma validated_tasks_resolve req :
  validateAnalytEphemRequest req = None ->
  forall task, In task (Tasks req) ->
    exists grid, resolveTimeGrid task req = Some grid.
Proof.
  unfold validateAnalytEphemRequest. intros H.
  destruct (Z.of_nat (length (Tasks req)) =? 0); [discriminate|].
  destruct (negb (EphemType req =? Dllcore.EciEphemType)
            && negb (EphemType req =? Dllcore.J2KEphemType)); [discriminate|].
  destruct (match CommonTimeGrid req with
            | Some g => validateGrid g | None => None end); [discriminate|].
  intros task Hin.
  destruct (validateTasks_sound _ _ _ H task Hin) as (_ & Hg & _).
  unfold resolveTimeGrid.
  destruct (TimeGrid task) as [g|]; [exists g; reflexivity|].
  destruct (CommonTimeGrid req) as [g|]; [exists g; reflexivity|].
  destruct Hg; discriminate.
Qed.

(** X19: What a request [validateAnalytEphemRequest] accepts has: a task, the
    frame ECI or J2K, and for every task a satellite with both TLE lines
    and a grid, its own or the common one, whose bounds do not conflict. *)
Theorem validated_request_is_runnable req :
  validateAnalytEphemRequest req = None ->
  Tasks req <> []
  /\ (EphemType req = Dllcore.EciEphemType \/ EphemType req = Dllcore.J2KEphemType)
  /\ forall task, In task (Tasks req) ->
       (exists sat, Sat task = Some sat
                    /\ TleLn1 sat <> EmptyString /\ TleLn2 sat <> EmptyString)
       /\ (exists grid, resolveTimeGrid task req = Some grid
                        /\ validateGrid grid = None).
Proof.
  unfold validateAnalytEphemRequest. intros H.
  destruct (Z.eqb_spec (Z.of_nat (length (Tasks req))) 0) as [|Hlen];
    [discriminate|].
  destruct (Z.eqb_spec (EphemType req) Dllcore.EciEphemType) as [He|He];
    destruct (Z.eqb_spec (EphemType req) Dllcore.J2KEphemType) as [Hj|Hj];
    cbn [negb andb] in H; try discriminate;
    (split; [intros Hnil; rewrite Hnil in Hlen; apply Hlen; reflexivity|]);
    (split; [auto|]);
    destruct (match CommonTimeGrid req with
              | Some g => validateGrid g | None => None end) eqn:Hc;
    try discriminate;
    intros task Hin;
    destruct (validateTasks_sound _ _ _ H task Hin) as (Hs & Hg & Hv);
    (split; [exact (validateSatellite_ok _ Hs)|]);
    unfold resolveTimeGrid;
    (destruct (TimeGrid task) as [g|];
     [exists g; split; [reflexivity|exact (Hv g eq_refl)]|]);
    (destruct (CommonTimeGrid req) as [g|];
     [exists g; split; [reflexivity|exact Hc]
     |destruct Hg; discriminate]).
Qed.

Lemma conversion_nonempty flat pts :
  flatEphemsToEphemDataArr flat = inr pts -> pts <> [].
Proof.
  unfold flatEphemsToEphemDataArr.
  destruct (Z.ltb_spec (Z.of_nat (length flat)) 7) as [|Hlen]; [discriminate|].
  destruct (negb (Z.rem (Z.of_nat (length flat)) 7 =? 0)); [discriminate|].
  intros H. injection H as <-. intros Hnil.
  apply (f_equal (@length _)) in Hnil. rewrite length_map, length_seq in Hnil.
  cbn [length] in Hnil.
  assert (1 <= Z.quot (Z.of_nat (length flat)) 7)
    by (apply Z.quot_le_lower_bound; lia).
  lia.
Qed.

Lemma Sgp4GenEphems_params DYN key s e step ty cs a res call c :
  Dllcore.Sgp4GenEphems DYN key s e step ty cs a = (res, call) ->
  call = Some c ->
  c = {| Dllcore.satKey := key; Dllcore.startTime := s; Dllcore.endTime := e;
         Dllcore.stepSize := Dllcore.shimStep DYN step;
         Dllcore.sgp4Ephem := ty; Dllcore.arrSize := cs |}.
Proof.
  unfold Dllcore.Sgp4GenEphems. destruct a as [|rc got buf].
  - intros H. injection H as <- <-. discriminate.
  - intros H Hc.
    repeat match type of H with
           | (if ?b then _ else _) = _ => destruct b
           end; injection H as <- <-; injection Hc as <-; reflexivity.
Qed.

Lemma chunkLoop_shape DYN req task taskIdx key tEnd step cs :
  forall its chunkID tStart e q calls,
    chunkLoop DYN req task taskIdx key tEnd step cs chunkID tStart its
    = (e, q, calls) ->
    Forall (chunkAt req task taskIdx) q
    /\ Forall (paramsOf key tEnd (Dllcore.shimStep DYN step) (EphemType req)
                 (GoInt.int32 cs)) calls
    /\ (forall c rest, calls = c :: rest -> Dllcore.startTime c = tStart).
Proof.
  induction its as [|it rest IH]; intros chunkID tStart e q calls H.
  - cbn in H. injection H as <- <- <-.
    repeat split; try constructor. discriminate.
  - cbn [chunkLoop] in H.
    destruct (Dllcore.Sgp4GenEphems _ _ _ _ _ _ _ _) as [res call] eqn:HS.
    pose proof (fun c0 => Sgp4GenEphems_params _ _ _ _ _ _ _ _ _ _ c0 HS) as Hpar.
    assert (Forall (paramsOf key tEnd (Dllcore.shimStep DYN step) (EphemType req)
                      (GoInt.int32 cs)) (optList call)) as Hcall.
    { destruct call as [c|]; [|constructor].
      rewrite (Hpar c eq_refl). repeat constructor. }
    assert (forall l c rest', optList call ++ l = c :: rest' ->
              (call = None -> Dllcore.startTime c = tStart) ->
              Dllcore.startTime c = tStart) as Hfirst.
    { intros l c rest' Heq Hnone. destruct call as [c0|]; [|auto].
      cbn in Heq. injection Heq as <- _. rewrite (Hpar c0 eq_refl). reflexivity. }
    assert (call = None -> res <> None -> exists c, res = Some c /\ Dllcore.errCode c = -10)
      as Hmalloc.
    { intros -> _. unfold Dllcore.Sgp4GenEphems in HS.
      destruct (answer it) as [|rc got buf].
      - injection HS as <-. eexists. split; reflexivity.
      - repeat match type of HS with
               | (if ?b then _ else _) = _ => destruct b
               end; discriminate. }
    assert (Forall (chunkAt req task taskIdx) []
            /\ Forall (paramsOf key tEnd (Dllcore.shimStep DYN step)
                         (EphemType req) (GoInt.int32 cs)) (optList call)
            /\ (forall c rest', optList call = c :: rest' ->
                  Dllcore.startTime c = tStart)) as Hstop.
    { split; [constructor|]. split; [exact Hcall|].
      intros c rest' Heq. rewrite <- (app_nil_r (optList call)) in Heq.
      apply (Hfirst _ _ _ Heq). intros ->. discriminate. }
    destruct res as [c|]; [|injection H as <- <- <-; exact Hstop].
    destruct (Dllcore.errCode c =? -10) eqn:Herr;
      [injection H as <- <- <-; exact Hstop|].
    assert (call <> None) as Hsome.
    { intros Hn. destruct (Hmalloc Hn ltac:(discriminate)) as (c' & Hc' & He).
      injection Hc' as <-. rewrite He in Herr. discriminate. }
    destruct (negb (Dllcore.errCode c =? 0) && (Dllcore.n c =? 0)
              && negb (String.eqb (lastError it) ""));
      [injection H as <- <- <-; exact Hstop|].
    assert (forall sent chunkID' e q calls,
              Forall (chunkAt req task taskIdx) sent ->
              (if Dllcore.done c then (Finished None, sent, optList call)
               else
                 let '(e, q, cs0) :=
                   chunkLoop DYN req task taskIdx key tEnd step cs chunkID'
                     (Dllcore.nextStart c) rest in
                 (e, sent ++ q, optList call ++ cs0)) = (e, q, calls) ->
              Forall (chunkAt req task taskIdx) q
              /\ Forall (paramsOf key tEnd (Dllcore.shimStep DYN step)
                           (EphemType req) (GoInt.int32 cs)) calls
              /\ (forall c rest', calls = c :: rest' ->
                    Dllcore.startTime c = tStart)) as Hcont.
    { intros sent chunkID' e0 q0 calls0 Hsent Hk.
      destruct (Dllcore.done c).
      - injection Hk as <- <- <-. split; [exact Hsent|]. apply Hstop.
      - destruct (chunkLoop _ _ _ _ _ _ _ _ chunkID' _ rest)
          as [[e' q'] cs'] eqn:Hrec.
        injection Hk as <- <- <-.
        destruct (IH _ _ _ _ _ Hrec) as (Hq & Hc & _).
        split; [apply Forall_app; split; assumption|].
        split; [apply Forall_app; split; assumption|].
        intros c0 rest' Heq. apply (Hfirst _ _ _ Heq).
        intros Hn. contradiction. }
    destruct (0 <? Dllcore.n c).
    + destruct (buildEphemResponse _ _ _ _ _ _) as [err|r] eqn:Hr;
        [injection H as <- <- <-; exact Hstop|].
      assert (chunkAt req task taskIdx r) as Hchunk.
      { unfold buildEphemResponse in Hr.
        destruct (flatEphemsToEphemDataArr _) as [|pts] eqn:Hf; [discriminate|].
        injection Hr as <-. repeat split. cbn.
        exact (conversion_nonempty _ _ Hf). }
      destruct (send it);
        [|injection H as <- <- <-; exact Hstop
         |injection H as <- <- <-; exact Hstop].
      assert (Forall (chunkAt req task taskIdx) [r]) as Hsent
        by (constructor; [exact Hchunk|constructor]).
      apply (Hcont [r] _ _ _ _ Hsent H).
    + assert (Forall (chunkAt req task taskIdx) []) as Hsent by constructor.
      apply (Hcont [] _ _ _ _ Hsent H).
Qed.

Lemma chunkLoop_no_panic DYN req task taskIdx key tEnd step cs :
  forall its chunkID tStart,
    Forall (fun it => forall rc got buf,
              answer it = Dllcore.Shim rc got buf -> 0 <= GoInt.int32 got) its ->
    fst (fst (chunkLoop DYN req task taskIdx key tEnd step cs chunkID tStart its))
    <> TaskPanic.
Proof.
  induction its as [|it rest IH]; intros chunkID tStart Hall; [discriminate|].
  apply List.Forall_cons_iff in Hall as [Hit Hrest].
  cbn [chunkLoop].
  destruct (Dllcore.Sgp4GenEphems _ _ _ _ _ _ _ _) as [res call] eqn:HS.
  assert (res <> None) as Hres.
  { unfold Dllcore.Sgp4GenEphems in HS.
    destruct (answer it) as [|rc got buf]; [injection HS as <- _; discriminate|].
    specialize (Hit rc got buf eq_refl).
    destruct (negb (rc =? 0) && (GoInt.int32 got =? 0));
      [injection HS as <- _; discriminate|].
    rewrite (proj2 (Z.ltb_ge _ _) Hit) in HS.
    destruct (GoInt.int32 got =? 0); injection HS as <- _; discriminate. }
  destruct res as [c|]; [clear Hres|congruence].
  repeat match goal with
         | |- fst (fst (match ?x with _ => _ end)) <> _ =>
             lazymatch x with
             | chunkLoop _ _ _ _ _ _ _ _ ?c ?t _ =>
                 let Hr := fresh "Hrec" in
                 pose proof (IH c t Hrest) as Hr;
                 destruct x as [[? ?] ?]; cbn [fst] in Hr
             | _ => destruct x
             end
         end;
    cbn [fst]; try discriminate; assumption.
Qed.

Lemma sender_prefix sendFails q : forall i d failed,
  sender sendFails i q = (d, failed) ->
  exists rest,
    q = d ++ rest
    /\ (forall j, (j < length d)%nat -> sendFails (i + j)%nat = false)
    /\ (if failed then rest <> [] /\ sendFails (i + length d)%nat = true
        else rest = []).
Proof.
  induction q as [|r q IH]; intros i d failed H; cbn [sender] in H.
  - injection H as <- <-. exists []. repeat split. intros j Hj. cbn in Hj. lia.
  - destruct (sendFails i) eqn:Hf.
    + injection H as <- <-. exists (r :: q). cbn [length app].
      rewrite Nat.add_0_r. repeat split; [|discriminate|exact Hf].
      intros j Hj. lia.
    + destruct (sender sendFails (S i) q) as [d' f'] eqn:Hs.
      injection H as <- <-.
      destruct (IH _ _ _ Hs) as (rest & Hq & Hsent & Hend).
      exists rest. cbn [length app]. split; [rewrite Hq; reflexivity|]. split.
      * intros [|j] Hj; [rewrite Nat.add_0_r; exact Hf|].
        replace (i + S j)%nat with (S i + j)%nat by lia. apply Hsent. lia.
      * replace (i + S (length d'))%nat with (S i + length d')%nat by lia.
        exact Hend.
Qed.

Section Handler.

Variable Duration : Type.
Variable durationParse : string -> option Duration.
Variable minutes : Duration -> float.
Variable DYN_SS_BASIC : float.
Variable maxChanBytes : Z.

Local Abbreviation run := (runAnalytGenEphems durationParse minutes DYN_SS_BASIC).
Local Abbreviation tasksLoop := (ephemTasks durationParse minutes DYN_SS_BASIC).

(** X20: Every native call [runAnalytGenEphems] makes for a task carries the
    key it was given, the end of the task's grid, the request's frame, the
    chunk size as a 32-bit integer and one step: the engine's own for a
    dynamic grid, and also for a known step of -1 minute. The first call
    starts at the start of the grid. *)
Theorem task_call_parameters req task taskIdx key cs its grid step :
  resolveTimeGrid task req = Some grid ->
  (if isDynamicTimeStep grid then Some (-1)%float
   else getKnownTimeStep durationParse minutes grid) = Some step ->
  let calls := snd (run req task taskIdx key cs its) in
  Forall (fun c =>
            Dllcore.satKey c = key
            /\ Dllcore.endTime c = gridEnd grid
            /\ Dllcore.stepSize c
               = (if PrimFloat.eqb step (-1) then DYN_SS_BASIC else step)
            /\ Dllcore.sgp4Ephem c = EphemType req
            /\ Dllcore.arrSize c = GoInt.int32 cs) calls
  /\ (forall c rest, calls = c :: rest -> Dllcore.startTime c = gridStart grid)
  /\ (isDynamicTimeStep grid = true ->
      Forall (fun c => Dllcore.stepSize c = DYN_SS_BASIC) calls).
Proof.
  intros Hg Hstep calls. subst calls. unfold runAnalytGenEphems.
  rewrite Hg, Hstep.
  destruct (chunkLoop _ _ _ _ _ _ _ _ _ _ _) as [[e q] calls] eqn:Hloop.
  destruct (chunkLoop_shape _ _ _ _ _ _ _ _ _ _ _ _ _ _ Hloop)
    as (_ & Hpar & Hfirst).
  cbn [snd]. split; [exact Hpar|]. split; [exact Hfirst|].
  intros Hdyn. rewrite Hdyn in Hstep. injection Hstep as <-.
  eapply Forall_impl; [exact Hpar|]. cbn. intros c (_ & _ & Hs & _).
  rewrite Hs. reflexivity.
Qed.

Lemma run_no_panic req task taskIdx key cs its grid :
  resolveTimeGrid task req = Some grid ->
  (forall p, StepType grid = KnownTimeStepPeriod p -> durationParse p <> None) ->
  Forall (fun it => forall rc got buf,
            answer it = Dllcore.Shim rc got buf -> 0 <= GoInt.int32 got) its ->
  fst (fst (run req task taskIdx key cs its)) <> TaskPanic.
Proof.
  intros Hg Hp Hits. unfold runAnalytGenEphems. rewrite Hg.
  unfold isDynamicTimeStep, getKnownTimeStep.
  destruct (StepType grid) as [|[|]|p|d] eqn:Hs;
    try (apply chunkLoop_no_panic; exact Hits).
  destruct (durationParse p) eqn:Hd; [|exfalso; exact (Hp p eq_refl Hd)].
  apply chunkLoop_no_panic. exact Hits.
Qed.

Lemma tasksLoop_no_panic req cs : forall tasks envs idx,
  (forall task, In task tasks ->
     exists grid, resolveTimeGrid task req = Some grid
       /\ forall p, StepType grid = KnownTimeStepPeriod p ->
                    durationParse p <> None) ->
  Forall (fun env =>
            Forall (fun it => forall rc got buf,
                      answer it = Dllcore.Shim rc got buf ->
                      0 <= GoInt.int32 got) (iters env)) envs ->
  fst (fst (tasksLoop req cs idx tasks envs)) <> StopPanic.
Proof.
  induction tasks as [|task rest IH]; intros envs idx Ht Henv; [discriminate|].
  cbn [ephemTasks].
  destruct envs as [|env envs']; [discriminate|].
  apply List.Forall_cons_iff in Henv as [Henv0 Henv'].
  destruct (ctxDone env); [discriminate|].
  destruct (acquired env) as [key|]; [|discriminate].
  destruct (Ht task (or_introl eq_refl)) as (grid & Hg & Hp).
  pose proof (run_no_panic req task (Z.of_nat idx) key cs (iters env) grid
                Hg Hp Henv0) as Hrun.
  destruct (runAnalytGenEphems _ _ _ _ _ _ _ _ _) as [[te q1] cs1].
  cbn [fst] in Hrun.
  destruct te as [[err|]| |]; try discriminate; [|congruence].
  pose proof (IH envs' (S idx) (fun t Hin => Ht t (or_intror Hin)) Henv')
    as Hrec.
  destruct (ephemTasks _ _ _ _ _ _ _ _) as [[e2 q2] cs2]. exact Hrec.
Qed.

(** The results channel cannot be made: [Ephem] panics on a valid request
    before any task runs. *)
Lemma Ephem_panics_on_bad_chunk_size req chunkSize envs sendFails :
  validateAnalytEphemRequest req = None ->
  chunkSize < 0 \/ 2 ^ 61 <= chunkSize \/ maxChanBytes < 8 * chunkSize ->
  Ephem durationParse minutes DYN_SS_BASIC maxChanBytes req chunkSize envs sendFails
  = (EphPanic, [], []).
Proof.
  intros Hv Hbad. unfold Ephem, makechanPanics. rewrite Hv.
  assert (2 ^ 64 = 8 * 2 ^ 61) as H64 by reflexivity.
  destruct Hbad as [Hneg|[Hof|Hbig]].
  - rewrite (proj2 (Z.ltb_lt _ _) Hneg). reflexivity.
  - rewrite (proj2 (Z.leb_le (2 ^ 64) (8 * chunkSize))) by lia.
    rewrite orb_true_r. reflexivity.
  - rewrite (proj2 (Z.ltb_lt _ _) Hbig), orb_true_r. reflexivity.
Qed.

(** X21: [Ephem] does not panic when the chunk size is one the runtime
    makes a channel of, not negative and within the limit on its bytes,
    every known period of the request parses, and the native generator
    never reports a negative point count. *)
Theorem Ephem_never_panics req chunkSize envs sendFails :
  0 <= chunkSize < 2 ^ 61 -> 8 * chunkSize <= maxChanBytes ->
  (forall task grid p,
      In task (Tasks req) -> resolveTimeGrid task req = Some grid ->
      StepType grid = KnownTimeStepPeriod p -> durationParse p <> None) ->
  Forall (fun env =>
            Forall (fun it => forall rc got buf,
                      answer it = Dllcore.Shim rc got buf ->
                      0 <= GoInt.int32 got) (iters env)) envs ->
  fst (fst (Ephem durationParse minutes DYN_SS_BASIC maxChanBytes req chunkSize
              envs sendFails))
  <> EphPanic.
Proof.
  intros Hpos Hfits Hp Henv. unfold Ephem, makechanPanics.
  destruct (validateAnalytEphemRequest req) as [e|] eqn:Hv; [discriminate|].
  assert (2 ^ 64 = 8 * 2 ^ 61) as H64 by reflexivity.
  rewrite (proj2 (Z.ltb_ge chunkSize 0)) by lia.
  rewrite (proj2 (Z.leb_gt (2 ^ 64) (8 * chunkSize))) by lia.
  rewrite (proj2 (Z.ltb_ge maxChanBytes (8 * chunkSize))) by lia.
  cbn [orb].
  pose proof (validated_tasks_resolve req Hv) as Hrun.
  assert (fst (fst (tasksLoop req chunkSize 0%nat (Tasks req) envs)) <> StopPanic)
    as Hloop.
  { apply tasksLoop_no_panic; [|exact Henv].
    intros task Hin. destruct (Hrun task Hin) as (grid & Hg).
    exists grid. split; [exact Hg|]. intros p. exact (Hp task grid p Hin Hg). }
  destruct (ephemTasks _ _ _ _ _ _ _ _) as [[te queued] cs].
  destruct (sender sendFails 0 queued) as [d failed]. cbn [fst] in *.
  destruct te, failed; try discriminate; congruence.
Qed.

Lemma tasksLoop_chunks req cs : forall tasks envs idx,
  Forall (fun r =>
            RespReqId r = ReqId req
            /\ EphemData (Result r) <> []
            /\ exists j task,
                 nth_error tasks j = Some task
                 /\ StreamId r = GoInt.int64 (Z.of_nat (idx + j))
                 /\ OutTaskId (Result r) = TaskId task)
    (snd (fst (tasksLoop req cs idx tasks envs))).
Proof.
  induction tasks as [|task rest IH]; intros envs idx; [constructor|].
  cbn [ephemTasks].
  destruct envs as [|env envs']; [constructor|].
  destruct (ctxDone env); [constructor|].
  destruct (acquired env) as [key|]; [|constructor].
  destruct (runAnalytGenEphems _ _ _ _ _ _ _ _ _) as [[te q1] cs1] eqn:Hrun.
  assert (Forall (chunkAt req task (Z.of_nat idx)) q1) as Hq1.
  { unfold runAnalytGenEphems in Hrun.
    destruct (resolveTimeGrid task req) as [grid|];
      [|injection Hrun as <- <- <-; constructor].
    destruct (if isDynamicTimeStep grid then _ else _) as [step|];
      [|injection Hrun as <- <- <-; constructor].
    exact (proj1 (chunkLoop_shape _ _ _ _ _ _ _ _ _ _ _ _ _ _ Hrun)). }
  assert (Forall (fun r =>
            RespReqId r = ReqId req
            /\ EphemData (Result r) <> []
            /\ exists j task0,
                 nth_error (task :: rest) j = Some task0
                 /\ StreamId r = GoInt.int64 (Z.of_nat (idx + j))
                 /\ OutTaskId (Result r) = TaskId task0) q1) as Hhere.
  { eapply Forall_impl; [exact Hq1|]. cbn beta.
    intros r (Hid & Hsid & Htid & Hne).
    split; [exact Hid|]. split; [exact Hne|].
    exists 0%nat, task. rewrite Nat.add_0_r. repeat split; assumption. }
  destruct te as [[err|]| |]; cbn [fst snd]; try exact Hhere.
  pose proof (IH envs' (S idx)) as Hrec.
  destruct (ephemTasks _ _ _ _ _ _ _ _) as [[e2 q2] cs2].
  cbn [fst snd] in *. apply Forall_app. split; [exact Hhere|].
  eapply Forall_impl; [exact Hrec|]. cbn beta.
  intros r (Hid & Hne & j & task0 & Hnth & Hsid & Htid).
  split; [exact Hid|]. split; [exact Hne|].
  exists (S j), task0. cbn [nth_error].
  replace (idx + S j)%nat with (S idx + j)%nat by lia.
  repeat split; assumption.
Qed.

(** X22: Whatever way [Ephem] ends, each chunk it delivered carries the id of
    the request, at least one point, and as stream id the position of one
    of the request's tasks, whose task id it echoes. *)
Theorem delivered_chunks_name_their_task req chunkSize envs sendFails :
  Forall (chunkOf req)
    (snd (fst (Ephem durationParse minutes DYN_SS_BASIC maxChanBytes req chunkSize envs
                 sendFails))).
Proof.
  unfold Ephem.
  destruct (validateAnalytEphemRequest req); [constructor|].
  destruct (makechanPanics maxChanBytes chunkSize); [constructor|].
  pose proof (tasksLoop_chunks req chunkSize (Tasks req) envs 0) as Hq.
  destruct (ephemTasks _ _ _ _ _ _ _ _) as [[te queued] cs].
  destruct (sender sendFails 0 queued) as [d failed] eqn:Hs.
  cbn [fst snd] in *.
  destruct (sender_prefix _ _ _ _ _ Hs) as (rest & -> & _).
  apply Forall_app in Hq as [Hd _]. exact Hd.
Qed.

(** X23: When [Ephem] returns on a valid request, the chunks delivered are the
    chunks queued up to the first [Send] that fails. A failed [Send] is
    never reported as success nor as the error of a task, and the send
    error is returned only if a [Send] failed. *)
Theorem Ephem_delivers_until_send_fails req chunkSize envs sendFails e
    delivered calls :
  validateAnalytEphemRequest req = None ->
  Ephem durationParse minutes DYN_SS_BASIC maxChanBytes req chunkSize envs sendFails
  = (e, delivered, calls) ->
  e <> EphPanic -> e <> EphPending ->
  exists rest,
    snd (fst (tasksLoop req chunkSize 0%nat (Tasks req) envs)) = delivered ++ rest
    /\ (forall j, (j < length delivered)%nat -> sendFails j = false)
    /\ (rest <> [] ->
        sendFails (length delivered) = true
        /\ e <> EphOk /\ forall err, e <> EphTask err)
    /\ (e = EphSend -> rest <> []).
Proof.
  intros Hv. unfold Ephem. rewrite Hv.
  destruct (makechanPanics maxChanBytes chunkSize);
    [intros H Hnp; injection H as <- _ _; contradiction|].
  destruct (ephemTasks _ _ _ _ _ _ _ _) as [[te queued] cs].
  destruct (sender sendFails 0 queued) as [d failed] eqn:Hs.
  intros H _ _. injection H as <- <- <-. cbn [fst snd].
  destruct (sender_prefix _ _ _ _ _ Hs) as (rest & Hq & Hsent & Hend).
  exists rest. split; [exact Hq|]. split; [exact Hsent|].
  destruct failed.
  - destruct Hend as [Hne Hf]. split.
    + intros _. split; [exact Hf|]. destruct te; split; try discriminate;
        intros err0; discriminate.
    + intros _. exact Hne.
  - subst rest. split; [congruence|]. destruct te; discriminate.
Qed.

End Handler.

End EphemMore.

(** ** The handler [Prop] *)

Module PropFacts.

Import GC CoreHelpers Core Notions MoreNotions PropHandler.

Lemma retain_release_refs k sn t1 t2 g :
  bounded (GoInt.maxInt64 - 1) g ->
  forall k' e', loaded (release k t2 (retain k sn t1 g)) !! k' = Some e' ->
    refs e' = 0 \/ exists e, loaded g !! k' = Some e /\ refs e' = refs e.
Proof.
  intros Hb k' e'. unfold retain, release.
  assert (GoInt.maxInt64 = 2 ^ 63 - 1) as Hmax by reflexivity.
  destruct (loaded g !! k) as [e|] eqn:Hk; cbn [loaded withLoaded];
    rewrite lookup_insert_eq; cbn [refs key satNum lastUsed].
  - pose proof (Hb k e Hk) as Hr.
    rewrite (ParseFacts.int64_id (refs e + 1)) by lia.
    rewrite (proj2 (Z.ltb_lt 0 (refs e + 1))) by lia.
    cbn [loaded withLoaded]. rewrite insert_insert_eq.
    destruct (Z.eq_dec k' k) as [->|Hne].
    + rewrite lookup_insert_eq. intros [= <-]. right. exists e.
      cbn [refs]. rewrite ParseFacts.int64_id by lia. split; [exact Hk|lia].
    + rewrite lookup_insert_ne by congruence. intros H. right. eauto.
  - cbn [Z.ltb Z.compare loaded withLoaded]. rewrite insert_insert_eq.
    destruct (Z.eq_dec k' k) as [->|Hne].
    + rewrite lookup_insert_eq. intros [= <-]. left. reflexivity.
    + rewrite lookup_insert_ne by congruence. intros H. right. eauto.
Qed.

Lemma Acquire_ok sortSlice l1 now n g g1 k :
  Acquire sortSlice l1 now n g = (g1, inr k) ->
  exists gx sn,
    g1 = retain k sn now gx
    /\ forall k' e, loaded gx !! k' = Some e -> loaded g !! k' = Some e.
Proof.
  unfold Acquire. intros H.
  destruct (parseSatNum l1) as [pe|sn]; [discriminate|].
  destruct (lookupFails n); [discriminate|].
  destruct (existing n =? -1).
  - destruct (addOrInitSat n) as [k0|]; [|discriminate].
    injection H as <- <-. eexists _, sn. split; [reflexivity|].
    intros k' e Hk. exact (RefFacts.removeVictims_lookup _ _ _ _ Hk).
  - injection H as <- <-. exists g, sn. split; [reflexivity|]. auto.
Qed.

Lemma bounded_sub b g gx :
  bounded b g ->
  (forall k e, loaded gx !! k = Some e -> loaded g !! k = Some e) ->
  bounded b gx.
Proof. intros Hb Hsub k e Hk. exact (Hb k e (Hsub k e Hk)). Qed.

Section Handler.

Variable TimeMse TimeDs50 : Z.
Variable N : Type.
Variable lastErrMsg : N -> string.
Variable propAll : Z -> Z -> float -> N -> Z * (nat -> float) * N.
Variable sortSlice : list pair -> list pair.

Local Abbreviation validate := (validatePropRequest TimeMse TimeDs50).
Local Abbreviation handler :=
  (Prop_ TimeMse TimeDs50 N lastErrMsg propAll sortSlice).

Lemma validatePropRequest_cases req :
  validate req <> Some ErrTimeMissing
  /\ (validate req = None
      <-> exists task sat,
            PTask req = Some task /\ PSat task = Some sat
            /\ TleLn1 sat <> EmptyString /\ TleLn2 sat <> EmptyString
            /\ (PTimeType req = TimeMse \/ PTimeType req = TimeDs50)
            /\ (PTimeUtc task = None \/ PrimFloat.ltb 0 (PTime task) = false)).
Proof.
  unfold validatePropRequest.
  destruct (PTask req) as [task|] eqn:Htask.
  2:{ split; [discriminate|]. split; [discriminate|].
      intros (t & s & H & _). discriminate. }
  unfold validateSatellite.
  destruct (PSat task) as [sat|] eqn:Hsat.
  2:{ split; [discriminate|]. split; [discriminate|].
      intros (t & s & [= <-] & H & _). congruence. }
  destruct (String.eqb_spec (TleLn1 sat) "") as [H1|H1].
  { split; [discriminate|]. split; [discriminate|].
    intros (t & s & [= <-] & Hs & H & _). congruence. }
  destruct (String.eqb_spec (TleLn2 sat) "") as [H2|H2].
  { split; [discriminate|]. split; [discriminate|].
    intros (t & s & [= <-] & Hs & _ & H & _). congruence. }
  destruct (Z.eqb_spec (PTimeType req) TimeMse) as [Hm|Hm];
    destruct (Z.eqb_spec (PTimeType req) TimeDs50) as [Hd|Hd];
    cbn [negb andb];
    destruct (PTimeUtc task) as [t|] eqn:Hutc; cbn [isSome negb andb];
    try destruct (PrimFloat.ltb 0 (PTime task)) eqn:Hpos;
    (split; [discriminate|]); split; try discriminate;
    try (intros _; exists task, sat; repeat split; auto; fail);
    intros (t' & s' & [= <-] & _ & _ & _ & Hty & Htime);
    destruct Hty, Htime; congruence.
Qed.

(** X25: [validatePropRequest] accepts exactly the requests with a task, a
    satellite with both TLE lines, the time type MSE or DS50, and no
    positive time beside a UTC time. Its last check never fires: a request
    that gives no time at all, UTC or other, is accepted. *)
Theorem validatePropRequest_verdict req :
  validatePropRequest TimeMse TimeDs50 req <> Some ErrTimeMissing
  /\ (validatePropRequest TimeMse TimeDs50 req = None
      <-> exists task sat,
            PTask req = Some task /\ PSat task = Some sat
            /\ TleLn1 sat <> EmptyString /\ TleLn2 sat <> EmptyString
            /\ (PTimeType req = TimeMse \/ PTimeType req = TimeDs50)
            /\ (PTimeUtc task = None \/ PrimFloat.ltb 0 (PTime task) = false)).
Proof. exact (validatePropRequest_cases req). Qed.

Lemma WithDllCall_propCode ctx pick c (w : World N) out w1 ops :
  WithDllCall lastErrMsg ctx pick (propCode N propAll c) w = (out, w1, ops) ->
  out <> Panicked
  /\ (ops <> [] -> In Call ops)
  /\ (out = Returned None ->
      exists rc o n',
        propAll (callKey c) (callTimeType c) (callTime c) (native w) = (rc, o, n')
        /\ GoInt.int32 rc = 0 /\ native w1 = n' /\ permits w1 = permits w).
Proof.
  unfold WithDllCall, propCode, permits, Cgo.Sgp4PropAll.
  destruct (propAll (callKey c) (callTimeType c) (callTime c) (native w))
    as [[rc o] n'] eqn:Hp.
  set (g0 := ensureGate (curGate w)).
  assert (held g0 + 1 - 1 = held g0) as Hh by lia.
  destruct (Z.eqb_spec (GoInt.int32 rc) 0) as [Hrc|Hrc]; cbn [negb snd];
    destruct ctx as [e|], (held g0 <? capacity g0), pick; cbn;
    try rewrite (proj2 (Z.eqb_neq _ _) Hrc); cbn;
    intros H; injection H as <- <- <-;
    (split; [discriminate|]);
    (split; [intros Hne; first [congruence | cbn; tauto]|]);
    try discriminate;
    intros _; exists rc, o, n'; cbn; repeat split; auto.
Qed.

(** [Prop] answers [InvalidArgument] exactly when validation fails, and
    then touches neither the registry nor the gate nor the native library.
    It never unwinds with a panic of the gated closure. *)
Theorem Prop_rejects_without_effect ctx pick acquireAt releaseAt catalog load
    req g w0 :
  let r := handler ctx pick acquireAt releaseAt catalog load req g w0 in
  (forall e, fst (fst (fst r)) = PropReturned (inl (PInvalidArgument e))
             <-> validate req = Some e)
  /\ (validate req <> None -> r = (fst (fst (fst r)), g, w0, None))
  /\ fst (fst (fst r)) <> PropPanicked.
Proof.
  intros r. subst r. unfold Prop_.
  destruct (validate req) as [e0|] eqn:Hv.
  { cbn. repeat split; first [congruence | discriminate]. }
  destruct (proj1 (proj2 (validatePropRequest_cases req)) Hv)
    as (task & sat & Htask & _).
  rewrite Htask.
  destruct (Acquire _ _ _ _ _) as [g1 [err|k]].
  { cbn. repeat split; first [congruence | discriminate]. }
  match goal with
  | |- context [WithDllCall ?l ?c ?p ?f ?w] =>
      destruct (WithDllCall l c p f w) as [[out w1] ops] eqn:Hcall
  end.
  destruct (WithDllCall_propCode _ _ _ _ _ _ _ Hcall) as (Hnp & _).
  destruct out as [|[err|]|]; cbn; try contradiction;
    repeat split; first [congruence | discriminate].
Qed.

(** X26: When [Prop] returns, it has released what it acquired: every entry of
    the registry is at the count it had before the call, or at 0. The
    counts before the call are within the range of [int]. *)
Theorem Prop_leaves_no_reference ctx pick acquireAt releaseAt catalog load
    req g w0 e g' w' call :
  handler ctx pick acquireAt releaseAt catalog load req g w0 = (e, g', w', call) ->
  e <> PropPending ->
  bounded (GoInt.maxInt64 - 1) g ->
  forall k e', loaded g' !! k = Some e' ->
    refs e' = 0 \/ exists e0, loaded g !! k = Some e0 /\ refs e' = refs e0.
Proof.
  unfold Prop_. intros H Hret Hb k e' Hk.
  destruct (validate req) as [e0|];
    [injection H as <- <- <- <-; right; eauto|].
  destruct (PTask req) as [task|];
    [|injection H as <- <- <- <-; right; eauto].
  destruct (Acquire _ _ _ _ _) as [g1 [err|key]] eqn:Ha.
  { injection H as <- <- <- <-. right. exists e'. split; [|reflexivity].
    exact (RegistryMore.failed_acquire_lookup _ _ _ _ _ _ _ Ha k e' Hk). }
  destruct (Acquire_ok _ _ _ _ _ _ _ Ha) as (gx & sn & -> & Hsub).
  assert ((refs e' = 0
           \/ exists e0, loaded gx !! k = Some e0 /\ refs e' = refs e0)
          -> refs e' = 0
             \/ exists e0, loaded g !! k = Some e0 /\ refs e' = refs e0)
    as Hlift.
  { intros [H0|(e0 & He0 & Hr)]; [left; exact H0|right; eauto]. }
  pose proof (retain_release_refs key sn acquireAt releaseAt gx
                (bounded_sub _ _ _ Hb Hsub) k e') as Hrr.
  match type of H with
  | context [WithDllCall ?l ?c ?p ?f ?w] =>
      destruct (WithDllCall l c p f w) as [[out w1] ops]
  end.
  destruct out as [|[err|]|]; injection H as <- <- <- <-;
    try congruence; exact (Hlift (Hrr Hk)).
Qed.

(** X27: When [Prop] calls the C function [Sgp4PropAll], it is for the key
    [Acquire] returned. A UTC time, when the task has one, replaces the
    time of the request: the call is made in DS50 with the converted time.
    Otherwise the time and the time type of the request are passed on, the
    type being MSE or DS50. *)
Theorem Prop_call_arguments ctx pick acquireAt releaseAt catalog load
    req g w0 e g' w' c :
  handler ctx pick acquireAt releaseAt catalog load req g w0
  = (e, g', w', Some c) ->
  exists task sat,
    PTask req = Some task /\ PSat task = Some sat
    /\ snd (Acquire sortSlice (TleLn1 sat) acquireAt catalog g) = inr (callKey c)
    /\ match PTimeUtc task with
       | Some t =>
           callTimeType c = TimeDs50 /\ callTime c = UtcToDS50 t
           /\ PrimFloat.ltb 0 (PTime task) = false
       | None =>
           callTimeType c = PTimeType req /\ callTime c = PTime task
           /\ (PTimeType req = TimeMse \/ PTimeType req = TimeDs50)
       end.
Proof.
  unfold Prop_. intros H.
  destruct (validate req) as [e0|] eqn:Hv; [discriminate|].
  destruct (proj1 (proj2 (validatePropRequest_cases req)) Hv)
    as (task & sat & Htask & Hsat & _ & _ & Hty & Htime).
  rewrite Htask, Hsat in H. exists task, sat.
  split; [exact Htask|]. split; [exact Hsat|].
  destruct (Acquire _ _ _ _ _) as [g1 [err|key]]; [discriminate|].
  match type of H with
  | context [WithDllCall ?l ?x ?p ?f ?w] =>
      destruct (WithDllCall l x p f w) as [[out w1] ops]
  end.
  assert (c = match PTimeUtc task with
              | Some t => {| callKey := key; callTimeType := TimeDs50;
                             callTime := UtcToDS50 t |}
              | None => {| callKey := key; callTimeType := PTimeType req;
                           callTime := PTime task |}
              end) as ->.
  { destruct out as [|[err|]|]; try discriminate;
      [destruct ops; [discriminate|]| |]; injection H as _ _ _ <-; reflexivity. }
  destruct (PTimeUtc task) as [t|]; cbn [callKey callTimeType callTime snd].
  - destruct Htime as [|Htime]; [discriminate|]. auto.
  - auto.
Qed.

(** X28: A response of [Prop] echoes the id of the request and carries the
    first eight doubles the C function wrote, in the order DS50 time, MSE
    time, position, velocity. There is one only when the function returned
    0 as a C [int]; the permit taken for the call is given back. *)
Theorem Prop_response ctx pick acquireAt releaseAt catalog load
    req g w0 resp g' w' call :
  handler ctx pick acquireAt releaseAt catalog load req g w0
  = (PropReturned (inr resp), g', w', call) ->
  RReqId resp = PReqId req
  /\ permits w' = permits w0
  /\ exists c rc out n',
       call = Some c
       /\ propAll (callKey c) (callTimeType c) (callTime c) (load (native w0))
          = (rc, out, n')
       /\ GoInt.int32 rc = 0
       /\ native w' = n'
       /\ RResult resp
          = {| Ds50Time := out 0%nat; MseTime := out 1%nat;
               X := out 2%nat; Y := out 3%nat; Z_ := out 4%nat;
               Vx := out 5%nat; Vy := out 6%nat; Vz := out 7%nat |}.
Proof.
  unfold Prop_. intros H.
  destruct (validate req) as [e0|]; [discriminate|].
  destruct (PTask req) as [task|]; [|discriminate].
  destruct (Acquire _ _ _ _ _) as [g1 [err|key]]; [discriminate|].
  match type of H with
  | context [WithDllCall ?l ?x ?p ?f ?w] =>
      destruct (WithDllCall l x p f w) as [[out w1] ops] eqn:Hcall
  end.
  destruct (WithDllCall_propCode _ _ _ _ _ _ _ Hcall) as (_ & _ & Hok).
  destruct out as [|[err|]|]; try discriminate.
  destruct (Hok eq_refl) as (rc & o & n' & Hp & Hrc & Hn & Hperm).
  injection H as <- <- <- <-. cbn [RReqId RResult native] in *.
  split; [reflexivity|]. split; [exact Hperm|].
  eexists _, rc, o, n'. split; [reflexivity|]. split; [exact Hp|].
  split; [exact Hrc|]. split; [exact Hn|].
  unfold propResult. rewrite Hp. unfold Cgo.Sgp4PropAll. rewrite Hrc.
  reflexivity.
Qed.

End Handler.

End PropFacts.

(** ** The configuration *)

Module ConfigFacts.

Import Config.

Section Build.

Variable LookupEnv : string -> option string.
Variable ParseDuration : string -> option Z.

(** [time.ParseDuration] on the three default durations. *)
Hypothesis parse_10s :
  ParseDuration Values.DefaultGracefulStopTimeoutSec = Some 10000000000.
Hypothesis parse_10m :
  ParseDuration Values.DefaultIdleTTLGcMin = Some GC.DefaultIdleTTLGcMin.
Hypothesis parse_5m :
  ParseDuration Values.DefaultSweepIntervalGcMin
  = Some GC.DefaultSweepIntervalGcMin.

Local Abbreviation build := (buildConfig LookupEnv ParseDuration).

Lemma overrides_gc cfg cfg' :
  overrides LookupEnv ParseDuration cfg = Some cfg' ->
  0 < StreamChunkSize cfg' /\ 0 < GracefulStopTimeoutSec cfg'
  /\ exists gc,
       GC_ cfg' = Some gc
       /\ 0 < MaxLoadedSatsGc gc /\ 0 < IdleTTLGcMin gc
       /\ (SweepIntervalGcMin gc <= 0 ->
           IdleTTLGcMin gc = GC.DefaultSweepIntervalGcMin).
Proof.
  unfold overrides, durationOrZero. rewrite parse_10s, parse_10m, parse_5m.
  destruct (GC_ cfg) as [gc|]; [|discriminate].
  set (chunk := envInt _ Values.StreamChunkSizeEnvKey _).
  set (stop := envDuration _ _ Values.GracefulStopTimeoutSecEnvKey _).
  set (maxLoaded := envInt _ Values.MaxLoadedSatsGcEnvKey _).
  set (idle := envDuration _ _ Values.IdleTTLGcMinEnvKey _).
  set (sweep := envDuration _ _ Values.SweepIntervalGcMinEnvKey _).
  assert (0 < (if chunk <=? 0 then Values.DefaultStreamChunkSize else chunk)
          /\ 0 < (if stop <=? 0 then 10000000000 else stop)
          /\ 0 < (if maxLoaded <=? 0 then Values.DefaultMaxLoadedSatsGc
                  else maxLoaded)
          /\ 0 < (if sweep <=? 0 then GC.DefaultSweepIntervalGcMin
                  else if idle <=? 0 then GC.DefaultIdleTTLGcMin else idle)
          /\ (sweep <= 0 ->
              (if sweep <=? 0 then GC.DefaultSweepIntervalGcMin
               else if idle <=? 0 then GC.DefaultIdleTTLGcMin else idle)
              = GC.DefaultSweepIntervalGcMin)) as (H1 & H2 & H3 & H4 & H5).
  { unfold Values.DefaultStreamChunkSize, Values.DefaultMaxLoadedSatsGc,
      GC.DefaultSweepIntervalGcMin, GC.DefaultIdleTTLGcMin.
    destruct (Z.leb_spec chunk 0), (Z.leb_spec stop 0),
      (Z.leb_spec maxLoaded 0), (Z.leb_spec sweep 0), (Z.leb_spec idle 0);
      repeat split; lia. }
  destruct (TLS cfg) as [tls|]; [|destruct (writesTLS LookupEnv); [discriminate|]];
    intros H; injection H as <-;
    cbn [StreamChunkSize GracefulStopTimeoutSec GC_];
    (split; [exact H1|]); (split; [exact H2|]);
    eexists; (split; [reflexivity|]);
    cbn [MaxLoadedSatsGc IdleTTLGcMin SweepIntervalGcMin];
    (split; [exact H3|]); (split; [exact H4|exact H5]).
Qed.

Lemma build_overrides file cfg :
  build file = Some (inr cfg) ->
  exists cfg0, overrides LookupEnv ParseDuration cfg0 = Some cfg.
Proof.
  unfold buildConfig. destruct file as [| | |decode]; try discriminate.
  - destruct (overrides _ _ _) as [c|] eqn:H; [|discriminate].
    intros [= <-]. eauto.
  - destruct (overrides _ _ _) as [c|] eqn:H; [|discriminate].
    intros [= <-]. eauto.
Qed.

(** X29: Whatever the file and the environment hold, a configuration
    [buildConfig] returns has a positive chunk size, stop timeout, registry
    size and idle TTL, and the registry [NewGCFromConfig] builds from it is
    empty with these limits and a positive sweep interval. *)
Theorem built_config_is_usable file cfg :
  build file = Some (inr cfg) ->
  0 < StreamChunkSize cfg /\ 0 < GracefulStopTimeoutSec cfg
  /\ exists gc g,
       GC_ cfg = Some gc /\ NewGCFromConfig cfg = Some g
       /\ GC.loaded g = ∅
       /\ GC.maxLoaded g = MaxLoadedSatsGc gc /\ 0 < GC.maxLoaded g
       /\ GC.idleTTL g = IdleTTLGcMin gc /\ 0 < GC.idleTTL g
       /\ 0 < GC.sweepInterval g.
Proof.
  intros H. destruct (build_overrides _ _ H) as (cfg0 & Ho).
  destruct (overrides_gc _ _ Ho) as (H1 & H2 & gc & Hgc & H3 & H4 & _).
  split; [exact H1|]. split; [exact H2|].
  unfold NewGCFromConfig. rewrite Hgc. eexists gc, _.
  split; [reflexivity|]. split; [reflexivity|].
  unfold GC.NewGC. cbn [GC.loaded GC.maxLoaded GC.idleTTL GC.sweepInterval].
  rewrite (proj2 (Z.ltb_ge _ _)) by lia.
  rewrite (proj2 (Z.leb_gt _ _) H4).
  repeat split; try assumption.
  unfold GC.DefaultSweepIntervalGcMin.
  destruct (Z.leb_spec (SweepIntervalGcMin gc) 0); lia.
Qed.

(** X30: A sweep interval of 0 or less, from the file or the environment, is
    not replaced by its default: [buildConfig] overwrites the idle TTL with
    the default sweep interval instead, whatever idle TTL was configured.
    The registry then runs with both at five minutes. *)
Theorem nonpositive_sweep_interval_resets_idle_ttl file cfg gc :
  build file = Some (inr cfg) ->
  GC_ cfg = Some gc ->
  SweepIntervalGcMin gc <= 0 ->
  IdleTTLGcMin gc = GC.DefaultSweepIntervalGcMin
  /\ exists g,
       NewGCFromConfig cfg = Some g
       /\ GC.idleTTL g = GC.DefaultSweepIntervalGcMin
       /\ GC.sweepInterval g = GC.DefaultSweepIntervalGcMin.
Proof.
  intros H Hgc Hs. destruct (build_overrides _ _ H) as (cfg0 & Ho).
  destruct (overrides_gc _ _ Ho) as (_ & _ & gc' & Hgc' & _ & _ & Hidle).
  rewrite Hgc in Hgc'. injection Hgc' as <-.
  specialize (Hidle Hs). split; [exact Hidle|].
  unfold NewGCFromConfig. rewrite Hgc. eexists. split; [reflexivity|].
  unfold GC.NewGC. cbn [GC.idleTTL GC.sweepInterval]. rewrite Hidle.
  rewrite (proj2 (Z.leb_le _ _) Hs). split; reflexivity.
Qed.

End Build.

(** [buildConfig] panics only on a file whose decoding leaves the section
    [gc] [nil], or the section [tls] [nil] while the environment overrides
    one of its fields. *)
Theorem buildConfig_panics_on_nil_sections LookupEnv ParseDuration file :
  buildConfig LookupEnv ParseDuration file = None
  <-> exists decode,
        file = Decoded decode
        /\ (GC_ (decode (defaults ParseDuration)) = None
            \/ (TLS (decode (defaults ParseDuration)) = None
                /\ writesTLS LookupEnv = true)).
Proof.
  unfold buildConfig. destruct file as [| | |decode].
  - unfold overrides, defaults. cbn [GC_ TLS]. cbn.
    split; [discriminate|]. intros (d & H & _). discriminate.
  - split; [discriminate|]. intros (d & H & _). discriminate.
  - split; [discriminate|]. intros (d & H & _). discriminate.
  - unfold overrides.
    destruct (GC_ (decode (defaults ParseDuration))) as [gc|] eqn:Hgc.
    + destruct (TLS (decode (defaults ParseDuration))) as [tls|] eqn:Htls.
      * cbn. split; [discriminate|].
        intros (d & [= <-] & [H|[H _]]); congruence.
      * destruct (writesTLS LookupEnv) eqn:Hw; cbn.
        -- split; [intros _; exists decode; auto|reflexivity].
        -- split; [discriminate|].
           intros (d & [= <-] & [H|[_ H]]); congruence.
    + cbn. split; [intros _; exists decode; auto|reflexivity].
Qed.

End ConfigFacts.

(** ** The further properties at sample inputs *)

Module AtMoreSamples.

Import GC CoreHelpers Core Notions MoreNotions Samples MoreSamples PropHandler.

(** The ISS line carries the legacy number 25544. *)
Lemma parseSatNum_legacy_at_sample :
  (Strings.bytes issLine1
   = 49 :: 32 :: digitChars [2; 5; 5; 4; 4] ++ drop 7 (Strings.bytes issLine1)
   /\ length [2; 5; 5; 4; 4] = 5%nat
   /\ Forall isDigitVal [2; 5; 5; 4; 4]
   /\ 1 <= decimal [2; 5; 5; 4; 4])
  /\ parseSatNum issLine1 = inr (decimal [2; 5; 5; 4; 4]).
Proof.
  assert (Strings.bytes issLine1
          = 49 :: 32 :: digitChars [2; 5; 5; 4; 4]
              ++ drop 7 (Strings.bytes issLine1)) as H1
    by (vm_compute; reflexivity).
  assert (length [2; 5; 5; 4; 4] = 5%nat) as H2 by reflexivity.
  assert (Forall isDigitVal [2; 5; 5; 4; 4]) as H3
    by (repeat constructor; unfold isDigitVal; lia).
  assert (1 <= decimal [2; 5; 5; 4; 4]) as H4 by (vm_compute; discriminate).
  split; [repeat split; assumption|].
  exact (ParseFacts.parseSatNum_legacy issLine1 49 32 [2; 5; 5; 4; 4]
           (drop 7 (Strings.bytes issLine1)) H1 H2 H3 H4).
Defined.

(** The Alpha-5 number T0001 is 290001. *)
Lemma parseSatNum_alpha5_at_sample :
  (Strings.bytes alpha5Line1
   = 49 :: 32 :: 84 :: digitChars [0; 0; 0; 1]
       ++ drop 7 (Strings.bytes alpha5Line1)
   /\ isAlpha5Letter 84 = true
   /\ length [0; 0; 0; 1] = 4%nat
   /\ Forall isDigitVal [0; 0; 0; 1])
  /\ parseSatNum alpha5Line1 = inr ((84 - 65 + 10) * 10000 + decimal [0; 0; 0; 1])
  /\ 100000 <= (84 - 65 + 10) * 10000 + decimal [0; 0; 0; 1] <= 359999.
Proof.
  assert (Strings.bytes alpha5Line1
          = 49 :: 32 :: 84 :: digitChars [0; 0; 0; 1]
              ++ drop 7 (Strings.bytes alpha5Line1)) as H1
    by (vm_compute; reflexivity).
  assert (isAlpha5Letter 84 = true) as H2 by reflexivity.
  assert (length [0; 0; 0; 1] = 4%nat) as H3 by reflexivity.
  assert (Forall isDigitVal [0; 0; 0; 1]) as H4
    by (repeat constructor; unfold isDigitVal; lia).
  split; [repeat split; assumption|].
  exact (ParseFacts.parseSatNum_alpha5 alpha5Line1 49 32 84 [0; 0; 0; 1]
           (drop 7 (Strings.bytes alpha5Line1)) H1 H2 H3 H4).
Defined.

(** The number of the ISS line is in range. *)
Lemma parseSatNum_range_at_sample :
  parseSatNum issLine1 = inr 25544 /\ 1 <= 25544 <= 359999.
Proof.
  assert (parseSatNum issLine1 = inr 25544) as H by (vm_compute; reflexivity).
  split; [exact H|].
  exact (ParseMore.parseSatNum_range issLine1 25544 H).
Defined.

(** A number padded with a blank is refused for its length. *)
Lemma parseSatNum_blank_padded_at_sample :
  (Strings.bytes paddedLine1
   = 49 :: 32 :: 32 :: 53 :: 53 :: 52 :: 52 :: drop 7 (Strings.bytes paddedLine1)
   /\ (Strings.asciiSpace 32 = true \/ Strings.asciiSpace 52 = true))
  /\ exists s, parseSatNum paddedLine1 = inl (ErrSatnumLength s).
Proof.
  assert (Strings.bytes paddedLine1
          = 49 :: 32 :: 32 :: 53 :: 53 :: 52 :: 52
              :: drop 7 (Strings.bytes paddedLine1)) as H1
    by (vm_compute; reflexivity).
  assert (Strings.asciiSpace 32 = true \/ Strings.asciiSpace 52 = true) as H2
    by (left; reflexivity).
  split; [split; assumption|].
  exact (ParseMore.parseSatNum_blank_padded paddedLine1 49 32 32 53 53 52 52
           (drop 7 (Strings.bytes paddedLine1)) H1 H2).
Defined.

(** The victims 1 and 3 of [registry3], in both orders. *)
Lemma removeVictims_any_order_at_sample :
  Permutation [1; 3] [3; 1]
  /\ fst (removeVictims [1; 3] registry3) = fst (removeVictims [3; 1] registry3).
Proof.
  assert (Permutation [1; 3] [3; 1]) as H by apply perm_swap.
  split; [exact H|].
  exact (RegistryMore.removeVictims_any_order [1; 3] [3; 1] registry3 H).
Defined.

Ltac lookups H :=
  repeat (apply lookup_insert_Some in H as [[<- <-]|[_ H]]);
  try (rewrite lookup_empty in H; discriminate H).

(** A new satellite on the full registry [busy]: two entries where one is
    allowed. *)
Lemma acquire_overshoots_when_all_in_use_at_sample :
  ((forall k' e, loaded busy !! k' = Some e -> refs e <> 0)
   /\ parseSatNum issLine1 = inr 25544
   /\ loaded busy !! 101 = None)
  /\ Acquire insertionSort issLine1 10 miss101 busy
     = (withLoaded busy (<[101 := fresh 101 25544 10]> (loaded busy)), inr 101)
  /\ size (loaded (fst (Acquire insertionSort issLine1 10 miss101 busy)))
     = S (size (loaded busy)).
Proof.
  assert (forall k' e, loaded busy !! k' = Some e -> refs e <> 0) as H1
    by (intros k' e H; unfold busy in H; cbn [loaded] in H; lookups H;
        discriminate).
  assert (parseSatNum issLine1 = inr 25544) as H2 by (vm_compute; reflexivity).
  assert (loaded busy !! 101 = None) as H3 by (vm_compute; reflexivity).
  split; [exact (conj H1 (conj H2 H3))|].
  exact (RegistryMore.acquire_overshoots_when_all_in_use insertionSort issLine1
           10 miss101 busy 25544 101 H1 H2 eq_refl eq_refl eq_refl H3).
Defined.

(** A hit on the entry in use of [registry3], then its release. *)
Lemma acquire_release_restores_at_sample :
  (parseSatNum issLine1 = inr 25544
   /\ loaded registry3 !! existing hit2 = Some inUse
   /\ 0 <= refs inUse < GoInt.maxInt64)
  /\ snd (Acquire insertionSort issLine1 10 hit2 registry3) = inr (existing hit2)
  /\ release (existing hit2) 20
       (fst (Acquire insertionSort issLine1 10 hit2 registry3))
     = withLoaded registry3
         (<[existing hit2 := touched 20 inUse]> (loaded registry3)).
Proof.
  assert (parseSatNum issLine1 = inr 25544) as H1 by (vm_compute; reflexivity).
  assert (loaded registry3 !! existing hit2 = Some inUse) as H2
    by (vm_compute; reflexivity).
  assert (0 <= refs inUse < GoInt.maxInt64) as H3
    by (vm_compute; split; [discriminate|reflexivity]).
  assert (existing hit2 <> -1) as H4 by (vm_compute; discriminate).
  split; [exact (conj H1 (conj H2 H3))|].
  exact (RegistryMore.acquire_release_restores insertionSort issLine1 10 20 hit2
           registry3 25544 inUse H1 eq_refl H4 H2 H3).
Defined.

(** The satellite cannot be added: [registry3] lost the entries evicted
    for it, and no entry changed. *)
Lemma failed_acquire_takes_no_reference_at_sample :
  let g' := fst (Acquire insertionSort issLine1 10 addDown registry3) in
  Acquire insertionSort issLine1 10 addDown registry3 = (g', inl GC.ErrNative)
  /\ forall k e, loaded g' !! k = Some e -> loaded registry3 !! k = Some e.
Proof.
  intros g'.
  assert (Acquire insertionSort issLine1 10 addDown registry3
          = (g', inl GC.ErrNative)) as H by (vm_compute; reflexivity).
  split; [exact H|].
  exact (RegistryMore.failed_acquire_takes_no_reference insertionSort issLine1
           10 addDown registry3 g' GC.ErrNative H).
Defined.

(** One slot needed on [registry3]: two unused entries, both evicted, and
    the registry has room. *)
Lemma evictLRU_makes_room_at_sample :
  (GoInt.minInt64
   <= Z.of_nat (size (loaded registry3)) + 1 - maxLoaded registry3
   <= GoInt.maxInt64
   /\ 0 < Z.of_nat (size (loaded registry3)) + 1 - maxLoaded registry3)
  /\ Z.of_nat (size (loaded (fst (evictLRU insertionSort 1 registry3))))
     = Z.of_nat (size (loaded registry3))
       - Z.min (Z.of_nat (size (loaded registry3)) + 1 - maxLoaded registry3)
           (Z.of_nat (length (candidates registry3)))
  /\ (Z.of_nat (size (loaded registry3)) + 1 - maxLoaded registry3
      <= Z.of_nat (length (candidates registry3)) ->
      Z.of_nat (size (loaded (fst (evictLRU insertionSort 1 registry3)))) + 1
      = maxLoaded registry3).
Proof.
  assert (GoInt.minInt64
          <= Z.of_nat (size (loaded registry3)) + 1 - maxLoaded registry3
          <= GoInt.maxInt64) as H1 by (vm_compute; split; discriminate).
  assert (0 < Z.of_nat (size (loaded registry3)) + 1 - maxLoaded registry3) as H2
    by (vm_compute; reflexivity).
  split; [exact (conj H1 H2)|].
  exact (LruMore.evictLRU_makes_room insertionSort LruFacts.insertionSort_sorts
           1 registry3 H1 H2).
Defined.

(** A call through a fresh gate of one permit. *)
Lemma gate_never_over_capacity_at_sample :
  let w := mkWorld (Some (SetDllGate 1)) tt in
  let r := WithDllCall (fun _ => EmptyString) None true
             (fun n => (Returns 0, n)) w in
  0 <= held (ensureGate (curGate w)) <= capacity (ensureGate (curGate w))
  /\ 0 <= held (ensureGate (curGate (snd (fst r))))
       <= capacity (ensureGate (curGate (snd (fst r))))
  /\ capacity (ensureGate (curGate (snd (fst r))))
     = capacity (ensureGate (curGate w))
  /\ (held (ensureGate (curGate w)) = capacity (ensureGate (curGate w)) ->
      ~ In Call (snd r))
  /\ (In Call (snd r) -> snd r = PermitSend :: Call :: skipn 2 (snd r)).
Proof.
  intros w r.
  assert (0 <= held (ensureGate (curGate w)) <= capacity (ensureGate (curGate w)))
    as H by (vm_compute; split; discriminate).
  split; [exact H|].
  exact (GateMore.gate_never_over_capacity unit (fun _ => EmptyString) None true
           (fun n => (Returns 0, n)) w H).
Defined.

(** Two points out of a chunk of two: no [done], fourteen doubles. *)
Lemma Sgp4GenEphems_shape_at_sample :
  let c :=
    {| Dllcore.ephemFlatArr := List.map bufHalfDays (seq 0 14);
       Dllcore.n := 2;
       Dllcore.nextStart := (27744.5 + Dllcore.eps)%float;
       Dllcore.done := false;
       Dllcore.errCode := 0 |} in
  let call :=
    Some {| Dllcore.satKey := 101; Dllcore.startTime := 27744%float;
            Dllcore.endTime := 27754%float; Dllcore.stepSize := 10%float;
            Dllcore.sgp4Ephem := 1; Dllcore.arrSize := 2 |} in
  Dllcore.Sgp4GenEphems (-1)%float 101 27744%float 27754%float 10%float 1 2
    (Dllcore.Shim 0 2 bufHalfDays) = (Some c, call)
  /\ 0 <= Dllcore.n c
  /\ Z.of_nat (length (Dllcore.ephemFlatArr c)) = 7 * Dllcore.n c
  /\ (Dllcore.errCode c <> 0 -> Dllcore.n c = 0 /\ Dllcore.done c = false)
  /\ (Dllcore.errCode c = 0 -> Dllcore.n c = 0 ->
      Dllcore.done c = true /\ Dllcore.nextStart c = 27744%float)
  /\ (0 < Dllcore.n c -> Dllcore.n c < 2 -> Dllcore.done c = true)
  /\ (forall rc got buf,
        Dllcore.Shim 0 2 bufHalfDays = Dllcore.Shim rc got buf ->
        0 < GoInt.int32 got ->
        Dllcore.errCode c = 0 /\ Dllcore.n c = GoInt.int32 got).
Proof.
  intros c call.
  assert (Dllcore.Sgp4GenEphems (-1)%float 101 27744%float 27754%float 10%float
            1 2 (Dllcore.Shim 0 2 bufHalfDays) = (Some c, call)) as H
    by (vm_compute; reflexivity).
  split; [exact H|].
  exact (AdapterFacts.Sgp4GenEphems_shape (-1)%float 101 27744%float 27754%float
           10%float 1 2 (Dllcore.Shim 0 2 bufHalfDays) c call H).
Defined.

(** The sample request is accepted. *)
Lemma validated_request_is_runnable_at_sample :
  let req := requestWith (KnownTimeStepPeriod "PT10M") in
  validateAnalytEphemRequest req = None
  /\ Tasks req <> []
  /\ (EphemType req = Dllcore.EciEphemType \/ EphemType req = Dllcore.J2KEphemType)
  /\ forall task, In task (Tasks req) ->
       (exists sat, Sat task = Some sat
                    /\ TleLn1 sat <> EmptyString /\ TleLn2 sat <> EmptyString)
       /\ (exists grid, resolveTimeGrid task req = Some grid
                        /\ validateGrid grid = None).
Proof.
  intros req.
  assert (validateAnalytEphemRequest req = None) as H by (vm_compute; reflexivity).
  split; [exact H|].
  exact (EphemMore.validated_request_is_runnable req H).
Defined.

(** The calls for the sample task with a period of ten minutes. *)
Lemma task_call_parameters_at_sample :
  let req := requestWith (KnownTimeStepPeriod "PT10M") in
  let grid := gridWith (KnownTimeStepPeriod "PT10M") in
  let calls :=
    snd (runAnalytGenEphems parseOnlyPT10M (fun m => m) (-1)%float req issTask
           0 101 2 twoChunks) in
  (resolveTimeGrid issTask req = Some grid
   /\ (if isDynamicTimeStep grid then Some (-1)%float
       else getKnownTimeStep parseOnlyPT10M (fun m => m) grid) = Some 10%float)
  /\ List.map Dllcore.startTime calls = [27744%float; (27744.5 + Dllcore.eps)%float]
  /\ Forall (fun c =>
               Dllcore.satKey c = 101
               /\ Dllcore.endTime c = gridEnd grid
               /\ Dllcore.stepSize c
                  = (if PrimFloat.eqb 10 (-1) then (-1)%float else 10%float)
               /\ Dllcore.sgp4Ephem c = EphemType req
               /\ Dllcore.arrSize c = GoInt.int32 2) calls
  /\ (forall c rest, calls = c :: rest -> Dllcore.startTime c = gridStart grid)
  /\ (isDynamicTimeStep grid = true ->
      Forall (fun c => Dllcore.stepSize c = (-1)%float) calls).
Proof.
  intros req grid calls.
  assert (resolveTimeGrid issTask req = Some grid) as H1 by reflexivity.
  assert ((if isDynamicTimeStep grid then Some (-1)%float
           else getKnownTimeStep parseOnlyPT10M (fun m => m) grid)
          = Some 10%float) as H2 by (vm_compute; reflexivity).
  split; [exact (conj H1 H2)|]. split; [vm_compute; reflexivity|].
  exact (EphemMore.task_call_parameters float parseOnlyPT10M (fun m => m)
           (-1)%float req issTask 0 101 2 twoChunks grid 10%float H1 H2).
Defined.

(** The sample stream does not panic. *)
Lemma Ephem_never_panics_at_sample :
  let req := requestWith (KnownTimeStepPeriod "PT10M") in
  (0 <= 2 < 2 ^ 61
   /\ 8 * 2 <= chanBytesAmd64
   /\ (forall task grid p,
         In task (Tasks req) -> resolveTimeGrid task req = Some grid ->
         StepType grid = KnownTimeStepPeriod p -> parseOnlyPT10M p <> None)
   /\ Forall (fun env =>
                Forall (fun it => forall rc got buf,
                          answer it = Dllcore.Shim rc got buf ->
                          0 <= GoInt.int32 got) (iters env))
        [taskEnv twoChunks])
  /\ fst (fst sampleStream) <> EphPanic.
Proof.
  intros req.
  assert (forall task grid p,
             In task (Tasks req) -> resolveTimeGrid task req = Some grid ->
             StepType grid = KnownTimeStepPeriod p -> parseOnlyPT10M p <> None)
    as H1.
  { intros task grid p [<-|[]] Hg Hs. vm_compute in Hg. injection Hg as <-.
    cbn in Hs. injection Hs as <-. vm_compute. discriminate. }
  assert (Forall (fun env =>
                    Forall (fun it => forall rc got buf,
                              answer it = Dllcore.Shim rc got buf ->
                              0 <= GoInt.int32 got) (iters env))
            [taskEnv twoChunks]) as H2.
  { repeat constructor; cbn; intros rc got buf Ha; injection Ha as _ <- _;
      vm_compute; discriminate. }
  assert (0 <= 2 < 2 ^ 61) as H0
    by (vm_compute; split; [discriminate|reflexivity]).
  assert (8 * 2 <= chanBytesAmd64) as H0' by (vm_compute; discriminate).
  split; [exact (conj H0 (conj H0' (conj H1 H2)))|].
  exact (EphemMore.Ephem_never_panics float parseOnlyPT10M (fun m => m)
           (-1)%float chanBytesAmd64 req 2 [taskEnv twoChunks] (fun _ => false)
           H0 H0' H1 H2).
Defined.

(** The stream whose second [Send] fails: the first chunk is delivered,
    the send error is returned. *)
Lemma Ephem_delivers_until_send_fails_at_sample :
  let req := requestWith (KnownTimeStepPeriod "PT10M") in
  let e := fst (fst brokenStream) in
  let delivered := snd (fst brokenStream) in
  (validateAnalytEphemRequest req = None
   /\ brokenStream = (e, delivered, snd brokenStream)
   /\ e <> EphPanic /\ e <> EphPending)
  /\ e = EphSend
  /\ List.map StreamChunkId delivered = [0]
  /\ exists rest,
       snd (fst (ephemTasks parseOnlyPT10M (fun m => m) (-1)%float req 2 0%nat
                   (Tasks req) [taskEnv twoChunks]))
       = delivered ++ rest
       /\ (forall j, (j < length delivered)%nat -> (j =? 1)%nat = false)
       /\ (rest <> [] ->
           (length delivered =? 1)%nat = true
           /\ e <> EphOk /\ forall err, e <> EphTask err)
       /\ (e = EphSend -> rest <> []).
Proof.
  intros req e delivered.
  assert (validateAnalytEphemRequest req = None) as H1 by (vm_compute; reflexivity).
  assert (brokenStream = (e, delivered, snd brokenStream)) as H2
    by (vm_compute; reflexivity).
  assert (e <> EphPanic) as H3 by (vm_compute; discriminate).
  assert (e <> EphPending) as H4 by (vm_compute; discriminate).
  split; [exact (conj H1 (conj H2 (conj H3 H4)))|].
  split; [vm_compute; reflexivity|]. split; [vm_compute; reflexivity|].
  exact (EphemMore.Ephem_delivers_until_send_fails float parseOnlyPT10M
           (fun m => m) (-1)%float chanBytesAmd64 req 2 [taskEnv twoChunks]
           (fun i => (i =? 1)%nat) e delivered (snd brokenStream) H1 H2 H3 H4).
Defined.

(** With a message in the slot, a return of 1 without point aborts the
    task; the call went out with the engine's own step. *)
Lemma chunkLoop_native_error_at_sample :
  let it := {| answer := Dllcore.Shim 1 0 bufHalfDays;
               lastError := "sat not found"; send := Queued |} in
  let req := requestWith (DynamicTimeStep true) in
  (answer it = Dllcore.Shim 1 0 bufHalfDays
   /\ 1 <> 0 /\ 1 <> -10 /\ GoInt.int32 0 = 0)
  /\ chunkLoop 0.5%float req issTask 0 101 27754%float (-1)%float 100 0
       27744%float [it]
     = (Finished (Some (Core.ErrNative "sat not found")), [],
        [ {| Dllcore.satKey := 101; Dllcore.startTime := 27744%float;
             Dllcore.endTime := 27754%float; Dllcore.stepSize := 0.5%float;
             Dllcore.sgp4Ephem := 1; Dllcore.arrSize := 100 |} ]).
Proof.
  intros it req.
  assert (answer it = Dllcore.Shim 1 0 bufHalfDays) as H1 by reflexivity.
  assert (1 <> 0) as H2 by discriminate.
  assert (1 <> -10) as H3 by discriminate.
  assert (GoInt.int32 0 = 0) as H4 by reflexivity.
  split; [exact (conj H1 (conj H2 (conj H3 H4)))|].
  exact (EphemFacts.chunkLoop_native_error 0.5%float req issTask 0 101
           27754%float (-1)%float 100 0 27744%float it [] 1 0 bufHalfDays
           H1 H2 H3 H4).
Defined.

(** [Prop] on the satellite in use of [registry3]: its count is back at 1
    and the unused entries are at 0. *)
Lemma Prop_leaves_no_reference_at_sample :
  (sampleProp
   = (fst (fst (fst sampleProp)), snd (fst (fst sampleProp)),
      snd (fst sampleProp), snd sampleProp)
   /\ fst (fst (fst sampleProp)) <> PropPending
   /\ bounded (GoInt.maxInt64 - 1) registry3)
  /\ option_map refs (loaded (snd (fst (fst sampleProp))) !! 2) = Some 1
  /\ forall k e', loaded (snd (fst (fst sampleProp))) !! k = Some e' ->
       refs e' = 0
       \/ exists e0, loaded registry3 !! k = Some e0 /\ refs e' = refs e0.
Proof.
  assert (sampleProp
          = (fst (fst (fst sampleProp)), snd (fst (fst sampleProp)),
             snd (fst sampleProp), snd sampleProp)) as H1
    by (vm_compute; reflexivity).
  assert (fst (fst (fst sampleProp)) <> PropPending) as H2
    by (vm_compute; discriminate).
  assert (bounded (GoInt.maxInt64 - 1) registry3) as H3.
  { intros k e H. unfold registry3 in H. cbn [loaded] in H. lookups H;
      vm_compute; split; discriminate. }
  split; [exact (conj H1 (conj H2 H3))|]. split; [vm_compute; reflexivity|].
  exact (PropFacts.Prop_leaves_no_reference 0 1 unit (fun _ => EmptyString)
           propAllOnes insertionSort None true 10 20 hit2 (fun n => n)
           propRequest registry3 (mkWorld None tt) _ _ _ _ H1 H2 H3).
Defined.

(** The call of the sample request: key 2, the request's DS50 time. *)
Lemma Prop_call_arguments_at_sample :
  let c := {| callKey := 2; callTimeType := 1; callTime := 27744.5%float |} in
  sampleProp
  = (fst (fst (fst sampleProp)), snd (fst (fst sampleProp)),
     snd (fst sampleProp), Some c)
  /\ exists task sat,
       PTask propRequest = Some task /\ PSat task = Some sat
       /\ snd (Acquire insertionSort (TleLn1 sat) 10 hit2 registry3)
          = inr (callKey c)
       /\ match PTimeUtc task with
          | Some t =>
              callTimeType c = 1 /\ callTime c = UtcToDS50 t
              /\ PrimFloat.ltb 0 (PTime task) = false
          | None =>
              callTimeType c = PTimeType propRequest /\ callTime c = PTime task
              /\ (PTimeType propRequest = 0 \/ PTimeType propRequest = 1)
          end.
Proof.
  intros c.
  assert (sampleProp
          = (fst (fst (fst sampleProp)), snd (fst (fst sampleProp)),
             snd (fst sampleProp), Some c)) as H
    by (vm_compute; reflexivity).
  split; [exact H|].
  exact (PropFacts.Prop_call_arguments 0 1 unit (fun _ => EmptyString)
           propAllOnes insertionSort None true 10 20 hit2 (fun n => n)
           propRequest registry3 (mkWorld None tt) _ _ _ c H).
Defined.

(** The response of the sample request. *)
Lemma Prop_response_at_sample :
  let resp :=
    {| RReqId := 9;
       RResult := {| Ds50Time := 27744.5; MseTime := 1; X := 1; Y := 1;
                     Z_ := 1; Vx := 1; Vy := 1; Vz := 1 |}%float |} in
  let w0 := mkWorld None tt in
  sampleProp
  = (PropReturned (inr resp), snd (fst (fst sampleProp)),
     snd (fst sampleProp), snd sampleProp)
  /\ RReqId resp = PReqId propRequest
  /\ permits (snd (fst sampleProp)) = permits w0
  /\ exists c rc out n',
       snd sampleProp = Some c
       /\ propAllOnes (callKey c) (callTimeType c) (callTime c) (native w0)
          = (rc, out, n')
       /\ GoInt.int32 rc = 0
       /\ native (snd (fst sampleProp)) = n'
       /\ RResult resp
          = {| Ds50Time := out 0%nat; MseTime := out 1%nat;
               X := out 2%nat; Y := out 3%nat; Z_ := out 4%nat;
               Vx := out 5%nat; Vy := out 6%nat; Vz := out 7%nat |}.
Proof.
  intros resp w0.
  assert (sampleProp
          = (PropReturned (inr resp), snd (fst (fst sampleProp)),
             snd (fst sampleProp), snd sampleProp)) as H
    by (vm_compute; reflexivity).
  split; [exact H|].
  exact (PropFacts.Prop_response 0 1 unit (fun _ => EmptyString)
           propAllOnes insertionSort None true 10 20 hit2 (fun n => n)
           propRequest registry3 w0 resp _ _ _ H).
Defined.

(** No file, and an environment that sets the sweep interval to 0. *)
Lemma built_config_is_usable_at_sample :
  let cfg := sweepOffConfig in
  (parseSomeDurations Values.DefaultGracefulStopTimeoutSec = Some 10000000000
   /\ parseSomeDurations Values.DefaultIdleTTLGcMin = Some GC.DefaultIdleTTLGcMin
   /\ parseSomeDurations Values.DefaultSweepIntervalGcMin
      = Some GC.DefaultSweepIntervalGcMin
   /\ Config.buildConfig sweepOffEnv parseSomeDurations Config.NotExist
      = Some (inr cfg))
  /\ 0 < Config.StreamChunkSize cfg /\ 0 < Config.GracefulStopTimeoutSec cfg
  /\ exists gc g,
       Config.GC_ cfg = Some gc /\ Config.NewGCFromConfig cfg = Some g
       /\ GC.loaded g = ∅
       /\ GC.maxLoaded g = Config.MaxLoadedSatsGc gc /\ 0 < GC.maxLoaded g
       /\ GC.idleTTL g = Config.IdleTTLGcMin gc /\ 0 < GC.idleTTL g
       /\ 0 < GC.sweepInterval g.
Proof.
  intros cfg.
  assert (parseSomeDurations Values.DefaultGracefulStopTimeoutSec
          = Some 10000000000) as H1 by reflexivity.
  assert (parseSomeDurations Values.DefaultIdleTTLGcMin
          = Some GC.DefaultIdleTTLGcMin) as H2 by reflexivity.
  assert (parseSomeDurations Values.DefaultSweepIntervalGcMin
          = Some GC.DefaultSweepIntervalGcMin) as H3 by reflexivity.
  assert (Config.buildConfig sweepOffEnv parseSomeDurations Config.NotExist
          = Some (inr cfg)) as H4 by (vm_compute; reflexivity).
  split; [exact (conj H1 (conj H2 (conj H3 H4)))|].
  exact (ConfigFacts.built_config_is_usable sweepOffEnv parseSomeDurations
           H1 H2 H3 Config.NotExist cfg H4).
Defined.

(** The idle TTL of 30 minutes set in the environment is lost: with the
    sweep interval at 0 the configuration holds five minutes. *)
Lemma nonpositive_sweep_interval_resets_idle_ttl_at_sample :
  let cfg := sweepOffConfig in
  let gc := {| Config.MaxLoadedSatsGc := 500;
               Config.IdleTTLGcMin := 300000000000;
               Config.SweepIntervalGcMin := 0 |} in
  (sweepOffEnv Values.IdleTTLGcMinEnvKey = Some "30m"%string
   /\ parseSomeDurations "30m" = Some 1800000000000
   /\ Config.buildConfig sweepOffEnv parseSomeDurations Config.NotExist
      = Some (inr cfg)
   /\ Config.GC_ cfg = Some gc
   /\ Config.SweepIntervalGcMin gc <= 0)
  /\ Config.IdleTTLGcMin gc = GC.DefaultSweepIntervalGcMin
  /\ exists g,
       Config.NewGCFromConfig cfg = Some g
       /\ GC.idleTTL g = GC.DefaultSweepIntervalGcMin
       /\ GC.sweepInterval g = GC.DefaultSweepIntervalGcMin.
Proof.
  intros cfg gc.
  assert (Config.buildConfig sweepOffEnv parseSomeDurations Config.NotExist
          = Some (inr cfg)) as H1 by (vm_compute; reflexivity).
  assert (Config.GC_ cfg = Some gc) as H2 by reflexivity.
  assert (Config.SweepIntervalGcMin gc <= 0) as H3 by (vm_compute; discriminate).
  split; [exact (conj eq_refl (conj eq_refl (conj H1 (conj H2 H3))))|].
  exact (ConfigFacts.nonpositive_sweep_interval_resets_idle_ttl sweepOffEnv
           parseSomeDurations eq_refl eq_refl eq_refl Config.NotExist cfg gc
           H1 H2 H3).
Defined.

(** A new satellite on [registry3]: the unused entries are evicted, key
    101 is pinned and the entry in use is as it was. *)
Lemma acquire_pins_the_key_at_sample :
  let g' := fst (Acquire insertionSort issLine1 10 miss101 registry3) in
  (Acquire insertionSort issLine1 10 miss101 registry3 = (g', inr 101)
   /\ bounded (GoInt.maxInt64 - 1) registry3)
  /\ size (loaded g') = 2%nat /\ loaded g' !! 1 = None /\ loaded g' !! 3 = None
  /\ (exists e, loaded g' !! 101 = Some e /\ 0 < refs e /\ lastUsed e = 10)
  /\ (forall k' e', k' <> 101 -> loaded g' !! k' = Some e' ->
        loaded registry3 !! k' = Some e').
Proof.
  intros g'.
  assert (Acquire insertionSort issLine1 10 miss101 registry3 = (g', inr 101))
    as H1 by (vm_compute; reflexivity).
  assert (bounded (GoInt.maxInt64 - 1) registry3) as H2.
  { intros k e H. unfold registry3 in H. cbn [loaded] in H. lookups H;
      vm_compute; split; discriminate. }
  split; [exact (conj H1 H2)|].
  split; [vm_compute; reflexivity|]. split; [vm_compute; reflexivity|].
  split; [vm_compute; reflexivity|].
  exact (RegistryMore.acquire_pins_the_key insertionSort issLine1 10 miss101
           registry3 g' 101 H1 H2).
Defined.

End AtMoreSamples.
